(** * Temporal index, TWAP and polling loops of the UMA protocol bots

    A shallow embedding of
      - [BlockHistory], [BlockFinder] and [computeTWAP]
        (the price-history helpers, src/unnamed/part_002),
      - the execution loop of the liquidator bot
        (src/packages/liquidator/index.js),
      - the proposal and dispute senders of the optimistic-oracle bot
        (src/packages/optimistic-oracle/src/proposer.js),
    followed by the properties proved about them.

    Conventions.  JavaScript numbers that hold block numbers, timestamps and
    durations are integers of [Z]; what the code computes on them in
    floating point (a quotient, a rounded product) is a parameter.  [BN]
    values are integers of [Z]; [muln] and [divn] are multiplication and
    truncated division by a number below 2^26 and throw from 2^26 on, as in
    bn.js.  Arrays are lists, [arr[i]] is [js_index] ([undefined] is
    [None]).  A function that mutates an array it was handed returns the new
    array next to its result.  A thrown exception is [Throw]. *)

From Stdlib Require Import ZArith List Lia Bool String QArith Qround.
From stdpp Require Import base list sorting numbers strings gmap.

Close Scope Q_scope.
Open Scope Z_scope.

(* ===================================================================== *)
(** * Part I: the programs                                                *)
(* ===================================================================== *)

(** ** Outcomes of a call *)

(** A JavaScript error object; [Rejected ty] is an error raised by a
    collaborator, [ty] being its [type] field. *)
Inductive error : Type :=
| AssertionError (msg : string)   (* assert(cond, msg) failed *)
| TypeError                       (* property read on undefined *)
| JsError (msg : string)          (* new Error(msg) *)
| Rejected (ty : string).

(** A call returns, throws, ends the process ([process.exit]) or is still
    running when the fuel of the model is used up. *)
Inductive result (A : Type) : Type :=
| Ok (a : A)
| Throw (e : error)
| Exit (code : Z)
| OutOfFuel.
Arguments Ok {A} a.
Arguments Throw {A} e.
Arguments Exit {A} code.
Arguments OutOfFuel {A}.

(** What awaiting a collaborator (ledger client, price feed, ...) gives: a
    value or a rejection. *)
Inductive reply (A : Type) : Type :=
| Reply (a : A)
| Fail (e : error).
Arguments Reply {A} a.
Arguments Fail {A} e.

Definition result_of {A} (r : reply A) : result A :=
  match r with
  | Reply a => Ok a
  | Fail e => Throw e
  end.

(** Stateful code: a state transformer that also yields an outcome.  What a
    call wrote to the state before it threw stays written. *)
Definition M (S A : Type) : Type := S -> S * result A.

Definition ret {S A} (a : A) : M S A := fun s => (s, Ok a).

Definition throw {S A} (e : error) : M S A := fun s => (s, Throw e).

Definition bind {S A B} (c : M S A) (k : A -> M S B) : M S B :=
  fun s =>
    match c s with
    | (s', Ok a) => k a s'
    | (s', Throw e) => (s', Throw e)
    | (s', Exit code) => (s', Exit code)
    | (s', OutOfFuel) => (s', OutOfFuel)
    end.

(** [try { c } catch (error) { h error }]. *)
Definition try_catch {S A} (c : M S A) (h : error -> M S A) : M S A :=
  fun s =>
    match c s with
    | (s', Throw e) => h e s'
    | other => other
    end.

(** The outcome of a call that does not touch the state. *)
Definition call {S A} (r : result A) : M S A := fun s => (s, r).

(** [await] of a collaborator's promise. *)
Definition await {S A} (r : reply A) : M S A := call (result_of r).

(** A collaborator that works on a world [W] of its own. *)
Definition Ext (W A : Type) : Type := W -> W * reply A.

Definition get {S} : M S S := fun s => (s, Ok s).
(** [get] under a name that the modules defining a [get] of their own
    leave free. *)
Definition read {S} : M S S := get.
Definition modify {S} (f : S -> S) : M S unit := fun s => (f s, Ok tt).

(** [assert(cond, msg)]. *)
Definition assert {S} (cond : bool) (msg : string) : M S unit :=
  if cond then ret tt else throw (AssertionError msg).

Declare Scope js_scope.
Delimit Scope js_scope with js.
Notation "'let*' x := c 'in' k" := (bind c (fun x => k))
  (at level 10, x name, c at level 100, k at level 200) : js_scope.
Notation "c ;; k" := (bind c (fun _ => k))
  (at level 100, k at level 200, right associativity) : js_scope.
Open Scope js_scope.

(** ** Blocks *)

Record Block : Type := mkBlock { number : Z; timestamp : Z }.

(** [arr[i]] for a JavaScript number [i]: [undefined] out of range. *)
Definition js_index {A} (arr : list A) (i : Z) : option A :=
  if i <? 0 then None else arr !! Z.to_nat i.

(** [arr[arr.length - 1]]. *)
Definition latest_of {A} (arr : list A) : option A :=
  js_index arr (Z.of_nat (length arr) - 1).

(** [arr.splice(index, 0, x)]. *)
Definition splice_insert {A} (arr : list A) (index : nat) (x : A) : list A :=
  take index arr ++ x :: drop index arr.

(** ** lodash helpers

    [lodash.sortedIndexBy(array, value, iteratee)] is a binary search for the
    lowest index at which [value] keeps the order of [array]; the loop below
    is lodash's [baseSortedIndexBy] on numeric keys.  [fuel] bounds the
    number of halvings; [length array] is always enough. *)
Module Lodash.

Fixpoint baseSortedIndexBy {A} (iteratee : A -> Z) (array : list A)
    (value : Z) (fuel low high : nat) : nat :=
  match fuel with
  | O => high
  | S fuel' =>
      if (low <? high)%nat then
        let mid := ((low + high) / 2)%nat in
        match array !! mid with
        | Some x =>
            if iteratee x <? value
            then baseSortedIndexBy iteratee array value fuel' (mid + 1)%nat high
            else baseSortedIndexBy iteratee array value fuel' low mid
        | None => baseSortedIndexBy iteratee array value fuel' low mid
        end
      else high
  end.

Definition sortedIndexBy {A} (array : list A) (value : Z) (iteratee : A -> Z) : nat :=
  baseSortedIndexBy iteratee array value (length array) 0 (length array).

(** [lodash.clamp(number, lower, upper)]. *)
Definition clamp (n lower upper : Z) : Z :=
  let n1 := if n <=? upper then n else upper in
  if lower <=? n1 then n1 else lower.

End Lodash.

(** ** BlockHistory *)
Module BlockHistory.
Section WithChain.

(** [getBlock(number)]; [getBlock()] with no argument is the latest block. *)
Variable getBlock : option Z -> reply Block.
(** [Math.floor((bufferBlockPercent * lookback) / (await
    averageBlockTimeSeconds()))]: a floating-point computation on the block
    time that [averageBlockTimeSeconds] of @uma/common gives (not part of
    these sources). *)
Variable bufferedBlocks : Q -> Z -> Z.

Definition has (blocks : list Block) (n : Z) : bool :=
  match find (fun block => number block =? n) blocks with
  | Some _ => true
  | None => false
  end.

Definition latest (blocks : list Block) : option Block := latest_of blocks.

Definition insert (blocks : list Block) (block : Block) : list Block :=
  let index := Lodash.sortedIndexBy blocks (timestamp block) timestamp in
  splice_insert blocks index block.

Definition getClosestAfter (blocks : list Block) (ts : Z) : option Block :=
  let index := Lodash.sortedIndexBy blocks ts timestamp in
  js_index blocks (Z.of_nat index).

Definition getClosestBefore (blocks : list Block) (ts : Z) : option Block :=
  let index := Lodash.sortedIndexBy blocks ts timestamp in
  match js_index blocks (Z.of_nat index) with
  | Some b => if timestamp b =? ts then Some b
              else js_index blocks (Z.of_nat index - 1)
  | None => js_index blocks (Z.of_nat index - 1)
  end.

(** [Promise.all] over the [getBlock(i)] of the loop: all the blocks, or the
    first rejection. *)
Fixpoint fetchAll (heights : list Z) : reply (list Block) :=
  match heights with
  | [] => Reply []
  | h :: rest =>
      match getBlock (Some h), fetchAll rest with
      | Reply b, Reply bs => Reply (b :: bs)
      | Fail e, _ | Reply _, Fail e => Fail e
      end
  end.

Definition insertRecent (lookback now : Z) (blocks : list Block) (fetched : list Block)
    : list Block :=
  fold_left
    (fun cache _block =>
       if now - lookback <=? timestamp _block then insert cache _block else cache)
    fetched blocks.

(** [update(lookback, now, bufferBlockPercent)]: the cache afterwards and
    the returned array of fetched blocks. *)
Definition update (lookback now : Z) (bufferBlockPercent : Q) : M (list Block) (list Block) :=
  assert (0 <=? lookback) "requires lookback in seconds" ;;
  assert (0 <=? now) "requires current time" ;;
  let* latestBlock := await (getBlock None) in
  let latestBlockHeight := number latestBlock in
  let earliestBlockHeight :=
    Z.max 0 (latestBlockHeight - bufferedBlocks bufferBlockPercent lookback) in
  let* fetched :=
    await (fetchAll (seqZ earliestBlockHeight
                          (latestBlockHeight - earliestBlockHeight + 1))) in
  modify (fun blocks => insertRecent lookback now blocks fetched) ;;
  ret fetched.

Definition listBlocks (blocks : list Block) : list Block := blocks.

(** The calls a client can make, and the cache after a sequence of them. *)
Inductive op : Type :=
| OpInsert (block : Block)
| OpUpdate (lookback now : Z) (bufferBlockPercent : Q)
| OpHas (n : Z)
| OpLatest
| OpGetClosestAfter (ts : Z)
| OpGetClosestBefore (ts : Z)
| OpListBlocks.

Definition step (blocks : list Block) (o : op) : list Block :=
  match o with
  | OpInsert block => insert blocks block
  | OpUpdate lookback now buffer => fst (update lookback now buffer blocks)
  | OpHas _ | OpLatest | OpGetClosestAfter _ | OpGetClosestBefore _ | OpListBlocks => blocks
  end.

Definition run (blocks : list Block) (ops : list op) : list Block :=
  fold_left step ops blocks.

End WithChain.
End BlockHistory.

(** ** PriceHistory

    The object [prices] is the list of its own properties in the order in
    which [Object.keys] and [Object.entries] give them: the keys that are
    array indices (integers from 0 to 2^32 - 2) in ascending order first,
    then the other keys in the order of their creation; a key is the
    number whose [String] is the name of the property.  The prices [T] are
    values other than [null] and [undefined], as the type of [prices] has
    them. *)
Module PriceHistory.
Section WithPrices.

Context {T : Type}.
(** [getPrice(blockNumber)]: a price, [null] ([None]) or a rejection. *)
Variable getPrice : Z -> reply (option T).
(** The digit before the point in the exponent notation of a number from
    10^21 on (floating point, not modelled). *)
Variable leadingDigit : Z -> Z.

Definition is_array_index (k : Z) : bool := (0 <=? k) && (k <? 4294967295).

(** [prices[timestamp]], [undefined] when there is no such property. *)
Fixpoint lookup (prices : list (Z * T)) (ts : Z) : option T :=
  match prices with
  | [] => None
  | (k, v) :: rest => if k =? ts then Some v else lookup rest ts
  end.

(** [prices[timestamp] = price] on an object that has the property. *)
Fixpoint overwrite (prices : list (Z * T)) (ts : Z) (price : T) : list (Z * T) :=
  match prices with
  | [] => []
  | (k, v) :: rest =>
      (k, if k =? ts then price else v) :: overwrite rest ts price
  end.

(** [prices[timestamp] = price] for a new array index: it comes after the
    array indices below it. *)
Fixpoint add_index (prices : list (Z * T)) (ts : Z) (price : T) : list (Z * T) :=
  match prices with
  | [] => [(ts, price)]
  | (k, v) :: rest =>
      if is_array_index k && (k <? ts) then (k, v) :: add_index rest ts price
      else (ts, price) :: (k, v) :: rest
  end.

Definition assign (prices : list (Z * T)) (ts : Z) (price : T) : list (Z * T) :=
  match lookup prices ts with
  | Some _ => overwrite prices ts price
  | None =>
      if is_array_index ts then add_index prices ts price
      else prices ++ [(ts, price)]
  end.

(** [parseInt(number)] of a property name, which is [String(timestamp)]:
    the timestamp itself as long as [String] writes it in decimal digits,
    which is below 10^21.  From 10^21 on [String] writes the number in
    exponent notation, of which [parseInt] reads the one digit before the
    point: the first digit of the shortest decimal that names the
    floating-point number, [leadingDigit]. *)
Definition parseInt_key (k : Z) : Z :=
  if Z.abs k <? 1000000000000000000000 then k
  else Z.sgn k * leadingDigit (Z.abs k).

Definition list_ (prices : list (Z * T)) : list (Z * T) :=
  map (fun entry => (parseInt_key (fst entry), snd entry)) prices.

Definition has (prices : list (Z * T)) (ts : Z) : bool :=
  match lookup prices ts with
  | Some _ => true
  | None => false
  end.

Definition currentPrice (prices : list (Z * T)) : option T :=
  snd (fold_left
         (fun (result : Z * option T) (entry : Z * T) =>
            match snd result with
            | None => (fst entry, Some (snd entry))
            | Some _ =>
                if fst result <? fst entry then (fst entry, Some (snd entry))
                else result
            end)
         (list_ prices) (0, None)).

Definition set (ts : Z) (price : T) : M (list (Z * T)) T :=
  assert (0 <=? ts) "requires timestamp in seconds" ;;
  modify (fun prices => assign prices ts price) ;;
  ret price.

Definition get (ts : Z) : M (list (Z * T)) T :=
  assert (0 <=? ts) "requires timestamp in seconds" ;;
  let* prices := read in
  match lookup prices ts with
  | Some price => ret price        (* [has(timestamp)]: [prices[timestamp]] *)
  | None =>
      throw (AssertionError "no price for that timestamp, use block timestamp")
  end.

(** [getBetween(start, end)]; [end] defaults to [Date.now()] at the caller. *)
Definition getBetween (start end_ : Z) : M (list (Z * T)) (list T) :=
  assert (start <=? end_) "Start time must be less than end time" ;;
  let* prices := read in
  ret (map snd (filter (fun entry => fst entry <= end_ /\ start <= fst entry) prices)).

(** [update(block)]: the price, or [undefined] ([None]) when [getPrice] has
    none. *)
Definition update (block : Block) : M (list (Z * T)) (option T) :=
  assert (0 <=? timestamp block) "requires block with timestamp" ;;
  assert (0 <=? number block) "requires block with number" ;;
  let* prices := read in
  if has prices (timestamp block) then
    let* price := get (timestamp block) in ret (Some price)
  else
    let* price := await (getPrice (number block)) in
    match price with
    | Some p => let* stored := set (timestamp block) p in ret (Some stored)
    | None => ret None
    end.

End WithPrices.
End PriceHistory.

(** ** BlockFinder *)
Module BlockFinder.

(** The argument of [requestBlock]: a block number or ["latest"]. *)
Inductive requested : Type := Latest | Number (n : Z).

(** The cache [blocks], and the numbers [getBlock] was called with, oldest
    call first (a record of the search, not a variable of the program). *)
Record state : Type := mkState { blocks : list Block; probes : list Z }.

Definition set_blocks (bs : list Block) (st : state) : state :=
  mkState bs (probes st).
Definition note_probe (n : Z) (st : state) : state :=
  mkState (blocks st) (probes st ++ [n]).

Section WithChain.

Variable requestBlock : requested -> reply Block.
(** [estimateBlocksElapsed(seconds, cushion)] of @uma/common (not part of
    these sources). *)
Variable estimateBlocksElapsed : Z -> Q -> Z.
(** [Math.round((part / whole) * distance)] on three integers, as floating
    point computes it (not modelled). *)
Variable roundedShare : Z -> Z -> Z -> Z.

(** [a?.number === n] on a possibly undefined [a]. *)
Definition number_is (a : option Block) (n : Z) : bool :=
  match a with
  | Some b => number b =? n
  | None => false
  end.

(** [getLatestBlock()].  After the splice [blocks[index]] is always there;
    the last case stands for a read on [undefined]. *)
Definition getLatestBlock : M state Block :=
  let* block := await (requestBlock Latest) in
  let* st := get in
  let index := Lodash.sortedIndexBy (blocks st) (number block) number in
  (if number_is (blocks st !! index) (number block) then ret tt
   else modify (set_blocks (splice_insert (blocks st) index block))) ;;
  let* st' := get in
  match blocks st' !! index with
  | Some b => ret b
  | None => throw TypeError
  end.

Definition getBlock (n : Z) : M state Block :=
  modify (note_probe n) ;;
  let* st := get in
  let index := Lodash.sortedIndexBy (blocks st) n number in
  match blocks st !! index with
  | Some b =>
      if number b =? n then ret b
      else
        let* block := await (requestBlock (Number n)) in
        modify (set_blocks (splice_insert (blocks st) index block)) ;;
        ret block
  | None =>
      let* block := await (requestBlock (Number n)) in
      modify (set_blocks (splice_insert (blocks st) index block)) ;;
      ret block
  end.

(** The block number [findBlock] fetches for a bracket: the interpolated
    estimate, clamped.  [blockPercentile] and its product with
    [totalBlockDistance] are floating-point numbers: [roundedShare] stands
    for [Math.round(((timestamp - startBlock.timestamp) / totalTimeDifference)
    * totalBlockDistance)]. *)
Definition estimatedBlock (startBlock endBlock : Block) (ts : Z) : Z :=
  let totalTimeDifference := timestamp endBlock - timestamp startBlock in
  let totalBlockDistance := number endBlock - number startBlock in
  number startBlock
  + roundedShare (ts - timestamp startBlock) totalTimeDifference totalBlockDistance.

Definition probedBlock (startBlock endBlock : Block) (ts : Z) : Z :=
  Lodash.clamp (estimatedBlock startBlock endBlock ts)
               (number startBlock + 1) (number endBlock - 1).

(** [findBlock]; one unit of fuel per call. *)
Fixpoint findBlock (fuel : nat) (_startBlock _endBlock : option Block) (ts : Z)
    : M state Block :=
  match fuel with
  | O => call OutOfFuel
  | S fuel' =>
      match _endBlock with
      | None => throw TypeError
      | Some endBlock =>
          if timestamp endBlock =? ts then ret endBlock
          else
            match _startBlock with
            | None => throw TypeError
            | Some startBlock =>
                if number endBlock =? number startBlock + 1 then ret startBlock
                else
                  assert (negb (number endBlock =? number startBlock))
                         "startBlock cannot equal endBlock" ;;
                  assert ((ts <? timestamp endBlock) && (timestamp startBlock <? ts))
                         "timestamp not in between start and end blocks" ;;
                  let* newBlock := getBlock (probedBlock startBlock endBlock ts) in
                  if timestamp newBlock <? ts
                  then findBlock fuel' (Some newBlock) (Some endBlock) ts
                  else findBlock fuel' (Some startBlock) (Some newBlock) ts
            end
      end
  end.

Definition cushion : Q := Qmake 11 10.

(** The loop [for (let multiplier = 1; ; multiplier++)] of
    [getBlockForTimestamp], entered at [multiplier]; one unit of fuel per
    iteration. *)
Fixpoint searchBackwards (fuel : nat) (initialBlock : Block) (incrementDistance ts : Z)
    (multiplier : Z) : M state unit :=
  match fuel with
  | O => call OutOfFuel
  | S fuel' =>
      let distance := multiplier * incrementDistance in
      let blockNumber := Z.max 0 (number initialBlock - distance) in
      let* block := getBlock blockNumber in
      if timestamp block <=? ts then ret tt
      else
        assert (0 <? blockNumber) "timestamp is before block 0" ;;
        searchBackwards fuel' initialBlock incrementDistance ts (multiplier + 1)
  end.

Definition incrementDistanceFor (initialBlock : Block) (ts : Z) : Z :=
  Z.max (estimateBlocksElapsed (timestamp initialBlock - ts) cushion) 1.

Definition getBlockForTimestamp (fuel : nat) (ts : Z) : M state Block :=
  let* st := get in
  let* early :=
    (if (length (blocks st) =? 0)%nat
        || match latest_of (blocks st) with
           | Some b => timestamp b <? ts
           | None => false
           end
     then
       let* block := getLatestBlock in
       if timestamp block <=? ts then ret (Some block) else ret None
     else ret None) in
  match early with
  | Some block => ret block
  | None =>
      let* st := get in
      match blocks st !! 0%nat with
      | None => throw TypeError
      | Some initialBlock =>
          (if ts <? timestamp initialBlock then
             searchBackwards fuel initialBlock (incrementDistanceFor initialBlock ts) ts 1
           else ret tt) ;;
          let* st := get in
          let index := Lodash.sortedIndexBy (blocks st) ts timestamp in
          findBlock fuel (js_index (blocks st) (Z.of_nat index - 1))
                    (js_index (blocks st) (Z.of_nat index)) ts
      end
  end.

(** *** Vocabulary of the statements about BlockFinder *)

(** The ledger client answers a request for block [n] with a block whose
    number is [n]. *)
Definition answers_by_number : Prop :=
  forall n b, requestBlock (Number n) = Reply b -> number b = n.

(** The three ways [getBlock] can go: a cached block, a fetched block that
    is cached, a rejection. *)
Inductive getBlock_outcome (n : Z) (st : state) : state * result Block -> Prop :=
| gb_cached index b :
    blocks st !! index = Some b -> number b = n ->
    getBlock_outcome n st (note_probe n st, Ok b)
| gb_fetched index b :
    requestBlock (Number n) = Reply b ->
    getBlock_outcome n st
      (mkState (splice_insert (blocks st) index b) (probes st ++ [n]), Ok b)
| gb_failed e :
    requestBlock (Number n) = Fail e ->
    getBlock_outcome n st (note_probe n st, Throw e).

(** How a search ends when it ends well: with a block not later than the
    query, or with the rejection of a request by the ledger client. *)
Definition search_ended (ts : Z) (r : result Block) : Prop :=
  match r with
  | Ok b => timestamp b <= ts
  | Throw e => exists n, requestBlock (Number n) = Fail e
  | Exit _ | OutOfFuel => False
  end.

(** The cache holds no two blocks of one number and is in order of number;
    each cached block is what the ledger client answers for its number. *)
Definition strictly_numbered (cache : list Block) : Prop :=
  StronglySorted (fun a b => number a < number b) cache.

Definition from_ledger (cache : list Block) : Prop :=
  Forall (fun b => requestBlock (Number (number b)) = Reply b) cache.

Definition cache_ok (cache : list Block) : Prop :=
  strictly_numbered cache /\ from_ledger cache.

(** The block numbers of the cache lie within [[lo, hi]]. *)
Definition within (lo hi : Z) (cache : list Block) : Prop :=
  Forall (fun b => lo <= number b <= hi) cache.

(** Timestamps do not decrease with the number along the ledger, and the
    latest block is the block of its number. *)
Definition ledger_monotone : Prop :=
  forall m n b c,
    m <= n -> requestBlock (Number m) = Reply b -> requestBlock (Number n) = Reply c ->
    timestamp b <= timestamp c.

Definition latest_on_ledger : Prop :=
  forall b, requestBlock Latest = Reply b -> requestBlock (Number (number b)) = Reply b.

(** What a query for [ts] may end with, [cache] being the cache it leaves: a
    cached block not later than [ts] that has the timestamp [ts], or is
    followed on the ledger by a cached block later than [ts], or is the
    latest block; or the rejection of a request; or the assertion that [ts]
    is before block 0. *)
Definition answer_ok (ts : Z) (cache : list Block) (r : result Block) : Prop :=
  match r with
  | Ok b =>
      b ∈ cache /\ timestamp b <= ts
      /\ (timestamp b = ts
          \/ (exists next, next ∈ cache /\ number next = number b + 1 /\ ts < timestamp next)
          \/ requestBlock Latest = Reply b)
  | Throw e =>
      (exists q, requestBlock q = Fail e)
      \/ e = AssertionError "timestamp is before block 0"
  | Exit _ | OutOfFuel => False
  end.

End WithChain.
End BlockFinder.

(** ** computeTWAP *)
Module Twap.

Definition MAX_SAFE_JS_INT : Z := 2147483647.

(** [[timestamp, price]], the price possibly [null]. *)
Definition TwapEvent : Type := Z * option Z.

Record vars : Type := mkVars {
  lastPrice : option Z;
  lastTime : option Z;
  priceSum : Z;
  timeSum : Z
}.

(** [lastTime && lastPrice]: [null] and the number 0 are falsy, a [BN]
    object is truthy whatever its value. *)
Definition both_truthy (v : vars) : option (Z * Z) :=
  match lastTime v, lastPrice v with
  | Some t, Some p => if t =? 0 then None else Some (t, p)
  | _, _ => None
  end.

(** [bn.muln(num)] and [bn.divn(num)] of bn.js, the library behind [BN],
    for a number that is not negative: both assert the number to be below
    2^26 ([num < 0x4000000], [num <= 0x3ffffff]) and throw
    [Error("Assertion failed")] when it is not; [divn] truncates. *)
Definition muln (bn num : Z) : result Z :=
  if num <? 67108864 then Ok (bn * num) else Throw (JsError "Assertion failed").

Definition divn (bn num : Z) : result Z :=
  if num <=? 67108863 then Ok (Z.quot bn num) else Throw (JsError "Assertion failed").

(** The body of the loop up to the test for [break], on the variables
    [lastPrice], [lastTime], [priceSum] and [timeSum]. *)
Definition accumulate (startTime endTime : Z) (event : TwapEvent) : M vars unit :=
  let* v := get in
  match both_truthy v with
  | Some (t, p) =>
      let startWindow := Z.max t startTime in
      let endWindow := Z.min (fst event) endTime in
      let windowLength := Z.max (endWindow - startWindow) 0 in
      let* weighted := call (muln p windowLength) in
      modify (fun v => mkVars (lastPrice v) (lastTime v)
                              (priceSum v + weighted) (timeSum v + windowLength))
  | None => ret tt
  end.

Fixpoint loop (startTime endTime : Z) (events : list TwapEvent) : M vars unit :=
  match events with
  | [] => ret tt
  | event :: rest =>
      accumulate startTime endTime event ;;
      if endTime <? fst event then ret tt
      else
        modify (fun v => mkVars (snd event) (Some (fst event)) (priceSum v) (timeSum v)) ;;
        loop startTime endTime rest
  end.

(** [computeTWAP(events, startTime, endTime, startingPriceSum)]: the array
    [events] as the call leaves it, and how the call ends: with a [BN],
    with [null], or with the error of a [BN] operation. *)
Definition computeTWAP (events : list TwapEvent) (startTime endTime startingPriceSum : Z)
    : list TwapEvent * result (option Z) :=
  let events' := events ++ [(MAX_SAFE_JS_INT, None)] in
  (events',
   snd ((loop startTime endTime events' ;;
         let* v := get in
         if timeSum v =? 0 then ret None
         else
           let* average := call (divn (priceSum v) (timeSum v)) in
           ret (Some average))
          (mkVars None None startingPriceSum 0))).

End Twap.

(** ** The liquidator's execution loop (packages/liquidator/index.js) *)
Module Liquidator.

Inductive level : Type := Debug | Info | Error_.

Inductive token : Type := Collateral | Synthetic.

(** The calls the bot makes of what lies outside these sources: the ledger
    client, the contracts, the price feed, and the classes of
    @uma/financial-templates-lib and of the liquidator package, whose
    constructors may throw. *)
Inductive operation : Type :=
| FindContractVersion
| GetAccounts
| GetNetworkId
| Construct (what : string)
| ContractRead (method : string)  (* financialContract.methods.<method>().call() *)
| TokenDecimals (t : token)
| CreatePriceFeed
| GasEstimatorUpdate
| InitializeDSProxy
| SetAllowance (t : token)
| LiquidatorUpdate
| GetEffectiveSyntheticTokenBalance
| LiquidatePositions (currentSyntheticBalance : Z) (liquidatorOverridePrice : option Z)
| WithdrawRewards.

(** What the process does that can be observed from outside, oldest first:
    log entries, the calls above, the timers the retry package sets, and the
    waits. *)
Inductive event : Type :=
| EvLog (lvl : level) (message : string)
| EvCall (op : operation)
| EvTimer (ms : Z)
| EvWaitForLogger
| EvDelay (seconds : Z)
| EvConsoleError.

(** Number of events of [tr] that satisfy [p]. *)
Fixpoint count (p : event -> bool) (tr : list event) : nat :=
  match tr with
  | [] => 0
  | e :: tr' => ((if p e then 1 else 0) + count p tr')%nat
  end.

Definition is_update (e : event) : bool :=
  match e with EvCall LiquidatorUpdate => true | _ => false end.
(** The durations of the timers of a trace, oldest first. *)
Fixpoint timers (tr : list event) : list Z :=
  match tr with
  | [] => []
  | EvTimer ms :: tr' => ms :: timers tr'
  | _ :: tr' => timers tr'
  end.

(** The parameters of [run], as [Poll] reads them from the environment. *)
Record Config : Type := mkConfig {
  (** [process.env.EMP_ADDRESS || process.env.FINANCIAL_CONTRACT_ADDRESS] is set *)
  contractAddressSet : bool;
  pollingDelay : Z;
  errorRetries : nat;
  errorRetriesTimeout : Z;
  liquidatorOverridePrice : option Z;
  (** [liquidatorConfig.contractType] and [.contractVersion], when given *)
  contractType : option string;
  contractVersion : option string;
  (** [proxyTransactionWrapperConfig?.useDsProxyToLiquidate] *)
  useDsProxyToLiquidate : bool
}.

(** What lies outside these sources works on a world [World]; the bot
    calls it through these entries. *)
Record Collaborators (World : Type) : Type := mkCollaborators {
  (** tables of @uma/common and @uma/financial-templates-lib: the supported
      pairs of contract type and version, the name of a public network, and
      whether a network has an entry in [multicallAddressMap] *)
  SUPPORTED_CONTRACT_VERSIONS : list (string * string);
  PublicNetworks : Z -> option string;
  multicallAddressMap : string -> bool;
  (** [detectedContract?.contractType] and [?.contractVersion] *)
  findContractVersion : Ext World (option string * option string);
  getAccounts : Ext World unit;
  getNetworkId : Ext World Z;
  construct : string -> Ext World unit;
  contractRead : string -> Ext World Z;
  tokenDecimals : token -> Ext World Z;
  (** whether a price feed came back, rather than [null] *)
  createReferencePriceFeed : Ext World bool;
  gasEstimator_update : Ext World unit;
  initializeDSProxy : Ext World unit;
  (** whether an approval was sent *)
  setAllowance : token -> Ext World bool;
  liquidator_update : Ext World unit;
  getEffectiveSyntheticTokenBalance : Ext World Z;
  liquidatePositions : Z -> option Z -> Ext World unit;
  withdrawRewards : Ext World unit;
  (** [error.message] of the errors raised out there *)
  error_message : error -> string
}.
Arguments mkCollaborators {World}.
Arguments SUPPORTED_CONTRACT_VERSIONS {World}.
Arguments PublicNetworks {World}.
Arguments multicallAddressMap {World}.
Arguments findContractVersion {World}.
Arguments getAccounts {World}.
Arguments getNetworkId {World}.
Arguments construct {World}.
Arguments contractRead {World}.
Arguments tokenDecimals {World}.
Arguments createReferencePriceFeed {World}.
Arguments gasEstimator_update {World}.
Arguments initializeDSProxy {World}.
Arguments setAllowance {World}.
Arguments liquidator_update {World}.
Arguments getEffectiveSyntheticTokenBalance {World}.
Arguments liquidatePositions {World}.
Arguments withdrawRewards {World}.
Arguments error_message {World}.

Record state (World : Type) : Type := mkState { world : World; trace : list event }.
Arguments mkState {World}.
Arguments world {World}.
Arguments trace {World}.

Section WithCollaborators.
Context {World : Type} (cfg : Config) (env : Collaborators World).

Definition emit (e : event) : M (state World) unit :=
  modify (fun st => mkState (world st) (trace st ++ [e])).

Definition logger (lvl : level) (message : string) : M (state World) unit :=
  emit (EvLog lvl message).

(** A call is made: it is noted in the trace and works on the world; what
    comes back is the promise, here as it will settle.  The calls of one
    [Promise.all] are started in the order of the array, each doing its
    work when it is started, and are awaited after that, so that the first
    rejection in the order of the array is the one thrown. *)
Definition start {A} (op : operation) (c : Ext World A) : M (state World) (reply A) :=
  fun st =>
    let (w, promise) := c (world st) in
    (mkState w (trace st ++ [EvCall op]), Ok promise).

(** [await] of a call. *)
Definition perform {A} (op : operation) (c : Ext World A) : M (state World) A :=
  let* promise := start op c in
  await promise.

(** A string that is not [undefined] and not empty. *)
Definition truthy (s : option string) : bool :=
  match s with
  | Some s => negb (String.eqb s "")
  | None => false
  end.

(** [SUPPORTED_CONTRACT_VERSIONS.filter(vo => vo.contractType == type &&
    vo.contractVersion == version).length == 0], negated. *)
Definition supported (type version : option string) : bool :=
  match type, version with
  | Some t, Some v =>
      existsb (fun vo => String.eqb (fst vo) t && String.eqb (snd vo) v)
              (SUPPORTED_CONTRACT_VERSIONS env)
  | _, _ => false
  end.

(** [run] from its first line to the execution loop; it gives the contract
    type the bot works with.  The text of the first error ends with the
    configuration, which is left out. *)
Definition startUp : M (state World) (option string) :=
  logger (if pollingDelay cfg =? 0 then Debug else Info) "Liquidator started" ;;
  let* detecting := start FindContractVersion (findContractVersion env) in
  let* gettingAccounts := start GetAccounts (getAccounts env) in
  let* gettingId := start GetNetworkId (getNetworkId env) in
  let* detectedContract := await detecting in
  await gettingAccounts ;;
  let* networkId := await gettingId in
  let networkName := PublicNetworks env networkId in
  let version :=
    if truthy (contractVersion cfg) then contractVersion cfg else snd detectedContract in
  let type := if truthy (contractType cfg) then contractType cfg else fst detectedContract in
  (if supported type version then ret tt
   else throw (JsError "Contract version specified or inferred is not supported by this bot")) ;;
  perform (Construct "financialContract") (construct env "financialContract") ;;
  let* r1 := start (ContractRead "collateralRequirement")
                   (contractRead env "collateralRequirement") in
  let* r2 := start (ContractRead "priceIdentifier") (contractRead env "priceIdentifier") in
  let* r3 := start (ContractRead "minSponsorTokens") (contractRead env "minSponsorTokens") in
  let* r4 := start (ContractRead "collateralCurrency")
                   (contractRead env "collateralCurrency") in
  let* r5 := start (ContractRead "tokenCurrency") (contractRead env "tokenCurrency") in
  let* r6 := start (ContractRead "withdrawalLiveness")
                   (contractRead env "withdrawalLiveness") in
  await r1 ;; await r2 ;; await r3 ;; await r4 ;; await r5 ;; await r6 ;;
  perform (Construct "collateralToken") (construct env "collateralToken") ;;
  perform (Construct "syntheticToken") (construct env "syntheticToken") ;;
  let* d1 := start (TokenDecimals Collateral) (tokenDecimals env Collateral) in
  let* d2 := start (TokenDecimals Synthetic) (tokenDecimals env Synthetic) in
  await d1 ;; await d2 ;;
  let* priceFeed := perform CreatePriceFeed (createReferencePriceFeed env) in
  (if priceFeed then ret tt else throw (JsError "Price feed config is invalid")) ;;
  (match networkName with
   | Some name => if multicallAddressMap env name then ret tt else throw TypeError
   | None => ret tt
   end) ;;
  perform (Construct "FinancialContractClient") (construct env "FinancialContractClient") ;;
  perform (Construct "GasEstimator") (construct env "GasEstimator") ;;
  perform GasEstimatorUpdate (gasEstimator_update env) ;;
  (if useDsProxyToLiquidate cfg then
     perform (Construct "DSProxyManager") (construct env "DSProxyManager") ;;
     perform InitializeDSProxy (initializeDSProxy env)
   else ret tt) ;;
  perform (Construct "ProxyTransactionWrapper") (construct env "ProxyTransactionWrapper") ;;
  perform (Construct "Liquidator") (construct env "Liquidator") ;;
  logger Debug "Liquidator initialized" ;;
  (if negb (useDsProxyToLiquidate cfg) then
     let* collateralApproval := perform (SetAllowance Collateral) (setAllowance env Collateral) in
     let* syntheticApproval := perform (SetAllowance Synthetic) (setAllowance env Synthetic) in
     (if collateralApproval
      then logger Info "Approved Financial Contract to transfer unlimited collateral tokens"
      else ret tt) ;;
     (if syntheticApproval
      then logger Info "Approved Financial Contract to transfer unlimited synthetic tokens"
      else ret tt)
   else ret tt) ;;
  ret type.

Definition isExpiringMultiParty (type : option string) : bool :=
  match type with
  | Some t => String.eqb t "ExpiringMultiParty"
  | None => false
  end.

Definition expirationMethod (type : option string) : string :=
  if isExpiringMultiParty type then "expirationTimestamp" else "emergencyShutdownTimestamp".

Definition expiredMessage (type : option string) : string :=
  if isExpiringMultiParty type
  then "Financial Contract is expired, can only withdraw liquidator dispute rewards"
  else "Financial Contract is shutdown, can only withdraw liquidator dispute rewards".

(** [checkIsExpiredOrShutdownPromise()]. *)
Definition checkIsExpiredOrShutdownPromise (type : option string) : M (state World) bool :=
  let* readingExpiration :=
    start (ContractRead (expirationMethod type)) (contractRead env (expirationMethod type)) in
  let* readingTime := start (ContractRead "getCurrentTime") (contractRead env "getCurrentTime") in
  let* expirationOrShutdownTimestamp := await readingExpiration in
  let* contractTimestamp := await readingTime in
  if (expirationOrShutdownTimestamp <=? contractTimestamp)
     && (0 <? expirationOrShutdownTimestamp)
  then logger Info (expiredMessage type) ;; ret true
  else ret false.

(** The async-retry package and the retry package under it are not part of
    these sources; what follows is their code for the options the bot
    gives: [retries], [minTimeout], [randomize: false] and [onRetry], the
    others at their defaults ([factor: 2], [maxTimeout: Infinity]), and for
    errors without a [bail] property.

    [retry.timeouts(options)]: the delay before retry [i + 1] is
    [Math.round(Math.max(minTimeout, 1) * Math.pow(factor, i))]; the array
    is then sorted in ascending order, which it is already.  (Before
    version 0.13 of the package [minTimeout] was taken as it is; that
    differs for a [minTimeout] below one millisecond only.) *)
Definition timeouts (retries : nat) (minTimeout : Z) : list Z :=
  map (fun i : nat => Z.max minTimeout 1 * 2 ^ Z.of_nat i) (seq 0 retries).

(** [op.mainError()]: of the errors met, the one whose message was met
    most often, the latest one among equals. *)
Definition occurrences (message : string) (errors : list error) : nat :=
  length (filter (fun e => String.eqb (error_message env e) message) errors).

Fixpoint mainErrorFrom (seen rest : list error) (main : error) (mainCount : nat) : error :=
  match rest with
  | [] => main
  | e :: rest' =>
      let n := S (occurrences (error_message env e) seen) in
      if (mainCount <=? n)%nat then mainErrorFrom (seen ++ [e]) rest' e n
      else mainErrorFrom (seen ++ [e]) rest' main mainCount
  end.

(** The main error of [errors] followed by [err]. *)
Definition mainError (errors : list error) (err : error) : error :=
  match errors with
  | [] => err
  | first :: others => mainErrorFrom [first] (others ++ [err]) first 1
  end.

(** The attempts of [retry(fn, options)] from the attempt numbered [num]
    on: [fn] is called; when it throws, [op.retry(err)] notes the error and,
    if a timeout is left, sets the timer of the next attempt, after which
    [onRetry] is called; with no timeout left the main error is thrown.
    [errors] are the errors of the attempts before, oldest first. *)
Fixpoint attempts {A} (remaining : list Z) (errors : list error) (num : nat)
    (onRetry : error -> nat -> M (state World) unit) (fn : M (state World) A)
    : M (state World) A :=
  try_catch fn
    (fun err =>
       match remaining with
       | [] => throw (mainError errors err)
       | timeout :: remaining' =>
           emit (EvTimer timeout) ;;
           onRetry err num ;;
           attempts remaining' (errors ++ [err]) (S num) onRetry fn
       end).

Definition retry {A} (retries : nat) (minTimeout : Z)
    (onRetry : error -> nat -> M (state World) unit) (fn : M (state World) A)
    : M (state World) A :=
  attempts (timeouts retries minTimeout) [] 1 onRetry fn.

(** The function handed to [retry]. *)
Definition cycleBody (isExpiredOrShutdown : bool) : M (state World) unit :=
  perform LiquidatorUpdate (liquidator_update env) ;;
  (if negb isExpiredOrShutdown then
     let* currentSyntheticBalance :=
       perform GetEffectiveSyntheticTokenBalance (getEffectiveSyntheticTokenBalance env) in
     perform (LiquidatePositions currentSyntheticBalance (liquidatorOverridePrice cfg))
             (liquidatePositions env currentSyntheticBalance (liquidatorOverridePrice cfg))
   else ret tt) ;;
  perform WithdrawRewards (withdrawRewards env).

Definition onRetry (err : error) (num : nat) : M (state World) unit :=
  logger Debug "An error was thrown in the execution loop - retrying".

Definition cycle (isExpiredOrShutdown : bool) : M (state World) unit :=
  retry (errorRetries cfg) (errorRetriesTimeout cfg * 1000) onRetry
        (cycleBody isExpiredOrShutdown).

(** [for (;;) { ... }]; one unit of fuel per iteration. *)
Fixpoint executionLoop (fuel : nat) (type : option string) : M (state World) unit :=
  match fuel with
  | O => call OutOfFuel
  | S fuel' =>
      let* isExpiredOrShutdown := checkIsExpiredOrShutdownPromise type in
      cycle isExpiredOrShutdown ;;
      if pollingDelay cfg =? 0 then
        logger Debug "End of serverless execution loop - terminating process" ;;
        emit EvWaitForLogger ;;
        emit (EvDelay 2) ;;
        ret tt
      else
        logger Debug "End of execution loop - waiting polling delay" ;;
        emit (EvDelay (pollingDelay cfg)) ;;
        executionLoop fuel' type
  end.

Definition run (fuel : nat) : M (state World) unit :=
  try_catch
    (let* type := startUp in
     executionLoop fuel type)
    (fun e => throw e).

Definition Poll (fuel : nat) (callback : option error -> M (state World) unit) : M (state World) unit :=
  try_catch
    ((if contractAddressSet cfg then ret tt
      else throw (JsError "Bad environment variables! Specify an EMP_ADDRESS or FINANCIAL_CONTRACT_ADDRESS for the location of the financial contract the bot is expected to interact with.")) ;;
     run fuel)
    (fun e =>
       logger Error_ "Liquidator execution error" ;;
       emit EvWaitForLogger ;;
       callback (Some e)) ;;
  callback None.

Definition nodeCallback (err : option error) : M (state World) unit :=
  match err with
  | Some _ => emit EvConsoleError ;; call (Exit 1)
  | None => call (Exit 0)
  end.

(** [Poll(nodeCallback).then(() => {}).catch(nodeCallback)]. *)
Definition main (fuel : nat) : M (state World) unit :=
  try_catch (Poll fuel nodeCallback) (fun e => nodeCallback (Some e)).

(** *** Vocabulary of the statements about the loop *)

(** A call that is answered: in the world [w] it answers [a] and leaves the
    world [w']. *)
Definition answers {A} (c : Ext World A) (w : World) (a : A) (w' : World) : Prop :=
  c w = (w', Reply a).

(** One pass of the loop in which every call is answered: the contract is
    asked for its expiration (or shutdown) time and for its current time;
    the liquidator is updated; unless the contract is expired or shut down,
    the synthetic balance is read and the positions are liquidated up to
    it, at the override price if there is one; the rewards are withdrawn.
    [tr] is what the pass adds to the trace, [w'] the world it leaves. *)
Inductive onePass (type : option string) (w : World) : list event -> World -> Prop :=
| pass_live w1 w2 w3 w4 w5 expiration now balance :
    answers (contractRead env (expirationMethod type)) w expiration w1 ->
    answers (contractRead env "getCurrentTime") w1 now w2 ->
    (expiration <=? now) && (0 <? expiration) = false ->
    answers (liquidator_update env) w2 tt w3 ->
    answers (getEffectiveSyntheticTokenBalance env) w3 balance w4 ->
    answers (liquidatePositions env balance (liquidatorOverridePrice cfg)) w4 tt w5 ->
    forall w', answers (withdrawRewards env) w5 tt w' ->
    onePass type w
      [EvCall (ContractRead (expirationMethod type)); EvCall (ContractRead "getCurrentTime");
       EvCall LiquidatorUpdate; EvCall GetEffectiveSyntheticTokenBalance;
       EvCall (LiquidatePositions balance (liquidatorOverridePrice cfg));
       EvCall WithdrawRewards]
      w'
| pass_expired w1 w2 w3 expiration now :
    answers (contractRead env (expirationMethod type)) w expiration w1 ->
    answers (contractRead env "getCurrentTime") w1 now w2 ->
    (expiration <=? now) && (0 <? expiration) = true ->
    answers (liquidator_update env) w2 tt w3 ->
    forall w', answers (withdrawRewards env) w3 tt w' ->
    onePass type w
      [EvCall (ContractRead (expirationMethod type)); EvCall (ContractRead "getCurrentTime");
       EvLog Info (expiredMessage type);
       EvCall LiquidatorUpdate; EvCall WithdrawRewards]
      w'.

(** [n] such passes in polling mode, each followed by its log entry and by
    the wait of [pollingDelay] seconds. *)
Inductive passes (type : option string) : nat -> World -> list event -> World -> Prop :=
| passes_none w : passes type 0 w [] w
| passes_more n w tr1 w1 tr w' :
    onePass type w tr1 w1 ->
    passes type n w1 tr w' ->
    passes type (S n) w
      (tr1 ++ [EvLog Debug "End of execution loop - waiting polling delay";
               EvDelay (pollingDelay cfg)] ++ tr)
      w'.

End WithCollaborators.

End Liquidator.

(** ** The proposer of the optimistic-oracle bot
       (packages/optimistic-oracle/src/proposer.js) *)
Module Proposer.

Record PriceRequest : Type := mkRequest {
  requester : string;
  identifier : string;
  request_timestamp : Z;
  ancillaryData : string;
  proposedPrice : Z;
  currency : string
}.

Inductive level : Type := Debug | Info | Error_.

Record LogEntry : Type := mkLog {
  log_level : level;
  log_at : string;
  log_message : string;
  log_request : option PriceRequest
}.

(** The calls of the oracle contract the bot builds. *)
Inductive Transaction : Type :=
| ProposePrice (requester identifier : string) (ts : Z) (ancillaryData : string) (price : Z)
| DisputePrice (requester identifier : string) (ts : Z) (ancillaryData : string).

(** The clients of the bot: they work on a world [World]; [Feed] is a price
    feed object, [Receipt] what [runTransaction] resolves to. *)
Record Collaborators (World Feed Receipt : Type) : Type := mkCollaborators {
  (** constants of @uma/common (not part of these sources) *)
  OPTIMISTIC_ORACLE_IGNORE : list string;
  OPTIMISTIC_ORACLE_IGNORE_POST_EXPIRY : list string;
  getUnproposedPriceRequests : World -> list PriceRequest;
  getUndisputedProposals : World -> list PriceRequest;
  (** [createEmpContract(requester).methods.expirationTimestamp().call()] *)
  expirationTimestamp : string -> Ext World Z;
  (** [createReferencePriceFeedForFinancialContract(...)]: a feed or [null] *)
  createReferencePriceFeed : string -> Ext World (option Feed);
  feed_update : Feed -> Ext World unit;
  getHistoricalPrice : Feed -> Z -> Ext World Z;
  runTransaction : Transaction -> Ext World Receipt;
  (** [isDeviationOutsideErrorMargin(observed, expected, 1e18, margin)] of
      @uma/financial-templates-lib (not part of these sources), at the
      configured [disputePriceErrorPercent] *)
  isDeviationOutsideErrorMargin : Z -> Z -> bool
}.
Arguments mkCollaborators {World Feed Receipt}.
Arguments OPTIMISTIC_ORACLE_IGNORE {World Feed Receipt}.
Arguments OPTIMISTIC_ORACLE_IGNORE_POST_EXPIRY {World Feed Receipt}.
Arguments getUnproposedPriceRequests {World Feed Receipt}.
Arguments getUndisputedProposals {World Feed Receipt}.
Arguments expirationTimestamp {World Feed Receipt}.
Arguments createReferencePriceFeed {World Feed Receipt}.
Arguments feed_update {World Feed Receipt}.
Arguments getHistoricalPrice {World Feed Receipt}.
Arguments runTransaction {World Feed Receipt}.
Arguments isDeviationOutsideErrorMargin {World Feed Receipt}.

(** [logs]: what was handed to the logger (the messages without their
    emoji); [priceFeedCache]: the field of that name; [submitted]: the
    transactions handed to [runTransaction]. *)
Record state (World Feed : Type) : Type := mkState {
  world : World;
  logs : list LogEntry;
  priceFeedCache : gmap string Feed;
  submitted : list Transaction
}.
Arguments mkState {World Feed}.
Arguments world {World Feed}.
Arguments logs {World Feed}.
Arguments priceFeedCache {World Feed}.
Arguments submitted {World Feed}.

Section WithCollaborators.
Context {World Feed Receipt : Type} (env : Collaborators World Feed Receipt).

Definition logger (lvl : level) (at_ message : string) (r : option PriceRequest)
    : M (state World Feed) unit :=
  modify (fun st => mkState (world st) (logs st ++ [mkLog lvl at_ message r])
                            (priceFeedCache st) (submitted st)).

Definition ask {A} (c : Ext World A) : M (state World Feed) A :=
  fun st =>
    let (w, r) := c (world st) in
    (mkState w (logs st) (priceFeedCache st) (submitted st), result_of r).

Definition includes (l : list string) (x : string) : bool :=
  existsb (String.eqb x) l.

Definition _shouldIgnorePriceRequest (priceRequest : PriceRequest) : M (state World Feed) bool :=
  if includes (OPTIMISTIC_ORACLE_IGNORE env) (identifier priceRequest) then
    logger Debug "OptimisticOracleProposer#Proposer" "Identifier is blacklisted" None ;;
    ret true
  else if includes (OPTIMISTIC_ORACLE_IGNORE_POST_EXPIRY env) (identifier priceRequest) then
    try_catch
      (let* expiration := ask (expirationTimestamp env (requester priceRequest)) in
       if expiration <=? request_timestamp priceRequest then
         logger Debug "OptimisticOracleProposer#Proposer"
                "EMP contract has expired and identifier's price resolution logic transforms post-expiry"
                None ;;
         ret true
       else ret false)
      (fun _ => ret false)
  else ret false.

Definition _createOrGetCachedPriceFeed (id : string) : M (state World Feed) (option Feed) :=
  let* st := get in
  match priceFeedCache st !! id with
  | Some priceFeed => ret (Some priceFeed)
  | None =>
      logger Debug "OptimisticOracleProposer"
             "Created pricefeed configuration for identifier" None ;;
      let* newPriceFeed := ask (createReferencePriceFeed env id) in
      match newPriceFeed with
      | Some feed =>
          modify (fun st => mkState (world st) (logs st)
                                    (<[id := feed]> (priceFeedCache st)) (submitted st)) ;;
          ret (Some feed)
      | None => ret None
      end
  end.

(** [runTransaction({web3, transaction, transactionConfig})], noting what
    was handed over. *)
Definition submit (tx : Transaction) : M (state World Feed) Receipt :=
  modify (fun st => mkState (world st) (logs st) (priceFeedCache st)
                            (submitted st ++ [tx])) ;;
  ask (runTransaction env tx).

Definition is_call_error (e : error) : bool :=
  match e with
  | Rejected ty => String.eqb ty "call"
  | _ => false
  end.

Definition _sendProposal (priceRequest : PriceRequest) : M (state World Feed) unit :=
  let* priceFeed := _createOrGetCachedPriceFeed (identifier priceRequest) in
  match priceFeed with
  | None =>
      logger Error_ "OptimisticOracleProposer#sendProposals"
             "Failed to construct a PriceFeed for price request" (Some priceRequest)
  | Some priceFeed =>
      ask (feed_update env priceFeed) ;;
      let* lookup :=
        try_catch
          (let* price := ask (getHistoricalPrice env priceFeed (request_timestamp priceRequest)) in
           ret (Some price))
          (fun error =>
             logger Error_ "OptimisticOracleProposer#sendProposals"
                    "Failed to query historical price for price request"
                    (Some priceRequest) ;;
             ret None) in
      match lookup with
      | None => ret tt
      | Some proposalPrice =>
          let proposal :=
            ProposePrice (requester priceRequest) (identifier priceRequest)
                         (request_timestamp priceRequest) (ancillaryData priceRequest)
                         proposalPrice in
          logger Debug "OptimisticOracleProposer#sendProposals"
                 "Detected price request, and proposing new price" (Some priceRequest) ;;
          try_catch
            (submit proposal ;;
             logger Info "OptimisticOracleProposer#sendProposals" "Proposed price!"
                    (Some priceRequest))
            (fun error =>
               logger Error_ "OptimisticOracleProposer#sendProposals"
                      (if is_call_error error
                       then "Cannot propose price: not enough collateral (or large enough approval)"
                       else "Failed to propose price")
                      (Some priceRequest))
      end
  end.

Definition _sendDispute (priceRequest : PriceRequest) : M (state World Feed) unit :=
  let proposalPrice := proposedPrice priceRequest in
  let* priceFeed := _createOrGetCachedPriceFeed (identifier priceRequest) in
  match priceFeed with
  | None =>
      logger Error_ "OptimisticOracleProposer#sendDisputes"
             "Failed to construct a PriceFeed for price request" (Some priceRequest)
  | Some priceFeed =>
      ask (feed_update env priceFeed) ;;
      let* lookup :=
        try_catch
          (let* price := ask (getHistoricalPrice env priceFeed (request_timestamp priceRequest)) in
           ret (Some price))
          (fun error =>
             logger Error_ "OptimisticOracleProposer#sendDisputes"
                    "Failed to query historical price for price request"
                    (Some priceRequest) ;;
             ret None) in
      match lookup with
      | None => ret tt
      | Some disputePrice =>
          if isDeviationOutsideErrorMargin env proposalPrice disputePrice then
            let dispute :=
              DisputePrice (requester priceRequest) (identifier priceRequest)
                           (request_timestamp priceRequest) (ancillaryData priceRequest) in
            logger Debug "OptimisticOracleProposer#sendDisputes" "Disputing proposal"
                   (Some priceRequest) ;;
            try_catch
              (submit dispute ;;
               logger Info "OptimisticOracleProposer#sendDisputes" "Disputed proposal!"
                      (Some priceRequest))
              (fun error =>
                 logger Error_ "OptimisticOracleProposer#sendDisputes"
                        (if is_call_error error
                         then "Cannot dispute price: not enough collateral (or large enough approval)"
                         else "Failed to dispute proposal")
                        (Some priceRequest))
          else
            logger Debug "OptimisticOracleProposer#sendDisputes"
                   "Skipping dispute because proposal price is within allowed margin of error"
                   (Some priceRequest)
      end
  end.

(** [for (let priceRequest of requests) { if (await _shouldIgnore...) continue; await send(priceRequest); }] *)
Fixpoint forRequests (send : PriceRequest -> M (state World Feed) unit) (requests : list PriceRequest)
    : M (state World Feed) unit :=
  match requests with
  | [] => ret tt
  | priceRequest :: rest =>
      let* ignore := _shouldIgnorePriceRequest priceRequest in
      (if ignore then ret tt else send priceRequest) ;;
      forRequests send rest
  end.

Definition sendProposals : M (state World Feed) unit :=
  logger Debug "OptimisticOracleProposer#sendProposals"
         "Checking for unproposed price requests to send proposals for" None ;;
  let* st := get in
  forRequests _sendProposal (getUnproposedPriceRequests env (world st)).

Definition sendDisputes : M (state World Feed) unit :=
  logger Debug "OptimisticOracleProposer#sendDisputes"
         "Checking for undisputed price requests to dispute" None ;;
  let* st := get in
  forRequests _sendDispute (getUndisputedProposals env (world st)).

(** *** Vocabulary of the statements about the proposer *)

(** The historical price of [priceRequest] cannot be had in [st]: the feed
    of its identifier is there (cached or built) and updates, and the
    lookup at the timestamp of the request throws. *)
Definition priceUnavailable (priceRequest : PriceRequest) (st : state World Feed) : Prop :=
  exists (feed : Feed) (st1 st2 st3 : state World Feed) (e : error),
    _createOrGetCachedPriceFeed (identifier priceRequest) st = (st1, Ok (Some feed))
    /\ ask (feed_update env feed) st1 = (st2, Ok tt)
    /\ ask (getHistoricalPrice env feed (request_timestamp priceRequest)) st2
       = (st3, Throw e).

(** The log entry written for such a request. *)
Definition priceFailureLog (at_ : string) (priceRequest : PriceRequest) : LogEntry :=
  mkLog Error_ at_ "Failed to query historical price for price request" (Some priceRequest).

(** The historical price of [priceRequest] is [price] in [st]: the feed of
    its identifier is there (cached or built) and updates, and the lookup at
    the timestamp of the request gives [price], leaving the state [st3]. *)
Definition priceAvailable (priceRequest : PriceRequest) (st st3 : state World Feed)
    (price : Z) : Prop :=
  exists (feed : Feed) (st1 st2 : state World Feed),
    _createOrGetCachedPriceFeed (identifier priceRequest) st = (st1, Ok (Some feed))
    /\ ask (feed_update env feed) st1 = (st2, Ok tt)
    /\ ask (getHistoricalPrice env feed (request_timestamp priceRequest)) st2
       = (st3, Ok price).

(** The transactions built for a request. *)
Definition proposalOf (priceRequest : PriceRequest) (price : Z) : Transaction :=
  ProposePrice (requester priceRequest) (identifier priceRequest)
               (request_timestamp priceRequest) (ancillaryData priceRequest) price.

Definition disputeOf (priceRequest : PriceRequest) : Transaction :=
  DisputePrice (requester priceRequest) (identifier priceRequest)
               (request_timestamp priceRequest) (ancillaryData priceRequest).

(** The log entry that ends the sending of a transaction: [done] on a
    receipt, [noFunds] on an error of type "call", [failed] on another. *)
Definition outcomeLog (at_ done noFunds failed : string) (priceRequest : PriceRequest)
    (r : reply Receipt) : LogEntry :=
  match r with
  | Reply _ => mkLog Info at_ done (Some priceRequest)
  | Fail e =>
      mkLog Error_ at_ (if is_call_error e then noFunds else failed) (Some priceRequest)
  end.

(** An identifier is on the blacklist, or on the post-expiry list with the
    contract of the requester expired at the timestamp of the request. *)
Definition blacklisted (priceRequest : PriceRequest) : Prop :=
  includes (OPTIMISTIC_ORACLE_IGNORE env) (identifier priceRequest) = true.

Definition expiredPostExpiry (priceRequest : PriceRequest) (w : World) : Prop :=
  includes (OPTIMISTIC_ORACLE_IGNORE_POST_EXPIRY env) (identifier priceRequest) = true
  /\ exists expiration,
       snd (expirationTimestamp env (requester priceRequest) w) = Reply expiration
       /\ expiration <= request_timestamp priceRequest.

End WithCollaborators.
End Proposer.

(** ** Vocabulary of the statements *)

(** Non-decreasing order of an array under a numeric key. *)
Definition sorted_by {A} (key : A -> Z) (l : list A) : Prop :=
  StronglySorted (fun x y => key x <= key y) l.

(** [r] splits [l] into the keys below [v] and the keys from [v] on. *)
Definition lower_bound {A} (key : A -> Z) (l : list A) (v : Z) (r : nat) : Prop :=
  (r <= length l)%nat /\
  (forall j x, l !! j = Some x -> (j < r)%nat -> key x < v) /\
  (forall j x, l !! j = Some x -> (r <= j)%nat -> v <= key x).

(** The time the samples of [events] are in force inside
    [[startTime, endTime]]: a sample is in force from its timestamp to the
    timestamp of the next event, the sentinel closing the last window. *)
Fixpoint windowsFrom (prev : Z) (later : list Twap.TwapEvent) (startTime endTime : Z) : Z :=
  match later with
  | [] => 0
  | event :: rest =>
      Z.max (Z.min (fst event) endTime - Z.max prev startTime) 0
      + windowsFrom (fst event) rest startTime endTime
  end.

Definition overlapDuration (events : list Twap.TwapEvent) (startTime endTime : Z) : Z :=
  match events ++ [(Twap.MAX_SAFE_JS_INT, None)] with
  | [] => 0
  | event :: rest => windowsFrom (fst event) rest startTime endTime
  end.

(** The time-weighted sums the samples define: the sample [(prev, price)] is
    in force until the next event, a sample without a price counts for
    nothing; the first component is the sum of price times overlap, the
    second the sum of the overlaps. *)
Fixpoint weightedSumsFrom (prev : Z) (price : option Z) (later : list Twap.TwapEvent)
    (startTime endTime : Z) : Z * Z :=
  match later with
  | [] => (0, 0)
  | event :: rest =>
      let w := Z.max (Z.min (fst event) endTime - Z.max prev startTime) 0 in
      let sums := weightedSumsFrom (fst event) (snd event) rest startTime endTime in
      match price with
      | Some p => (p * w + fst sums, w + snd sums)
      | None => sums
      end
  end.

Definition weightedSums (events : list Twap.TwapEvent) (startTime endTime : Z) : Z * Z :=
  match events ++ [(Twap.MAX_SAFE_JS_INT, None)] with
  | [] => (0, 0)
  | event :: rest => weightedSumsFrom (fst event) (snd event) rest startTime endTime
  end.

(** What the loop may still add to [timeSum], given the variables it starts
    from. *)
Definition remaining (v : Twap.vars) (events : list Twap.TwapEvent) (s e : Z) : Z :=
  match Twap.lastTime v with
  | Some prev => windowsFrom prev events s e
  | None =>
      match events with
      | [] => 0
      | event :: rest => windowsFrom (fst event) rest s e
      end
  end.

(** The block numbers a backward search by a constant increment asks for
    in its first [k] steps: [initialNumber - m * incrementDistance] for
    [m = 1 .. k], never below block 0. *)
Definition probe_schedule (initialNumber incrementDistance : Z) (k : nat) : list Z :=
  map (fun m => Z.max 0 (initialNumber - m * incrementDistance)) (seqZ 1 (Z.of_nat k)).

(** A search that doubles its distance from [initialNumber] at every step. *)
Definition doubling (initialNumber : Z) (asked : list Z) : Prop :=
  forall (i : nat) (p q : Z),
    asked !! i = Some p -> asked !! S i = Some q ->
    initialNumber - q = 2 * (initialNumber - p).

(** ** Concrete ledgers used in the examples *)
Module Fixtures.

(** A ledger with a block every 10 seconds whose head is block 20. *)
Definition ledger10 (n : option Z) : reply Block :=
  match n with
  | Some n => Reply (mkBlock n (10 * n))
  | None => Reply (mkBlock 20 200)
  end.

(** A ledger with a block every second from timestamp 1000 on, whose head
    is block 100. *)
Definition ledger1 (r : BlockFinder.requested) : reply Block :=
  match r with
  | BlockFinder.Latest => Reply (mkBlock 100 1100)
  | BlockFinder.Number n => Reply (mkBlock n (1000 + n))
  end.

(** The blocks of a lookback with its buffer at 10 seconds a block,
    computed exactly. *)
Definition buffered10 (bufferBlockPercent : Q) (lookback : Z) : Z :=
  Qfloor (Qdiv (Qmult bufferBlockPercent (inject_Z lookback)) (Qmake 10 1)).

(** [Math.round((part / whole) * distance)] computed exactly, [Math.round]
    being the floor of its argument plus a half. *)
Definition exactShare (part whole distance : Z) : Z :=
  Qfloor (Qplus (Qmult (Qdiv (inject_Z part) (inject_Z whole)) (inject_Z distance))
                (Qmake 1 2)).

(** An estimate of the blocks elapsed at 13 seconds a block. *)
Definition estimate13 (seconds : Z) (cushion : Q) : Z :=
  Qfloor (Qdiv (Qmult (inject_Z seconds) cushion) (inject_Z 13)).

(** Collaborators of the liquidator over a world without content: one
    supported contract, a network without a name, and every call answered,
    except that [liquidator.update()] is rejected when [updateFails]. *)
Definition liquidatorEnv (updateFails : bool) : Liquidator.Collaborators unit :=
  Liquidator.mkCollaborators
    [("ExpiringMultiParty", "2.0.1")]
    (fun _ => None)
    (fun _ => false)
    (fun w => (w, Reply (Some "ExpiringMultiParty", Some "2.0.1")))
    (fun w => (w, Reply tt))
    (fun w => (w, Reply 1337))
    (fun _ w => (w, Reply tt))
    (fun method w =>
       (w, Reply (if String.eqb method "getCurrentTime" then 1600000000 else 0)))
    (fun _ w => (w, Reply 18))
    (fun w => (w, Reply true))
    (fun w => (w, Reply tt))
    (fun w => (w, Reply tt))
    (fun _ w => (w, Reply false))
    (fun w => (w, if updateFails then Fail (Rejected "network") else Reply tt))
    (fun w => (w, Reply 100))
    (fun _ _ w => (w, Reply tt))
    (fun w => (w, Reply tt))
    (fun e => match e with
              | AssertionError msg | JsError msg => msg
              | TypeError => "TypeError"
              | Rejected ty => ty
              end).

(** Collaborators of the proposer over a world without content: the price
    feed has no price before timestamp 1000 and the price 5 from then on. *)
Definition proposerEnv : Proposer.Collaborators unit unit unit :=
  Proposer.mkCollaborators
    [] []
    (fun _ => []) (fun _ => [])
    (fun _ w => (w, Reply 0))
    (fun _ w => (w, Reply (Some tt)))
    (fun _ w => (w, Reply tt))
    (fun _ ts w => (w, if ts <? 1000 then Fail (Rejected "price") else Reply 5))
    (fun _ w => (w, Reply tt))
    (fun observed expected => negb (observed =? expected)).

(** The same collaborators with a blacklist, a post-expiry list, and an
    oracle contract that rejects every transaction with an error of type
    "call". *)
Definition proposerEnvStrict : Proposer.Collaborators unit unit unit :=
  Proposer.mkCollaborators
    ["BTCUSD"] ["ETHUSD"]
    (fun _ => []) (fun _ => [])
    (fun _ w => (w, Reply 1000))
    (fun _ w => (w, Reply (Some tt)))
    (fun _ w => (w, Reply tt))
    (fun _ ts w => (w, if ts <? 1000 then Fail (Rejected "price") else Reply 5))
    (fun _ w => (w, Fail (Rejected "call")))
    (fun observed expected => negb (observed =? expected)).

Definition blacklistedRequest : Proposer.PriceRequest :=
  Proposer.mkRequest "0xEMP" "BTCUSD" 2000 "0x" 7 "0xDAI".

(** The first decimal digit of a positive number: the digit before the
    point for the numbers, such as 10^21, whose shortest decimal is their
    own. *)
Definition firstDigit (k : Z) : Z :=
  Z.iter 80 (fun d => if d <? 10 then d else d / 10) k.

Definition earlyRequest : Proposer.PriceRequest :=
  Proposer.mkRequest "0xEMP" "ETHUSD" 5 "0x" 7 "0xDAI".
Definition lateRequest : Proposer.PriceRequest :=
  Proposer.mkRequest "0xEMP" "ETHUSD" 2000 "0x" 7 "0xDAI".

End Fixtures.

(* ===================================================================== *)
(** * Part II: properties                                                 *)
(* ===================================================================== *)

Module LodashFacts.

Lemma splice_insert_perm {A} (l : list A) (i : nat) (x : A) :
  splice_insert l i x ≡ₚ x :: l.
Proof.
  unfold splice_insert. rewrite <- Permutation_middle.
  by rewrite take_drop.
Qed.

Lemma clamp_inside (n lower upper : Z) :
  lower <= upper -> lower <= Lodash.clamp n lower upper <= upper.
Proof.
  intros H. unfold Lodash.clamp.
  destruct (Z.leb_spec n upper) as [Hn|Hn].
  - destruct (Z.leb_spec lower n); lia.
  - destruct (Z.leb_spec lower upper); lia.
Qed.

Section Search.
Context {A : Type} (key : A -> Z).

Lemma sorted_by_lookup (l : list A) (i j : nat) (x y : A) :
  sorted_by key l -> (i <= j)%nat -> l !! i = Some x -> l !! j = Some y ->
  key x <= key y.
Proof.
  intros Hs. revert i j. induction Hs as [|a l Hs IH Hall]; intros i j Hij Hi Hj.
  - by rewrite lookup_nil in Hi.
  - destruct i as [|i], j as [|j]; simpl in *; try lia.
    + simplify_eq. lia.
    + simplify_eq. eapply (Forall_lookup_1 _ _ _ _ Hall Hj).
    + apply (IH i j); [lia|done|done].
Qed.

(** Loop invariant of the search on a sorted array. *)
Lemma baseSortedIndexBy_spec (l : list A) (v : Z) (fuel low high : nat) :
  sorted_by key l ->
  (low <= high <= length l)%nat ->
  (high - low <= fuel)%nat ->
  (forall j x, l !! j = Some x -> (j < low)%nat -> key x < v) ->
  (forall j x, l !! j = Some x -> (high <= j)%nat -> v <= key x) ->
  lower_bound key l v (Lodash.baseSortedIndexBy key l v fuel low high).
Proof.
  intros Hs. revert low high.
  induction fuel as [|fuel IH]; intros low high Hb Hf Hlo Hhi;
    cbn [Lodash.baseSortedIndexBy].
  - assert (low = high) by lia. subst. repeat split; [lia|auto|auto].
  - destruct (Nat.ltb_spec low high) as [Hlt|Hge].
    + set (mid := ((low + high) / 2)%nat).
      assert (low <= mid < high)%nat as Hmid.
      { subst mid. split.
        - apply Nat.div_le_lower_bound; lia.
        - apply Nat.Div0.div_lt_upper_bound; lia. }
      destruct (l !! mid) as [x|] eqn:Hx.
      * destruct (Z.ltb_spec (key x) v) as [Hxv|Hxv].
        -- apply IH; [lia|lia| |auto].
           intros j y Hj Hjm.
           assert (key y <= key x); [|lia].
           apply (sorted_by_lookup l j mid); auto. lia.
        -- apply IH; [lia|lia|auto|].
           intros j y Hj Hjm.
           assert (key x <= key y); [|lia].
           apply (sorted_by_lookup l mid j); auto.
      * apply lookup_ge_None in Hx. lia.
    + assert (low = high) by lia. subst. repeat split; [lia|auto|auto].
Qed.

Lemma sortedIndexBy_spec (l : list A) (v : Z) :
  sorted_by key l -> lower_bound key l v (Lodash.sortedIndexBy l v key).
Proof.
  intros Hs. unfold Lodash.sortedIndexBy.
  apply baseSortedIndexBy_spec; auto; try lia.
  intros j x Hj Hlen. apply lookup_lt_Some in Hj. lia.
Qed.

(** A lower bound is unique: it is the number of keys below [v]. *)
Lemma lower_bound_unique (l : list A) (v : Z) (r1 r2 : nat) :
  lower_bound key l v r1 -> lower_bound key l v r2 -> r1 = r2.
Proof.
  intros (Hl1 & Hlo1 & Hhi1) (Hl2 & Hlo2 & Hhi2).
  destruct (Nat.lt_trichotomy r1 r2) as [Hlt|[Heq|Hgt]]; [|done|].
  - destruct (lookup_lt_is_Some_2 l r1) as [x Hx]; [lia|].
    pose proof (Hhi1 _ _ Hx (Nat.le_refl _)). pose proof (Hlo2 _ _ Hx Hlt). lia.
  - destruct (lookup_lt_is_Some_2 l r2) as [x Hx]; [lia|].
    pose proof (Hhi2 _ _ Hx (Nat.le_refl _)). pose proof (Hlo1 _ _ Hx Hgt). lia.
Qed.

(** Splicing a value in at its lower bound keeps the array sorted. *)
Lemma splice_insert_sorted (l : list A) (x : A) (r : nat) :
  sorted_by key l -> lower_bound key l (key x) r ->
  sorted_by key (splice_insert l r x).
Proof.
  intros Hs (Hlen & Hlo & Hhi). unfold splice_insert, sorted_by in *.
  rewrite <- (take_drop r l) in Hs.
  apply StronglySorted_app in Hs as (Hcross & Hs1 & Hs2).
  apply StronglySorted_app. split; [|split; [done|]].
  - intros y z Hy Hz.
    apply list_elem_of_lookup in Hy as [i Hi].
    apply lookup_take_Some in Hi as [Hi Hir].
    pose proof (Hlo _ _ Hi Hir) as Hyx.
    apply elem_of_cons in Hz as [->|Hz]; [lia|].
    apply list_elem_of_lookup in Hz as [j Hj].
    rewrite lookup_drop in Hj.
    assert (key x <= key z) by (apply (Hhi _ _ Hj); lia). lia.
  - apply StronglySorted_cons. split; [|done].
    apply Forall_lookup. intros j z Hj. rewrite lookup_drop in Hj.
    apply (Hhi _ _ Hj). lia.
Qed.

(** The index of the first element with a given key is what the search
    returns for that key. *)
Lemma sortedIndexBy_first (l : list A) (i : nat) (x : A) :
  sorted_by key l -> l !! i = Some x ->
  (forall j y, (j < i)%nat -> l !! j = Some y -> key y < key x) ->
  Lodash.sortedIndexBy l (key x) key = i.
Proof.
  intros Hs Hi Hfirst.
  apply (lower_bound_unique l (key x)); [by apply sortedIndexBy_spec|].
  split; [|split].
  - apply lookup_lt_Some in Hi. lia.
  - intros j y Hj Hlt. by apply (Hfirst j).
  - intros j y Hj Hle. by apply (sorted_by_lookup l i j).
Qed.

End Search.

Lemma js_index_of_nat {A} (l : list A) (i : nat) : js_index l (Z.of_nat i) = l !! i.
Proof.
  unfold js_index. destruct (Z.ltb_spec (Z.of_nat i) 0); [lia|].
  by rewrite Nat2Z.id.
Qed.

Lemma latest_of_lookup {A} (l : list A) (i : nat) (x : A) :
  l !! i = Some x ->
  exists y, latest_of l = Some y /\ l !! (length l - 1)%nat = Some y /\ (i <= length l - 1)%nat.
Proof.
  intros Hi. pose proof (lookup_lt_Some _ _ _ Hi) as Hlen.
  destruct (lookup_lt_is_Some_2 l (length l - 1)) as [y Hy]; [lia|].
  exists y. split; [|split; [done|lia]].
  unfold latest_of.
  replace (Z.of_nat (length l) - 1) with (Z.of_nat (length l - 1)) by lia.
  by rewrite js_index_of_nat.
Qed.

End LodashFacts.

(** ** BlockHistory: the cache stays sorted, and what [update] inserts *)
Module BlockHistoryFacts.
Section WithChain.
Variable getBlock : option Z -> reply Block.
Variable bufferedBlocks : Q -> Z -> Z.

Local Abbreviation update := (BlockHistory.update getBlock bufferedBlocks).
Local Abbreviation run := (BlockHistory.run getBlock bufferedBlocks).
Local Abbreviation step := (BlockHistory.step getBlock bufferedBlocks).

Lemma insert_sorted (blocks : list Block) (b : Block) :
  sorted_by timestamp blocks -> sorted_by timestamp (BlockHistory.insert blocks b).
Proof.
  intros Hs. unfold BlockHistory.insert.
  apply LodashFacts.splice_insert_sorted; [done|].
  by apply LodashFacts.sortedIndexBy_spec.
Qed.

Lemma insert_perm (blocks : list Block) (b : Block) :
  BlockHistory.insert blocks b ≡ₚ b :: blocks.
Proof. apply LodashFacts.splice_insert_perm. Qed.

Lemma insertRecent_sorted (lookback now : Z) (fetched blocks : list Block) :
  sorted_by timestamp blocks ->
  sorted_by timestamp (BlockHistory.insertRecent lookback now blocks fetched).
Proof.
  unfold BlockHistory.insertRecent. revert blocks.
  induction fetched as [|b fetched IH]; intros blocks Hs; simpl; [done|].
  apply IH. destruct (now - lookback <=? timestamp b); [by apply insert_sorted|done].
Qed.

Lemma insertRecent_perm (lookback now : Z) (fetched blocks : list Block) :
  BlockHistory.insertRecent lookback now blocks fetched
  ≡ₚ filter (fun b => now - lookback <= timestamp b) fetched ++ blocks.
Proof.
  unfold BlockHistory.insertRecent. revert blocks.
  induction fetched as [|b fetched IH]; intros blocks; simpl; [done|].
  rewrite IH. rewrite filter_cons.
  destruct (Z.leb_spec (now - lookback) (timestamp b)) as [Hle|Hlt].
  - rewrite decide_True by done. rewrite insert_perm.
    simpl. by rewrite Permutation_middle.
  - by rewrite decide_False by lia.
Qed.

(** What [update] leaves in the cache, outcome by outcome. *)
Lemma update_cases (lookback now : Z) (buffer : Q) (blocks : list Block) :
  let (blocks', r) := update lookback now buffer blocks in
  match r with
  | Ok fetched => blocks' = BlockHistory.insertRecent lookback now blocks fetched
  | _ => blocks' = blocks
  end.
Proof.
  unfold BlockHistory.update, bind, assert, await, call, modify, ret, throw.
  destruct (0 <=? lookback); [|done].
  destruct (0 <=? now); [|done].
  destruct (getBlock None) as [latestBlock|]; [|done].
  simpl. destruct (BlockHistory.fetchAll getBlock _) as [fetched|]; done.
Qed.

Lemma step_sorted (blocks : list Block) (o : BlockHistory.op) :
  sorted_by timestamp blocks -> sorted_by timestamp (step blocks o).
Proof.
  intros Hs. destruct o as [b|lookback now buffer| | | | |]; simpl; try done.
  - by apply insert_sorted.
  - pose proof (update_cases lookback now buffer blocks) as Hu.
    destruct (update lookback now buffer blocks) as [blocks' r]. simpl.
    destruct r; subst; try done. by apply insertRecent_sorted.
Qed.

(** C10: a cache sorted by non-decreasing timestamp stays so under every
    sequence of BlockHistory calls (insert, update and the queries). *)
Theorem cache_stays_sorted (blocks : list Block) (ops : list BlockHistory.op) :
  sorted_by timestamp blocks -> sorted_by timestamp (run blocks ops).
Proof.
  unfold BlockHistory.run. revert blocks.
  induction ops as [|o ops IH]; intros blocks Hs; simpl; [done|].
  apply IH. by apply step_sorted.
Qed.

(** C2, as the code has it: when [update] succeeds, the cache afterwards
    holds what it held before together with exactly the fetched blocks
    whose timestamp is at least [now - lookback]; a fetched block below
    that bound is not inserted, and there is no upper bound at [now]. *)
Theorem update_inserts_from_lower_bound (lookback now : Z) (buffer : Q)
    (blocks blocks' fetched : list Block) :
  update lookback now buffer blocks = (blocks', Ok fetched) ->
  blocks' ≡ₚ filter (fun b => now - lookback <= timestamp b) fetched ++ blocks.
Proof.
  intros Hu. pose proof (update_cases lookback now buffer blocks) as Hc.
  rewrite Hu in Hc. subst. apply insertRecent_perm.
Qed.

End WithChain.

(** C10 at a concrete cache and sequence of calls. *)
Lemma cache_stays_sorted_witness :
  sorted_by timestamp
    (BlockHistory.run Fixtures.ledger10 Fixtures.buffered10
       [mkBlock 1 10; mkBlock 3 30]
       [BlockHistory.OpInsert (mkBlock 2 20);
        BlockHistory.OpGetClosestBefore 25;
        BlockHistory.OpUpdate 50 100 (Qmake 11 10)]).
Proof.
  apply (cache_stays_sorted Fixtures.ledger10 Fixtures.buffered10).
  unfold sorted_by. repeat constructor; simpl; lia.
Defined.

(** C2 at a concrete ledger: head 20, lookback 50, now 100. *)
Lemma update_inserts_from_lower_bound_witness :
  fst (BlockHistory.update Fixtures.ledger10 Fixtures.buffered10 50 100 (Qmake 11 10) [])
  ≡ₚ filter (fun b => 100 - 50 <= timestamp b)
            (map (fun n => mkBlock n (10 * n)) (seqZ 15 6)) ++ [].
Proof.
  apply (update_inserts_from_lower_bound Fixtures.ledger10 Fixtures.buffered10 50 100
           (Qmake 11 10) []).
  vm_compute. reflexivity.
Defined.

(** C2 as stated fails: with the head of the ledger at timestamp 200 and
    [now = 100], [update] inserts blocks whose timestamp is above [now]. *)
Lemma update_inserts_beyond_now :
  ~ (forall b : Block,
       b ∈ fst (BlockHistory.update Fixtures.ledger10 Fixtures.buffered10 50 100 (Qmake 11 10) []) ->
       100 - 50 <= timestamp b <= 100).
Proof.
  intros H. specialize (H (mkBlock 20 200)).
  assert (100 - 50 <= timestamp (mkBlock 20 200) <= 100) as [_ Hle]; [|simpl in Hle; lia].
  apply H. vm_compute. repeat constructor.
Qed.

End BlockHistoryFacts.

(** ** computeTWAP *)
Module TwapFacts.
Import Twap.

Lemma windowsFrom_nonneg (prev : Z) (later : list TwapEvent) (s e : Z) :
  0 <= windowsFrom prev later s e.
Proof.
  revert prev. induction later as [|event rest IH]; intros prev; simpl; [lia|].
  specialize (IH (fst event)). lia.
Qed.

Lemma accumulate_cases (s e : Z) (event : TwapEvent) (v : vars) :
  accumulate s e event v
  = match both_truthy v with
    | Some (t, p) =>
        let w := Z.max (Z.min (fst event) e - Z.max t s) 0 in
        if w <? 67108864
        then (mkVars (lastPrice v) (lastTime v) (priceSum v + p * w) (timeSum v + w),
              Ok tt)
        else (v, Throw (JsError "Assertion failed"))
    | None => (v, Ok tt)
    end.
Proof.
  unfold accumulate, bind, get, call, muln, modify, ret.
  destruct (both_truthy v) as [[t p]|]; [|reflexivity].
  cbv zeta. by destruct (_ <? 67108864).
Qed.

Lemma loop_cons (s e : Z) (event : TwapEvent) (rest : list TwapEvent) (v : vars) :
  loop s e (event :: rest) v
  = match accumulate s e event v with
    | (v1, Ok _) =>
        if e <? fst event then (v1, Ok tt)
        else loop s e rest (mkVars (snd event) (Some (fst event)) (priceSum v1) (timeSum v1))
    | (v1, Throw err) => (v1, Throw err)
    | (v1, Exit code) => (v1, Exit code)
    | (v1, OutOfFuel) => (v1, OutOfFuel)
    end.
Proof.
  cbn [loop]. unfold bind at 1.
  destruct (accumulate s e event v) as [v1 [[]|err|code|]]; try reflexivity.
  by destruct (e <? fst event).
Qed.

(** How [computeTWAP] ends, from how its loop ends. *)
Lemma computeTWAP_cases (events : list TwapEvent) (s e sum : Z) :
  snd (computeTWAP events s e sum)
  = match loop s e (events ++ [(MAX_SAFE_JS_INT, None)]) (mkVars None None sum 0) with
    | (v, Ok _) =>
        if timeSum v =? 0 then Ok None
        else if timeSum v <? 67108864 then Ok (Some (Z.quot (priceSum v) (timeSum v)))
        else Throw (JsError "Assertion failed")
    | (_, Throw err) => Throw err
    | (_, Exit code) => Exit code
    | (_, OutOfFuel) => OutOfFuel
    end.
Proof.
  unfold computeTWAP. cbn [snd]. unfold bind at 1.
  destruct (loop s e _ _) as [v [[]|err|code|]]; try reflexivity.
  unfold bind, get, call, divn, ret.
  destruct (timeSum v =? 0); [reflexivity|].
  destruct (Z.leb_spec (timeSum v) 67108863), (Z.ltb_spec (timeSum v) 67108864);
    try reflexivity; lia.
Qed.

(** Samples that are in force for no time at all add nothing, and no [BN]
    operation fails on them. *)
Lemma loop_no_overlap (s e : Z) (events : list TwapEvent) (v : vars) :
  remaining v events s e = 0 ->
  exists v', loop s e events v = (v', Ok tt) /\ timeSum v' = timeSum v.
Proof.
  revert v. induction events as [|event rest IH]; intros v Hrem.
  - by exists v.
  - rewrite loop_cons, accumulate_cases.
    pose proof (windowsFrom_nonneg (fst event) rest s e) as Hrest.
    assert (exists v1,
              match both_truthy v with
              | Some (t, p) =>
                  let w := Z.max (Z.min (fst event) e - Z.max t s) 0 in
                  if w <? 67108864
                  then (mkVars (lastPrice v) (lastTime v) (priceSum v + p * w)
                               (timeSum v + w), Ok tt)
                  else (v, Throw (JsError "Assertion failed"))
              | None => (v, Ok tt)
              end = (v1, Ok tt)
              /\ timeSum v1 = timeSum v
              /\ windowsFrom (fst event) rest s e = 0) as (v1 & -> & Ht & Hw).
    { unfold both_truthy, remaining in *.
      destruct (lastTime v) as [t|]; cbn [windowsFrom] in Hrem.
      - assert (Z.max (Z.min (fst event) e - Z.max t s) 0 = 0) as Hzero by lia.
        destruct (lastPrice v) as [p|]; [|exists v; repeat split; lia].
        destruct (t =? 0); [exists v; repeat split; lia|].
        cbv zeta. rewrite Hzero. cbn [Z.ltb Z.compare].
        eexists. split; [reflexivity|]. cbn [timeSum]. split; lia.
      - exists v. destruct (lastPrice v); repeat split; lia. }
    destruct (e <? fst event); [by exists v1|].
    destruct (IH (mkVars (snd event) (Some (fst event)) (priceSum v1) (timeSum v1)))
      as (v' & Hloop & Ht'); [exact Hw|].
    exists v'. split; [exact Hloop|]. cbn [timeSum] in Ht'. lia.
Qed.

(** C1, as the code has it.  (1) One sample [(t, p)] with a non-zero
    timestamp [t <= startTime], a window of positive length
    [startTime < endTime] that begins before the sentinel, and carry-in sum
    zero: the result is exactly [p] when the sample is in force for less
    than 2^26 seconds of the window, and the error of the [BN] operation
    from 2^26 seconds on.  (2) When the samples are in force for no time at
    all inside the window the result is [null], whatever the carry-in sum;
    (3) so it is when the first event is later than [endTime]. *)
Theorem twap_single_sample_and_zero_overlap :
  (forall t p startTime endTime : Z,
      t <> 0 -> t <= startTime -> startTime < endTime -> startTime < MAX_SAFE_JS_INT ->
      snd (computeTWAP [(t, Some p)] startTime endTime 0)
      = if Z.min MAX_SAFE_JS_INT endTime - startTime <? 67108864 then Ok (Some p)
        else Throw (JsError "Assertion failed"))
  /\ (forall (events : list TwapEvent) (startTime endTime startingPriceSum : Z),
        overlapDuration events startTime endTime = 0 ->
        snd (computeTWAP events startTime endTime startingPriceSum) = Ok None)
  /\ (forall (t0 : Z) (p0 : option Z) (rest : list TwapEvent)
             (startTime endTime startingPriceSum : Z),
        endTime < t0 ->
        snd (computeTWAP ((t0, p0) :: rest) startTime endTime startingPriceSum)
        = Ok None).
Proof.
  split; [|split].
  - intros t p s e Ht Hts Hse Hmax.
    set (w := Z.min MAX_SAFE_JS_INT e - s).
    assert (0 < w) as Hw by (subst w; lia).
    rewrite computeTWAP_cases. cbn [app].
    rewrite loop_cons, accumulate_cases. cbn [both_truthy lastTime lastPrice fst snd].
    assert ((e <? t) = false) as -> by lia.
    cbn [priceSum timeSum].
    rewrite loop_cons, accumulate_cases.
    unfold both_truthy. cbn [lastTime lastPrice priceSum timeSum fst snd].
    assert ((t =? 0) = false) as -> by lia.
    cbv zeta.
    replace (Z.max (Z.min MAX_SAFE_JS_INT e - Z.max t s) 0) with w by (subst w; lia).
    destruct (Z.ltb_spec w 67108864) as [Hsmall|Hbig]; [|reflexivity].
    assert (forall v : vars,
              timeSum v = w -> priceSum v = p * w ->
              (if timeSum v =? 0 then Ok None
               else if timeSum v <? 67108864
                    then Ok (Some (Z.quot (priceSum v) (timeSum v)))
                    else Throw (JsError "Assertion failed")) = Ok (Some p)) as Hend.
    { intros v -> ->.
      assert ((w =? 0) = false) as -> by lia.
      assert ((w <? 67108864) = true) as -> by lia.
      do 2 f_equal. apply Z.quot_mul. lia. }
    destruct (e <? MAX_SAFE_JS_INT); cbn [loop]; unfold ret;
      apply Hend; cbn [timeSum priceSum]; lia.
  - intros events s e sum Hov. rewrite computeTWAP_cases.
    destruct (loop_no_overlap s e (events ++ [(MAX_SAFE_JS_INT, None)])
                (mkVars None None sum 0)) as (v' & -> & Ht).
    { unfold remaining, overlapDuration in *. cbn [lastTime]. exact Hov. }
    cbn [timeSum] in Ht. by rewrite Ht.
  - intros t0 p0 rest s e sum Hlt. rewrite computeTWAP_cases.
    cbn [app]. rewrite loop_cons, accumulate_cases.
    cbn [both_truthy lastTime lastPrice fst].
    assert ((e <? t0) = true) as -> by lia.
    reflexivity.
Qed.

(** C1 at concrete inputs. *)
Lemma twap_single_sample_and_zero_overlap_witness :
  snd (computeTWAP [(5, Some 7)] 10 20 0)
  = (if Z.min MAX_SAFE_JS_INT 20 - 10 <? 67108864 then Ok (Some 7)
     else Throw (JsError "Assertion failed"))
  /\ snd (computeTWAP [(5, Some 7); (8, Some 9)] 1 5 3) = Ok None
  /\ snd (computeTWAP [(25, Some 7)] 10 20 0) = Ok None.
Proof.
  destruct twap_single_sample_and_zero_overlap as (H1 & H2 & H3).
  split; [|split].
  - apply H1; unfold MAX_SAFE_JS_INT; lia.
  - apply H2. reflexivity.
  - apply H3. lia.
Defined.

(** C1 as stated fails on a long window: the sample with price 7 is in
    force over all of [[10, 67108874]], a window of positive length that
    ends before the sentinel, and the call throws the error of [BN.muln]
    instead of returning 7. *)
Lemma twap_single_sample_long_window :
  ~ (forall t p startTime endTime : Z,
       0 < t -> t <= startTime -> startTime < endTime -> endTime <= MAX_SAFE_JS_INT ->
       snd (computeTWAP [(t, Some p)] startTime endTime 0) = Ok (Some p)).
Proof.
  intros H. specialize (H 5 7 10 67108874).
  assert (snd (computeTWAP [(5, Some 7)] 10 67108874 0) = Ok (Some 7)) as Hc
    by (apply H; unfold MAX_SAFE_JS_INT; lia).
  vm_compute in Hc. discriminate.
Qed.

(** On a window of length zero the sample is in force for no time, and the
    result is [null]. *)
Example twap_single_sample_empty_window :
  snd (computeTWAP [(5, Some 7)] 10 10 0) = Ok None.
Proof. reflexivity. Qed.

(** The sample at timestamp 0 is never counted: [lastTime && lastPrice] is
    falsy for the number 0. *)
Example twap_sample_at_time_zero :
  snd (computeTWAP [(0, Some 7)] 10 20 0) = Ok None.
Proof. reflexivity. Qed.

(** A sentinel left in the array by an earlier call changes nothing. *)
Lemma loop_extra_sentinel (s e : Z) (events : list TwapEvent) (v : vars) :
  loop s e ((events ++ [(MAX_SAFE_JS_INT, None)]) ++ [(MAX_SAFE_JS_INT, None)]) v
  = loop s e (events ++ [(MAX_SAFE_JS_INT, None)]) v.
Proof.
  revert v. induction events as [|event rest IH]; intros v.
  - cbn [app]. rewrite !loop_cons.
    destruct (accumulate s e (MAX_SAFE_JS_INT, None) v) as [v1 [[]|err|code|]];
      try reflexivity.
    cbn [fst snd].
    destruct (e <? MAX_SAFE_JS_INT); [reflexivity|].
    rewrite !loop_cons, accumulate_cases.
    cbn [both_truthy lastTime lastPrice fst snd priceSum timeSum].
    by destruct (e <? MAX_SAFE_JS_INT).
  - cbn [app]. rewrite !loop_cons.
    destruct (accumulate s e event v) as [v1 [[]|err|code|]]; try reflexivity.
    destruct (e <? fst event); [reflexivity|]. apply IH.
Qed.

(** C9, as the code has it: the call appends the sentinel event to the
    caller's array and leaves the events that were there as they were; a
    second call on that array appends a second sentinel, and ends as the
    first call ended. *)
Theorem twap_appends_sentinel (events : list TwapEvent)
    (startTime endTime startingPriceSum : Z) :
  let first := computeTWAP events startTime endTime startingPriceSum in
  let second := computeTWAP (fst first) startTime endTime startingPriceSum in
  fst first = events ++ [(MAX_SAFE_JS_INT, None)]
  /\ fst second = events ++ [(MAX_SAFE_JS_INT, None); (MAX_SAFE_JS_INT, None)]
  /\ snd second = snd first.
Proof.
  cbv zeta. split; [reflexivity|]. split.
  - unfold computeTWAP. cbn [fst]. by rewrite <- app_assoc.
  - rewrite !computeTWAP_cases. unfold computeTWAP at 1. cbn [fst].
    by rewrite loop_extra_sentinel.
Qed.

(** C9 as stated fails: the caller's array is one event longer afterwards. *)
Lemma twap_changes_events :
  ~ (forall (events : list TwapEvent) (startTime endTime startingPriceSum : Z),
       fst (computeTWAP events startTime endTime startingPriceSum) = events).
Proof.
  intros H. specialize (H [(5, Some 7)] 10 20 0). discriminate H.
Qed.

End TwapFacts.

(** ** BlockFinder *)
Module BlockFinderFacts.
Import BlockFinder.

Ltac unfold_M :=
  unfold assert, await in *;
  unfold bind, ret, throw, call, get, modify, try_catch in *.

Section WithChain.
Variable requestBlock : requested -> reply Block.
Variable estimateBlocksElapsed : Z -> Q -> Z.
Variable roundedShare : Z -> Z -> Z -> Z.

Local Abbreviation getBlock := (BlockFinder.getBlock requestBlock).
Local Abbreviation findBlock := (BlockFinder.findBlock requestBlock roundedShare).
Local Abbreviation probedBlock := (BlockFinder.probedBlock roundedShare).
Local Abbreviation estimatedBlock := (BlockFinder.estimatedBlock roundedShare).
Local Abbreviation searchBackwards := (BlockFinder.searchBackwards requestBlock).
Local Abbreviation getBlockForTimestamp :=
  (BlockFinder.getBlockForTimestamp requestBlock estimateBlocksElapsed roundedShare).
Local Abbreviation answers_by_number := (BlockFinder.answers_by_number requestBlock).
Local Abbreviation getBlock_outcome := (BlockFinder.getBlock_outcome requestBlock).
Local Abbreviation search_ended := (BlockFinder.search_ended requestBlock).

Lemma getBlock_cases (n : Z) (st : state) : getBlock_outcome n st (getBlock n st).
Proof.
  unfold BlockFinder.getBlock. unfold_M. cbn [blocks note_probe].
  set (index := Lodash.sortedIndexBy (blocks st) n number).
  destruct (blocks st !! index) as [b|] eqn:Hb.
  - destruct (Z.eqb_spec (number b) n) as [Hn|Hn].
    + by eapply gb_cached.
    + destruct (requestBlock (Number n)) as [b'|e] eqn:Hr; simpl.
      * by apply gb_fetched.
      * by apply gb_failed.
  - destruct (requestBlock (Number n)) as [b'|e] eqn:Hr; simpl.
    + by apply gb_fetched.
    + by apply gb_failed.
Qed.

Lemma getBlock_number (n : Z) (st st' : state) (b : Block) :
  answers_by_number -> getBlock n st = (st', Ok b) -> number b = n.
Proof.
  intros Hreq Hg. pose proof (getBlock_cases n st) as Hc. rewrite Hg in Hc.
  inversion Hc; subst; auto.
Qed.

Lemma getBlock_probes (n : Z) (st : state) :
  probes (fst (getBlock n st)) = probes st ++ [n].
Proof. destruct (getBlock_cases n st); reflexivity. Qed.

(** The fetched block lies strictly inside a bracket of two or more blocks. *)
Lemma probedBlock_inside (startBlock endBlock : Block) (ts : Z) :
  number startBlock + 1 < number endBlock ->
  number startBlock < probedBlock startBlock endBlock ts < number endBlock.
Proof.
  intros H. unfold probedBlock.
  pose proof (LodashFacts.clamp_inside (estimatedBlock startBlock endBlock ts)
                (number startBlock + 1) (number endBlock - 1)). lia.
Qed.

Lemma findBlock_ends (fuel : nat) :
  answers_by_number ->
  forall (startBlock endBlock : Block) (ts : Z) (st : state),
    timestamp startBlock < ts <= timestamp endBlock ->
    number startBlock < number endBlock ->
    (Z.to_nat (number endBlock - number startBlock) <= fuel)%nat ->
    search_ended ts (snd (findBlock fuel (Some startBlock) (Some endBlock) ts st)).
Proof.
  intros Hreq. induction fuel as [|fuel IH]; intros s e ts st Hts Hn Hfuel; [lia|].
  cbn [BlockFinder.findBlock].
  destruct (Z.eqb_spec (timestamp e) ts) as [Heq|Hne]; [simpl; lia|].
  destruct (Z.eqb_spec (number e) (number s + 1)) as [Hadj|Hnadj]; [simpl; lia|].
  unfold_M.
  destruct (Z.eqb_spec (number e) (number s)) as [?|_]; [lia|].
  assert ((ts <? timestamp e) = true) as -> by lia.
  assert ((timestamp s <? ts) = true) as -> by lia. cbn [negb andb].
  pose proof (probedBlock_inside s e ts) as Hin.
  pose proof (getBlock_cases (probedBlock s e ts) st) as Hc.
  destruct (getBlock (probedBlock s e ts) st) as [st1 [newBlock|err|c|]] eqn:Hg;
    try (inversion Hc; fail).
  - assert (number newBlock = probedBlock s e ts) as Hnum
        by (eapply getBlock_number; eauto).
    destruct (Z.ltb_spec (timestamp newBlock) ts) as [Hlt|Hge].
    + apply IH; lia.
    + apply IH; lia.
  - inversion Hc; subst. simpl. eauto.
Qed.

(** C5: on a bracket [startBlock.number < endBlock.number] around the query,
    [findBlock] ends (with a block, unless the ledger client rejects a
    request) once the fuel covers the width of the bracket; an adjacent
    bracket returns [startBlock] at once, without a request; and the block
    fetched for a wider bracket lies strictly inside it, so that either
    bracket of the recursive call is narrower by at least one block. *)
Theorem findBlock_terminates (startBlock endBlock : Block) (ts : Z) :
  answers_by_number ->
  timestamp startBlock < ts < timestamp endBlock ->
  number startBlock < number endBlock ->
  (forall (fuel : nat) (st : state),
      (Z.to_nat (number endBlock - number startBlock) <= fuel)%nat ->
      search_ended ts (snd (findBlock fuel (Some startBlock) (Some endBlock) ts st)))
  /\ (number endBlock = number startBlock + 1 ->
      forall (fuel : nat) (st : state),
        findBlock (S fuel) (Some startBlock) (Some endBlock) ts st = (st, Ok startBlock))
  /\ (number startBlock + 1 < number endBlock ->
      let n := probedBlock startBlock endBlock ts in
      number startBlock < n < number endBlock
      /\ n - number startBlock < number endBlock - number startBlock
      /\ number endBlock - n < number endBlock - number startBlock).
Proof.
  intros Hreq Hts Hn. split; [|split].
  - intros fuel st Hfuel. apply findBlock_ends; auto. lia.
  - intros Hadj fuel st. cbn [BlockFinder.findBlock].
    destruct (Z.eqb_spec (timestamp endBlock) ts) as [?|_]; [lia|].
    destruct (Z.eqb_spec (number endBlock) (number startBlock + 1)) as [_|?]; [|lia].
    reflexivity.
  - intros Hwide. pose proof (probedBlock_inside startBlock endBlock ts Hwide).
    simpl. lia.
Qed.

Lemma getBlock_cache_bound (n ts : Z) (st : state) :
  Forall (fun b => ts < timestamp b) (blocks st) ->
  (forall b, requestBlock (Number n) = Reply b -> ts < timestamp b) ->
  Forall (fun b => ts < timestamp b) (blocks (fst (getBlock n st)))
  /\ (forall b, snd (getBlock n st) = Ok b -> ts < timestamp b).
Proof.
  intros Hcache Hreq. destruct (getBlock_cases n st) as [index b Hb Hn|index b Hr|e Hr];
    cbn [fst snd blocks note_probe].
  - split; [done|]. intros b' [= <-].
    eapply (Forall_lookup_1 _ _ _ _ Hcache Hb).
  - split.
    + rewrite LodashFacts.splice_insert_perm. constructor; auto.
    + intros b' [= <-]. auto.
  - split; [done|]. intros b' Hb'. discriminate Hb'.
Qed.

(** On a cache that holds blocks of the ledger, [getBlock] gives the block
    of the ledger, cached or fetched, and the cache stays one of blocks of
    the ledger. *)
Lemma getBlock_on_ledger (n : Z) (b : Block) (st : state) :
  BlockFinder.from_ledger requestBlock (blocks st) ->
  requestBlock (Number n) = Reply b -> number b = n ->
  exists st1,
    getBlock n st = (st1, Ok b)
    /\ probes st1 = probes st ++ [n]
    /\ BlockFinder.from_ledger requestBlock (blocks st1).
Proof.
  intros Hcache Hreq Hnum.
  destruct (getBlock_cases n st) as [index b' Hb Hn|index b' Hr|e Hr].
  - pose proof (Forall_lookup_1 _ _ _ _ Hcache Hb) as Hb'. cbn in Hb'.
    rewrite Hn, Hreq in Hb'. injection Hb' as <-.
    eexists. split; [reflexivity|]. by split.
  - rewrite Hreq in Hr. injection Hr as <-.
    eexists. split; [reflexivity|]. split; [reflexivity|].
    cbn [blocks]. unfold BlockFinder.from_ledger.
    rewrite LodashFacts.splice_insert_perm. constructor; [|done].
    by rewrite Hnum.
  - congruence.
Qed.

Lemma findBlock_probes (fuel : nat) :
  forall (startBlock endBlock : option Block) (ts : Z) (st : state),
    exists rest,
      probes (fst (findBlock fuel startBlock endBlock ts st)) = probes st ++ rest.
Proof.
  induction fuel as [|fuel IH]; intros s e ts st; cbn [BlockFinder.findBlock].
  - exists []. by rewrite app_nil_r.
  - destruct e as [e|]; [|exists []; by rewrite app_nil_r].
    destruct (timestamp e =? ts); [exists []; by rewrite app_nil_r|].
    destruct s as [s|]; [|exists []; by rewrite app_nil_r].
    destruct (number e =? number s + 1); [exists []; by rewrite app_nil_r|].
    unfold_M.
    destruct (negb (number e =? number s)); [|exists []; by rewrite app_nil_r].
    destruct ((ts <? timestamp e) && (timestamp s <? ts));
      [|exists []; by rewrite app_nil_r].
    pose proof (getBlock_probes (probedBlock s e ts) st) as Hp.
    destruct (getBlock (probedBlock s e ts) st) as [st1 [newBlock|err|c|]];
      cbn [fst] in *; try (eexists; exact Hp).
    destruct (timestamp newBlock <? ts).
    + destruct (IH (Some newBlock) (Some e) ts st1) as [rest Hrest].
      exists ([probedBlock s e ts] ++ rest). by rewrite Hrest, Hp, app_assoc.
    + destruct (IH (Some s) (Some newBlock) ts st1) as [rest Hrest].
      exists ([probedBlock s e ts] ++ rest). by rewrite Hrest, Hp, app_assoc.
Qed.

Section Backwards.
Variable initialBlock : Block.
Variable incrementDistance : Z.
Variable ts : Z.

Local Abbreviation asked :=
  (fun m : Z => Z.max 0 (number initialBlock - m * incrementDistance)).

Lemma searchBackwards_probes (fuel : nat) :
  forall (multiplier : Z) (st : state),
    exists k : nat,
      (k <= fuel)%nat /\
      probes (fst (searchBackwards fuel initialBlock incrementDistance ts multiplier st))
      = probes st ++ map asked (seqZ multiplier (Z.of_nat k)).
Proof.
  induction fuel as [|fuel IH]; intros m st; cbn [BlockFinder.searchBackwards].
  - exists 0%nat. split; [lia|]. simpl. by rewrite app_nil_r.
  - unfold_M.
    pose proof (getBlock_probes (asked m) st) as Hp.
    destruct (getBlock (asked m) st) as [st1 [block|err|c|]]; cbn [fst] in *;
      try (exists 1%nat; split; [lia|]; exact Hp).
    destruct (timestamp block <=? ts); [exists 1%nat; split; [lia|]; exact Hp|].
    destruct (0 <? asked m); [|exists 1%nat; split; [lia|]; exact Hp].
    destruct (IH (m + 1) st1) as (k & Hk & Hprobes).
    exists (S k). split; [lia|].
    cbn [fst] in *. rewrite Hprobes, Hp.
    rewrite (seqZ_cons m (Z.of_nat (S k))) by lia.
    replace (Z.pred (Z.of_nat (S k))) with (Z.of_nat k) by lia.
    replace (Z.succ m) with (m + 1) by lia.
    by rewrite <- app_assoc.
Qed.

Lemma searchBackwards_ends (fuel : nat) :
  1 <= incrementDistance ->
  forall (multiplier : Z) (st : state),
    (Z.to_nat (number initialBlock - multiplier * incrementDistance) < fuel)%nat ->
    snd (searchBackwards fuel initialBlock incrementDistance ts multiplier st) <> OutOfFuel.
Proof.
  intros Hinc. induction fuel as [|fuel IH]; intros m st Hfuel; [lia|].
  cbn [BlockFinder.searchBackwards]. unfold_M.
  pose proof (getBlock_cases (asked m) st) as Hc.
  destruct (getBlock (asked m) st) as [st1 [block|err|c|]];
    try (inversion Hc; fail); [|done].
  destruct (timestamp block <=? ts); [done|].
  destruct (Z.ltb_spec 0 (asked m)) as [Hpos|Hzero]; [|done].
  apply IH. nia.
Qed.

(** When every block of the ledger and of the cache is later than the
    query, the loop ends on the assertion at block 0. *)
Lemma searchBackwards_before_genesis (fuel : nat) :
  1 <= incrementDistance ->
  (forall n, 0 <= n -> exists b, requestBlock (Number n) = Reply b /\ ts < timestamp b) ->
  forall (multiplier : Z) (st : state),
    Forall (fun b => ts < timestamp b) (blocks st) ->
    (Z.to_nat (number initialBlock - multiplier * incrementDistance) < fuel)%nat ->
    snd (searchBackwards fuel initialBlock incrementDistance ts multiplier st)
    = Throw (AssertionError "timestamp is before block 0").
Proof.
  intros Hinc Hledger. induction fuel as [|fuel IH]; intros m st Hcache Hfuel; [lia|].
  cbn [BlockFinder.searchBackwards]. unfold_M.
  destruct (Hledger (asked m)) as (b0 & Hb0 & Hts0); [lia|].
  destruct (getBlock_cache_bound (asked m) ts st Hcache) as [Hcache1 Hblock].
  { intros b Hb. rewrite Hb0 in Hb. by injection Hb as <-. }
  pose proof (getBlock_cases (asked m) st) as Hc.
  destruct (getBlock (asked m) st) as [st1 [block|err|c|]];
    try (inversion Hc; fail).
  - cbn [fst snd] in *. specialize (Hblock block eq_refl).
    assert ((timestamp block <=? ts) = false) as -> by lia.
    destruct (Z.ltb_spec 0 (asked m)) as [Hpos|Hzero]; [|done].
    apply IH; [done|nia].
  - inversion Hc as [| |e Hfail]; subst. congruence.
Qed.

(** The loop on a ledger that answers: it goes from a probe to the next
    one exactly at a miss above block 0, and stops at the first probe that
    is not later than the query or is block 0. *)
Lemma searchBackwards_exact (chain : Z -> Block) :
  (forall n, 0 <= n -> requestBlock (Number n) = Reply (chain n) /\ number (chain n) = n) ->
  1 <= incrementDistance ->
  forall (fuel : nat) (multiplier : Z) (st st' : state) (r : result unit),
    BlockFinder.from_ledger requestBlock (blocks st) ->
    (Z.to_nat (number initialBlock - multiplier * incrementDistance) < fuel)%nat ->
    searchBackwards fuel initialBlock incrementDistance ts multiplier st = (st', r) ->
    exists j : nat,
      (S j <= fuel)%nat
      /\ (forall i, multiplier <= i < multiplier + Z.of_nat j ->
            ts < timestamp (chain (asked i)) /\ 0 < asked i)
      /\ (timestamp (chain (asked (multiplier + Z.of_nat j))) <= ts
          \/ asked (multiplier + Z.of_nat j) = 0)
      /\ probes st' = probes st ++ map asked (seqZ multiplier (Z.of_nat (S j)))
      /\ r = if timestamp (chain (asked (multiplier + Z.of_nat j))) <=? ts then Ok tt
             else Throw (AssertionError "timestamp is before block 0").
Proof.
  intros Hledger Hinc.
  induction fuel as [|fuel IH]; intros m st st' r Hcache Hfuel; [lia|].
  cbn [BlockFinder.searchBackwards].
  destruct (Hledger (asked m)) as [Hreq Hnum]; [lia|].
  destruct (getBlock_on_ledger (asked m) (chain (asked m)) st Hcache Hreq Hnum)
    as (st1 & Hget & Hprobes & Hcache1).
  unfold bind at 1. rewrite Hget.
  destruct (Z.leb_spec (timestamp (chain (asked m))) ts) as [Hhit|Hmiss].
  { intros [= <- <-]. exists 0%nat. rewrite Z.add_0_r. split; [lia|].
    split; [intros i Hi; lia|]. split; [by left|].
    split; [by rewrite Hprobes|].
    by rewrite (proj2 (Z.leb_le _ _) Hhit). }
  unfold assert.
  destruct (Z.ltb_spec 0 (asked m)) as [Hpos|Hzero].
  - unfold bind at 1. unfold ret at 1. intros Hloop.
    destruct (IH (m + 1) st1 st' r Hcache1) as (j & Hj & Hmisses & Hstop & Hp & Hr);
      [nia|exact Hloop|].
    exists (S j).
    replace (m + Z.of_nat (S j)) with (m + 1 + Z.of_nat j) by lia.
    split; [lia|]. split; [|split; [exact Hstop|split; [|exact Hr]]].
    + intros i Hi. destruct (Z.eq_dec i m) as [->|Hne]; [done|].
      apply Hmisses. lia.
    + rewrite Hp, Hprobes.
      rewrite (seqZ_cons m (Z.of_nat (S (S j)))) by lia.
      replace (Z.pred (Z.of_nat (S (S j)))) with (Z.of_nat (S j)) by lia.
      replace (Z.succ m) with (m + 1) by lia.
      by rewrite <- app_assoc.
  - unfold bind, throw. intros [= <- <-].
    exists 0%nat. rewrite Z.add_0_r. split; [lia|].
    split; [intros i Hi; lia|]. split; [right; lia|].
    split; [by rewrite Hprobes|].
    by rewrite (proj2 (Z.leb_gt _ _) Hmiss).
Qed.

End Backwards.

(** C3, as the code has it.  When the query precedes every cached block,
    the loop of [getBlockForTimestamp] asks for the blocks at distance
    [incrementDistance], [2 * incrementDistance], [3 * incrementDistance], ...
    below the first cached block: the distance grows by the constant
    [incrementDistance >= 1] at each miss, and no block number below 0 is
    asked for.  On a ledger that answers, a probe that is later than the
    query and above block 0 is followed by the next probe, and the loop
    stops at the first probe [k] that is not later than the query, with
    which it ends well, or that is block 0 and later than the query, with
    which it fails on the assertion "timestamp is before block 0".  These
    are the first requests of the query, and on a ledger whose timestamps
    do not decrease and whose block 0 is later than the query, the query
    fails on that assertion. *)
Theorem backward_search_constant_increment
    (fuel : nat) (st : state) (initialBlock : Block) (ts : Z) (chain : Z -> Block) :
  blocks st !! 0%nat = Some initialBlock ->
  Forall (fun b => ts < timestamp b) (blocks st) ->
  BlockFinder.from_ledger requestBlock (blocks st) ->
  (forall n, 0 <= n -> requestBlock (Number n) = Reply (chain n) /\ number (chain n) = n) ->
  (Z.to_nat (number initialBlock) < fuel)%nat ->
  let incrementDistance := incrementDistanceFor estimateBlocksElapsed initialBlock ts in
  let asked := fun m : Z => Z.max 0 (number initialBlock - m * incrementDistance) in
  let loop := searchBackwards fuel initialBlock incrementDistance ts 1 st in
  1 <= incrementDistance
  /\ (exists k : nat,
        (1 <= k <= fuel)%nat
        /\ (forall m, 1 <= m < Z.of_nat k ->
              ts < timestamp (chain (asked m)) /\ 0 < asked m)
        /\ (timestamp (chain (asked (Z.of_nat k))) <= ts \/ asked (Z.of_nat k) = 0)
        /\ probes (fst loop)
           = probes st ++ probe_schedule (number initialBlock) incrementDistance k
        /\ Forall (fun n => 0 <= n)
                  (probe_schedule (number initialBlock) incrementDistance k)
        /\ snd loop
           = if timestamp (chain (asked (Z.of_nat k))) <=? ts then Ok tt
             else Throw (AssertionError "timestamp is before block 0"))
  /\ (exists rest, probes (fst (getBlockForTimestamp fuel ts st)) = probes (fst loop) ++ rest)
  /\ ((forall m n, 0 <= m <= n -> timestamp (chain m) <= timestamp (chain n)) ->
      ts < timestamp (chain 0) ->
      snd (getBlockForTimestamp fuel ts st)
      = Throw (AssertionError "timestamp is before block 0")).
Proof.
  intros H0 Hcache Hledger Hchain Hfuel inc asked loop.
  assert (1 <= inc) as Hinc by (subst inc; unfold incrementDistanceFor; lia).
  (* the query skips the request for the latest block and enters the loop *)
  assert (getBlockForTimestamp fuel ts st
             = bind (searchBackwards fuel initialBlock inc ts 1)
                    (fun _ => bind get (fun st' =>
                       findBlock fuel
                         (js_index (blocks st')
                            (Z.of_nat (Lodash.sortedIndexBy (blocks st') ts timestamp) - 1))
                         (js_index (blocks st')
                            (Z.of_nat (Lodash.sortedIndexBy (blocks st') ts timestamp)))
                         ts)) st) as Hquery.
  { unfold BlockFinder.getBlockForTimestamp.
    destruct (LodashFacts.latest_of_lookup _ _ _ H0) as (lastBlock & Hlatest & Hlast & _).
    pose proof (Forall_lookup_1 _ _ _ _ Hcache Hlast) as Hts_last.
    pose proof (Forall_lookup_1 _ _ _ _ Hcache H0) as Hts_0. simpl in Hts_last, Hts_0.
    unfold bind at 1. unfold get at 1. unfold bind at 1.
    rewrite Hlatest.
    assert ((length (blocks st) =? 0)%nat = false) as ->.
    { apply Nat.eqb_neq. apply lookup_lt_Some in H0. lia. }
    assert ((timestamp lastBlock <? ts) = false) as -> by lia.
    cbn [orb]. unfold ret at 1. unfold bind at 1. unfold get at 1.
    rewrite H0.
    assert ((ts <? timestamp initialBlock) = true) as -> by lia.
    reflexivity. }
  split; [done|]. split; [|split].
  - destruct (searchBackwards_exact initialBlock inc ts chain Hchain Hinc fuel 1 st
                (fst loop) (snd loop) Hledger)
      as (j & Hj & Hmisses & Hstop & Hp & Hr); [nia|apply surjective_pairing|].
    exists (S j).
    replace (Z.of_nat (S j)) with (1 + Z.of_nat j) by lia.
    split; [lia|]. split; [exact Hmisses|]. split; [exact Hstop|].
    split; [|split; [|exact Hr]].
    + exact Hp.
    + unfold probe_schedule. apply Forall_map, Forall_forall. intros m _. simpl. lia.
  - rewrite Hquery. unfold bind at 1. fold loop.
    destruct loop as [st1 [[]|err|c|]]; cbn [fst]; try (exists []; by rewrite app_nil_r).
    unfold bind, get. apply findBlock_probes.
  - intros Hmono Hgenesis.
    rewrite Hquery. unfold bind at 1.
    pose proof (searchBackwards_before_genesis initialBlock inc ts fuel Hinc) as Hloop.
    specialize (Hloop (fun n Hn => ex_intro _ (chain n)
                         (conj (proj1 (Hchain n Hn))
                               (Z.lt_le_trans _ _ _ Hgenesis
                                  (Hmono 0 n (conj (Z.le_refl 0) Hn)))))
                      1 st Hcache).
    rewrite (surjective_pairing (searchBackwards fuel initialBlock inc ts 1 st)).
    rewrite Hloop; [done|nia].
Qed.

(** C4, as the code has it.  A cached block [b] that is the first of the
    cache to carry its timestamp is what a query for that timestamp
    returns, the cache being sorted; no request is made and the cache is
    left as it was.  This covers the earliest cached block, a cache whose
    timestamps differ pairwise, and the block [BlockHistory.insert] has
    just placed. *)
Theorem blockAt_roundtrip :
  (forall (fuel : nat) (st : state) (b : Block) (i : nat),
      sorted_by timestamp (blocks st) ->
      blocks st !! i = Some b ->
      (forall j x, (j < i)%nat -> blocks st !! j = Some x -> timestamp x < timestamp b) ->
      getBlockForTimestamp (S fuel) (timestamp b) st = (st, Ok b))
  /\ (forall (cache : list Block) (b : Block) (i : nat),
        sorted_by timestamp cache ->
        cache !! i = Some b ->
        (forall j x, (j < i)%nat -> cache !! j = Some x -> timestamp x < timestamp b) ->
        BlockHistory.getClosestBefore cache (timestamp b) = Some b)
  /\ (forall (cache : list Block) (b : Block),
        sorted_by timestamp cache ->
        BlockHistory.getClosestBefore (BlockHistory.insert cache b) (timestamp b) = Some b).
Proof.
  assert (forall (cache : list Block) (b : Block) (i : nat),
             sorted_by timestamp cache ->
             cache !! i = Some b ->
             (forall j x, (j < i)%nat -> cache !! j = Some x -> timestamp x < timestamp b) ->
             BlockHistory.getClosestBefore cache (timestamp b) = Some b) as Hclosest.
  { intros cache b i Hs Hi Hfirst. unfold BlockHistory.getClosestBefore.
    rewrite (LodashFacts.sortedIndexBy_first timestamp cache i b Hs Hi Hfirst).
    rewrite LodashFacts.js_index_of_nat, Hi. by rewrite Z.eqb_refl. }
  split; [|split; [exact Hclosest|]].
  - intros fuel st b i Hs Hi Hfirst.
    destruct (LodashFacts.latest_of_lookup _ _ _ Hi) as (lastBlock & Hlatest & Hlast & Hle).
    destruct (lookup_lt_is_Some_2 (blocks st) 0) as [initialBlock H0];
      [apply lookup_lt_Some in Hi; lia|].
    pose proof (LodashFacts.sorted_by_lookup timestamp _ _ _ _ _ Hs Hle Hi Hlast) as Hb_last.
    pose proof (LodashFacts.sorted_by_lookup timestamp _ 0 i _ _ Hs (Nat.le_0_l i) H0 Hi)
      as H0_b.
    unfold BlockFinder.getBlockForTimestamp. unfold_M.
    rewrite Hlatest.
    assert ((length (blocks st) =? 0)%nat = false) as ->.
    { apply Nat.eqb_neq. apply lookup_lt_Some in Hi. lia. }
    assert ((timestamp lastBlock <? timestamp b) = false) as -> by lia.
    cbn [orb]. rewrite H0.
    assert ((timestamp b <? timestamp initialBlock) = false) as -> by lia.
    rewrite (LodashFacts.sortedIndexBy_first timestamp _ i b Hs Hi Hfirst).
    rewrite LodashFacts.js_index_of_nat, Hi.
    cbn [BlockFinder.findBlock]. by rewrite Z.eqb_refl.
  - intros cache b Hs.
    set (r := Lodash.sortedIndexBy cache (timestamp b) timestamp).
    destruct (LodashFacts.sortedIndexBy_spec timestamp cache (timestamp b) Hs)
      as (Hlen & Hlo & _). fold r in Hlen, Hlo.
    apply (Hclosest _ b r).
    + by apply BlockHistoryFacts.insert_sorted.
    + unfold BlockHistory.insert, splice_insert. fold r.
      rewrite lookup_app_r by (rewrite length_take; lia).
      rewrite length_take. by replace (r - r `min` length cache)%nat with 0%nat by lia.
    + intros j x Hj Hx. unfold BlockHistory.insert, splice_insert in Hx. fold r in Hx.
      rewrite lookup_app_l in Hx by (rewrite length_take; lia).
      apply lookup_take_Some in Hx as [Hx _]. by apply (Hlo j).
Qed.

End WithChain.

(** C5 on the ledger of one block a second: the bracket of blocks 9 and 16
    around timestamp 1010. *)
Lemma findBlock_terminates_witness :
  search_ended Fixtures.ledger1 1010
    (snd (BlockFinder.findBlock Fixtures.ledger1 Fixtures.exactShare 7
            (Some (mkBlock 9 1009)) (Some (mkBlock 16 1016)) 1010
            (mkState [mkBlock 9 1009; mkBlock 16 1016] []))).
Proof.
  assert (answers_by_number Fixtures.ledger1) as Hreq
    by (intros n b [= <-]; reflexivity).
  destruct (findBlock_terminates Fixtures.ledger1 Fixtures.exactShare (mkBlock 9 1009) (mkBlock 16 1016) 1010
              Hreq) as (H & _ & _); [simpl; lia|simpl; lia|].
  apply H. simpl. lia.
Defined.

(** C3 on the ledger of one block a second: the cache holds block 100 and
    the query is for timestamp 1010. *)
Lemma backward_search_constant_increment_witness :
  let chain := fun n : Z => mkBlock n (1000 + n) in
  let asked := fun m : Z => Z.max 0 (100 - m * 7) in
  let loop := BlockFinder.searchBackwards Fixtures.ledger1 101 (mkBlock 100 1100) 7 1010 1
                (mkState [mkBlock 100 1100] []) in
  exists k : nat,
    (1 <= k <= 101)%nat
    /\ (forall m, 1 <= m < Z.of_nat k ->
          1010 < timestamp (chain (asked m)) /\ 0 < asked m)
    /\ (timestamp (chain (asked (Z.of_nat k))) <= 1010 \/ asked (Z.of_nat k) = 0)
    /\ probes (fst loop) = [] ++ probe_schedule 100 7 k
    /\ Forall (fun n => 0 <= n) (probe_schedule 100 7 k)
    /\ snd loop
       = if timestamp (chain (asked (Z.of_nat k))) <=? 1010 then Ok tt
         else Throw (AssertionError "timestamp is before block 0").
Proof.
  destruct (backward_search_constant_increment Fixtures.ledger1 Fixtures.estimate13 Fixtures.exactShare
              101 (mkState [mkBlock 100 1100] []) (mkBlock 100 1100) 1010
              (fun n : Z => mkBlock n (1000 + n))) as (_ & H & _).
  - reflexivity.
  - apply Forall_cons_2; [cbn; lia|apply Forall_nil_2].
  - apply Forall_cons_2; [reflexivity|apply Forall_nil_2].
  - intros n _. split; reflexivity.
  - cbn. lia.
  - exact H.
Defined.

(** On that ledger the loop asks for thirteen blocks, from block 93 down to
    block 9, the first one that is not later than the query. *)
Example backward_search_probes :
  BlockFinder.searchBackwards Fixtures.ledger1 101 (mkBlock 100 1100) 7 1010 1
    (mkState [mkBlock 100 1100] [])
  = (mkState [mkBlock 9 1009; mkBlock 16 1016; mkBlock 23 1023; mkBlock 30 1030;
              mkBlock 37 1037; mkBlock 44 1044; mkBlock 51 1051; mkBlock 58 1058;
              mkBlock 65 1065; mkBlock 72 1072; mkBlock 79 1079; mkBlock 86 1086;
              mkBlock 93 1093; mkBlock 100 1100]
             [93; 86; 79; 72; 65; 58; 51; 44; 37; 30; 23; 16; 9],
     Ok tt).
Proof. vm_compute. reflexivity. Qed.

(** C3 as stated fails: on that ledger the loop asks for blocks 93, 86, 79,
    ..., at distances 7, 14, 21, ... from block 100; the distance is not
    doubled from one miss to the next. *)
Lemma backward_search_does_not_double :
  ~ doubling 100
      (probes (fst (BlockFinder.searchBackwards Fixtures.ledger1 20 (mkBlock 100 1100)
                      (incrementDistanceFor Fixtures.estimate13 (mkBlock 100 1100) 1010)
                      1010 1 (mkState [mkBlock 100 1100] [])))).
Proof.
  intros H. specialize (H 1%nat 86 79 eq_refl eq_refl). lia.
Qed.

(** C4 at concrete caches. *)
Lemma blockAt_roundtrip_witness :
  BlockFinder.getBlockForTimestamp Fixtures.ledger1 Fixtures.estimate13 Fixtures.exactShare 1 1016
    (mkState [mkBlock 9 1009; mkBlock 16 1016; mkBlock 100 1100] [])
  = (mkState [mkBlock 9 1009; mkBlock 16 1016; mkBlock 100 1100] [], Ok (mkBlock 16 1016))
  /\ BlockHistory.getClosestBefore [mkBlock 9 1009; mkBlock 16 1016] 1009
     = Some (mkBlock 9 1009)
  /\ BlockHistory.getClosestBefore
       (BlockHistory.insert [mkBlock 1 100; mkBlock 3 300] (mkBlock 2 100)) 100
     = Some (mkBlock 2 100).
Proof.
  destruct (blockAt_roundtrip Fixtures.ledger1 Fixtures.estimate13 Fixtures.exactShare) as (H1 & H2 & H3).
  assert (forall l : list Block,
             l = [mkBlock 9 1009; mkBlock 16 1016; mkBlock 100 1100] \/
             l = [mkBlock 9 1009; mkBlock 16 1016] \/
             l = [mkBlock 1 100; mkBlock 3 300] ->
             sorted_by timestamp l) as Hsorted.
  { intros l [->|[->| ->]]; unfold sorted_by; repeat constructor; simpl; lia. }
  split; [|split].
  - apply (H1 0%nat (mkState [mkBlock 9 1009; mkBlock 16 1016; mkBlock 100 1100] [])
              (mkBlock 16 1016) 1%nat).
    + apply Hsorted. auto.
    + reflexivity.
    + intros [|j] x Hj Hx; [|lia].
      simpl in Hx. inversion Hx. simpl. lia.
  - apply (H2 [mkBlock 9 1009; mkBlock 16 1016] (mkBlock 9 1009) 0%nat).
    + apply Hsorted. auto.
    + reflexivity.
    + intros j x Hj. lia.
  - apply (H3 [mkBlock 1 100; mkBlock 3 300] (mkBlock 2 100)).
    apply Hsorted. auto.
Defined.

(** C4 as stated fails when two cached blocks carry one timestamp: the
    query returns the first of them, whichever of them was asked about. *)
Lemma blockAt_returns_first_of_equal_timestamps :
  ~ (forall (st : state) (b : Block),
       sorted_by timestamp (blocks st) -> sorted_by number (blocks st) ->
       b ∈ blocks st ->
       snd (BlockFinder.getBlockForTimestamp Fixtures.ledger1 Fixtures.estimate13 Fixtures.exactShare 1
              (timestamp b) st) = Ok b).
Proof.
  intros H.
  specialize (H (mkState [mkBlock 1 100; mkBlock 2 100] []) (mkBlock 2 100)).
  assert (Ok (mkBlock 1 100) = Ok (mkBlock 2 100)) as Habs; [|discriminate Habs].
  apply H.
  - unfold sorted_by. repeat constructor; simpl; lia.
  - unfold sorted_by. repeat constructor; simpl; lia.
  - simpl. apply elem_of_cons. right. apply elem_of_cons. by left.
Qed.

End BlockFinderFacts.

(** ** The liquidator's execution loop *)
Module LiquidatorFacts.
Import Liquidator.

Lemma count_app (p : event -> bool) (tr1 tr2 : list event) :
  count p (tr1 ++ tr2) = (count p tr1 + count p tr2)%nat.
Proof. induction tr1 as [|e tr1 IH]; simpl; [done|]. rewrite IH. lia. Qed.

Lemma timers_app (tr1 tr2 : list event) :
  timers (tr1 ++ tr2) = timers tr1 ++ timers tr2.
Proof.
  induction tr1 as [|e tr1 IH]; [done|].
  destruct e; cbn [app timers]; by rewrite ?IH.
Qed.

Section WithCollaborators.
Context {World : Type} (cfg : Config) (env : Collaborators World).

Lemma bind_ok {A B} (c : M (state World) A) (k : A -> M (state World) B)
    (st st1 : state World) (a : A) :
  c st = (st1, Ok a) -> bind c k st = k a st1.
Proof. unfold bind. by intros ->. Qed.

Lemma bind_throw {A B} (c : M (state World) A) (k : A -> M (state World) B)
    (st st1 : state World) (e : error) :
  c st = (st1, Throw e) -> bind c k st = (st1, Throw e).
Proof. unfold bind. by intros ->. Qed.

Lemma start_answers {A} (op : operation) (c : Ext World A)
    (st : state World) (a : A) (w' : World) :
  answers c (world st) a w' ->
  start op c st = (mkState w' (trace st ++ [EvCall op]), Ok (Reply a)).
Proof. unfold start, answers. by intros ->. Qed.

Lemma perform_answers {A} (op : operation) (c : Ext World A)
    (st : state World) (a : A) (w' : World) :
  answers c (world st) a w' ->
  perform op c st = (mkState w' (trace st ++ [EvCall op]), Ok a).
Proof.
  intros H. unfold perform. by rewrite (bind_ok _ _ _ _ _ (start_answers op c st a w' H)).
Qed.

(** What a call adds to the trace, and how it settles. *)
Lemma perform_cases {A} (op : operation) (c : Ext World A) (st : state World) :
  exists w',
    (exists a, perform op c st = (mkState w' (trace st ++ [EvCall op]), Ok a))
    \/ (exists e, perform op c st = (mkState w' (trace st ++ [EvCall op]), Throw e)).
Proof.
  unfold perform, start, bind, await, call.
  destruct (c (world st)) as [w' [a|e]]; exists w'; cbn; [left|right]; by eexists.
Qed.

(** The function handed to [retry] calls [liquidator.update()] once, sets
    no timer, and returns or throws. *)
Lemma cycleBody_trace (b : bool) (st : state World) :
  exists tr,
    trace (fst (cycleBody cfg env b st)) = trace st ++ tr
    /\ count is_update tr = 1%nat
    /\ timers tr = []
    /\ (snd (cycleBody cfg env b st) = Ok tt
        \/ exists e, snd (cycleBody cfg env b st) = Throw e).
Proof.
  unfold cycleBody, perform, start, bind, await, call, ret.
  destruct (liquidator_update env (world st)) as [w1 [[]|e1]]; cbn;
    [|exists [EvCall LiquidatorUpdate]; repeat split; right; by eexists].
  destruct b; cbn.
  - destruct (withdrawRewards env w1) as [w2 [[]|e2]]; cbn;
      exists [EvCall LiquidatorUpdate; EvCall WithdrawRewards];
      (split; [by rewrite <- app_assoc|]); repeat split; [by left|right; by eexists].
  - destruct (getEffectiveSyntheticTokenBalance env w1) as [w2 [balance|e2]]; cbn;
      [|exists [EvCall LiquidatorUpdate; EvCall GetEffectiveSyntheticTokenBalance];
        (split; [by rewrite <- app_assoc|]); repeat split; right; by eexists].
    destruct (liquidatePositions env balance (liquidatorOverridePrice cfg) w2)
      as [w3 [[]|e3]]; cbn;
      [|exists [EvCall LiquidatorUpdate; EvCall GetEffectiveSyntheticTokenBalance;
                EvCall (LiquidatePositions balance (liquidatorOverridePrice cfg))];
        (split; [by rewrite <- !app_assoc|]); repeat split; right; by eexists].
    destruct (withdrawRewards env w3) as [w4 [[]|e4]]; cbn;
      exists [EvCall LiquidatorUpdate; EvCall GetEffectiveSyntheticTokenBalance;
              EvCall (LiquidatePositions balance (liquidatorOverridePrice cfg));
              EvCall WithdrawRewards];
      (split; [by rewrite <- !app_assoc|]); repeat split; [by left|right; by eexists].
Qed.

Section Retry.
Context {A : Type} (fn : M (state World) A).

(** One round of the retry package. *)
Lemma attempts_unfold (remaining : list Z) (errors : list error) (num : nat)
    (st : state World) :
  attempts env remaining errors num onRetry fn st
  = match fn st with
    | (st1, Throw err) =>
        match remaining with
        | [] => (st1, Throw (mainError env errors err))
        | timeout :: remaining' =>
            attempts env remaining' (errors ++ [err]) (S num) onRetry fn
              (mkState (world st1)
                 ((trace st1 ++ [EvTimer timeout])
                  ++ [EvLog Debug "An error was thrown in the execution loop - retrying"]))
        end
    | other => other
    end.
Proof.
  destruct remaining as [|timeout remaining']; cbn [attempts];
    unfold try_catch at 1; destruct (fn st) as [st1 [a|err|code|]]; reflexivity.
Qed.

End Retry.

(** A body that throws at every attempt: one attempt more than there are
    timeouts, a timer of each timeout in their order, and the error thrown
    at the end. *)
Lemma attempts_exhausted (b : bool) :
  (forall st, exists e, snd (cycleBody cfg env b st) = Throw e) ->
  forall (remaining : list Z) (errors : list error) (num : nat) (st : state World),
    exists tr st' e,
      attempts env remaining errors num onRetry (cycleBody cfg env b) st = (st', Throw e)
      /\ trace st' = trace st ++ tr
      /\ count is_update tr = S (length remaining)
      /\ timers tr = remaining.
Proof.
  intros Hfails timeouts.
  induction timeouts as [|timeout timeouts IH]; intros errors num st;
    rewrite attempts_unfold;
    destruct (cycleBody_trace b st) as (tr1 & Htr1 & Hcount1 & Htimers1 & _);
    destruct (Hfails st) as [e He];
    destruct (cycleBody cfg env b st) as [st1 r1]; cbn [fst snd] in *; subst r1.
  - exists tr1, st1, (mainError env errors e). by repeat split.
  - destruct (IH (errors ++ [e]) (S num)
                (mkState (world st1)
                   ((trace st1 ++ [EvTimer timeout])
                    ++ [EvLog Debug "An error was thrown in the execution loop - retrying"])))
      as (tr & st' & e' & Hrun & Htr & Hcount & Htimers).
    exists (tr1 ++ [EvTimer timeout;
                    EvLog Debug "An error was thrown in the execution loop - retrying"]
                ++ tr), st', e'.
    split; [exact Hrun|]. split.
    { rewrite Htr. cbn [trace]. rewrite Htr1. by rewrite <- !app_assoc. }
    rewrite !count_app, !timers_app, Hcount1, Htimers1, Hcount, Htimers.
    cbn. split; [lia|reflexivity].
Qed.

Lemma timeouts_length (retries : nat) (minTimeout : Z) :
  length (timeouts retries minTimeout) = retries.
Proof. unfold timeouts. by rewrite length_map, length_seq. Qed.

(** How [main] ends, from how [run] ends. *)
Lemma main_of_run (fuel : nat) (st st1 : state World) (r : result unit) :
  contractAddressSet cfg = true ->
  run cfg env fuel st = (st1, r) ->
  main cfg env fuel st
  = match r with
    | Ok _ => (st1, Exit 0)
    | Throw e =>
        (mkState (world st1)
           (trace st1 ++ [EvLog Error_ "Liquidator execution error"; EvWaitForLogger;
                          EvConsoleError]),
         Exit 1)
    | Exit code => (st1, Exit code)
    | OutOfFuel => (st1, OutOfFuel)
    end.
Proof.
  intros Hset Hrun. unfold main, Poll, nodeCallback. rewrite Hset.
  unfold try_catch at 1. unfold bind at 1. unfold try_catch at 1.
  unfold bind at 1. unfold ret at 1. rewrite Hrun.
  destruct r as [[]|e|code|]; try reflexivity.
  unfold logger, emit, modify, bind, call. cbn. by rewrite <- !app_assoc.
Qed.

Lemma run_of_startUp (fuel : nat) (st st1 : state World) (type : option string) :
  startUp cfg env st = (st1, Ok type) ->
  run cfg env fuel st
  = match executionLoop cfg env fuel type st1 with
    | (st2, Throw e) => (st2, Throw e)
    | other => other
    end.
Proof.
  intros Hstart. unfold run, try_catch, throw.
  by rewrite (bind_ok _ _ _ _ _ Hstart).
Qed.

Lemma attempts_ok {A} (fn : M (state World) A) (remaining : list Z) (errors : list error)
    (num : nat) (st st' : state World) (a : A) :
  fn st = (st', Ok a) ->
  attempts env remaining errors num onRetry fn st = (st', Ok a).
Proof. intros H. rewrite attempts_unfold. by rewrite H. Qed.

Lemma check_answers (type : option string) (w w1 w2 : World) (tr0 : list event)
    (expiration now : Z) :
  answers (contractRead env (expirationMethod type)) w expiration w1 ->
  answers (contractRead env "getCurrentTime") w1 now w2 ->
  checkIsExpiredOrShutdownPromise env type (mkState w tr0)
  = (mkState w2
       (tr0 ++ [EvCall (ContractRead (expirationMethod type));
                EvCall (ContractRead "getCurrentTime")]
            ++ (if (expiration <=? now) && (0 <? expiration)
                then [EvLog Info (expiredMessage type)] else [])),
     Ok ((expiration <=? now) && (0 <? expiration))).
Proof.
  intros H1 H2. unfold checkIsExpiredOrShutdownPromise.
  rewrite (bind_ok _ _ _ _ _ (start_answers _ _ (mkState w tr0) _ _ H1)).
  rewrite (bind_ok _ _ _ _ _ (start_answers _ _ (mkState w1 _) _ _ H2)).
  unfold await, call, result_of. unfold bind at 1 2.
  destruct ((expiration <=? now) && (0 <? expiration)).
  - unfold logger, emit, modify, bind, ret. cbn [world trace].
    by rewrite <- !app_assoc.
  - unfold ret. cbn [trace]. by rewrite <- !app_assoc, app_nil_r.
Qed.

(** A pass in which every call is answered: the check, then the cycle at its
    first attempt. *)
Lemma onePass_runs (type : option string) (w : World) (tr : list event) (w' : World) :
  onePass cfg env type w tr w' ->
  forall tr0 : list event,
    bind (checkIsExpiredOrShutdownPromise env type) (fun b => cycle cfg env b)
         (mkState w tr0)
    = (mkState w' (tr0 ++ tr), Ok tt).
Proof.
  intros Hpass tr0.
  destruct Hpass as [w1 w2 w3 w4 w5 expiration now balance H1 H2 Hlive H3 H4 H5 w' H6
                    |w1 w2 w3 expiration now H1 H2 Hexpired H3 w' H4];
    rewrite (bind_ok _ _ _ _ _ (check_answers type w w1 w2 tr0 expiration now H1 H2)).
  - rewrite Hlive.
    unfold cycle, retry. apply attempts_ok.
    unfold cycleBody. cbn [negb].
    rewrite (bind_ok _ _ _ _ _ (perform_answers _ _ (mkState w2 _) _ _ H3)).
    cbn [world trace].
    assert (forall tr1 : list event,
              bind (perform GetEffectiveSyntheticTokenBalance
                      (getEffectiveSyntheticTokenBalance env))
                   (fun currentSyntheticBalance =>
                      perform (LiquidatePositions currentSyntheticBalance
                                 (liquidatorOverridePrice cfg))
                              (liquidatePositions env currentSyntheticBalance
                                 (liquidatorOverridePrice cfg)))
                   (mkState w3 tr1)
              = (mkState w5
                   ((tr1 ++ [EvCall GetEffectiveSyntheticTokenBalance])
                    ++ [EvCall (LiquidatePositions balance (liquidatorOverridePrice cfg))]),
                 Ok tt)) as Hliquidate.
    { intros tr1.
      rewrite (bind_ok _ _ _ _ _ (perform_answers _ _ (mkState w3 tr1) _ _ H4)).
      by rewrite (perform_answers _ _ (mkState w4 _) _ _ H5). }
    rewrite (bind_ok _ _ _ _ _ (Hliquidate _)).
    rewrite (perform_answers _ _ (mkState w5 _) _ _ H6).
    cbn [trace]. by rewrite <- !app_assoc.
  - rewrite Hexpired.
    unfold cycle, retry. apply attempts_ok.
    unfold cycleBody. cbn [negb].
    rewrite (bind_ok _ _ _ _ _ (perform_answers _ _ (mkState w2 _) _ _ H3)).
    unfold ret at 1. unfold bind at 1.
    rewrite (perform_answers _ _ (mkState w3 _) _ _ H4).
    cbn [trace]. by rewrite <- !app_assoc.
Qed.

Lemma passes_run (type : option string) (n : nat) (w : World) (tr : list event) (w' : World) :
  pollingDelay cfg <> 0 ->
  passes cfg env type n w tr w' ->
  forall tr0 : list event,
    executionLoop cfg env n type (mkState w tr0) = (mkState w' (tr0 ++ tr), OutOfFuel).
Proof.
  intros Hdelay Hpasses.
  induction Hpasses as [w|n w tr1 w1 tr w' Hpass _ IH]; intros tr0.
  - cbn. by rewrite app_nil_r.
  - cbn [executionLoop].
    pose proof (onePass_runs type w tr1 w1 Hpass tr0) as Hrun.
    unfold bind at 1 in Hrun. unfold bind at 1 2.
    destruct (checkIsExpiredOrShutdownPromise env type (mkState w tr0))
      as [st1 [b|e|code|]]; try discriminate Hrun.
    rewrite Hrun.
    rewrite (proj2 (Z.eqb_neq _ _) Hdelay).
    unfold logger, emit, modify. unfold bind at 1 2. cbn [world trace].
    rewrite IH. by rewrite <- !app_assoc.
Qed.

(** C6, as the code has it.  After a start-up and an expiry check that
    went well, a cycle whose body throws at every attempt calls
    [liquidator.update()], the first call of the body, one time more than
    [errorRetries]; between two attempts the retry package sets one timer,
    the [k]-th of [minTimeout * 2^(k-1)] milliseconds with
    [minTimeout = errorRetriesTimeout * 1000]: the delay doubles from one
    retry to the next.  The error then leaves [run], is logged by [Poll],
    and the process exits with status 1. *)
Theorem retry_bound (fuel : nat) (st st1 st2 : state World) (type : option string)
    (expired : bool) :
  contractAddressSet cfg = true ->
  0 < errorRetriesTimeout cfg ->
  startUp cfg env st = (st1, Ok type) ->
  checkIsExpiredOrShutdownPromise env type st1 = (st2, Ok expired) ->
  (forall st, exists e, snd (cycleBody cfg env expired st) = Throw e) ->
  exists tr st',
    main cfg env (S fuel) st = (st', Exit 1)
    /\ trace st'
       = trace st2 ++ tr
         ++ [EvLog Error_ "Liquidator execution error"; EvWaitForLogger; EvConsoleError]
    /\ count is_update tr = S (errorRetries cfg)
    /\ timers tr
       = map (fun k : nat => errorRetriesTimeout cfg * 1000 * 2 ^ Z.of_nat k)
             (seq 0 (errorRetries cfg)).
Proof.
  intros Hset Htimeout Hstart Hcheck Hfails.
  destruct (attempts_exhausted expired Hfails
              (timeouts (errorRetries cfg) (errorRetriesTimeout cfg * 1000)) [] 1 st2)
    as (tr & st' & e & Hcycle & Htr & Hcount & Htimers).
  exists tr.
  eexists. split.
  - rewrite (main_of_run (S fuel) st st' (Throw e) Hset); [reflexivity|].
    rewrite (run_of_startUp (S fuel) st st1 type Hstart).
    cbn [executionLoop].
    rewrite (bind_ok _ _ _ _ _ Hcheck).
    unfold cycle, retry. by rewrite (bind_throw _ _ _ _ _ Hcycle).
  - cbn [trace]. split; [by rewrite Htr, <- app_assoc|].
    split; [by rewrite Hcount, timeouts_length|].
    rewrite Htimers. unfold timeouts.
    by replace (Z.max (errorRetriesTimeout cfg * 1000) 1)
      with (errorRetriesTimeout cfg * 1000) by lia.
Qed.


End WithCollaborators.

(** C6 with three retries of one second: four calls of
    [liquidator.update()], which is rejected every time, and timers of one,
    two and four seconds. *)
Lemma retry_bound_witness :
  exists tr st',
    main (mkConfig true 60 3 1 None None None false) (Fixtures.liquidatorEnv true) 1
         (mkState tt [])
    = (st', Exit 1)
    /\ trace st'
       = trace (fst (checkIsExpiredOrShutdownPromise (Fixtures.liquidatorEnv true)
                       (Some "ExpiringMultiParty")
                       (fst (startUp (mkConfig true 60 3 1 None None None false)
                               (Fixtures.liquidatorEnv true) (mkState tt [])))))
         ++ tr
         ++ [EvLog Error_ "Liquidator execution error"; EvWaitForLogger; EvConsoleError]
    /\ count is_update tr = 4%nat
    /\ timers tr = [1000; 2000; 4000].
Proof.
  apply (retry_bound (mkConfig true 60 3 1 None None None false)
           (Fixtures.liquidatorEnv true) 0 (mkState tt [])
           (fst (startUp (mkConfig true 60 3 1 None None None false)
                   (Fixtures.liquidatorEnv true) (mkState tt [])))
           (fst (checkIsExpiredOrShutdownPromise (Fixtures.liquidatorEnv true)
                   (Some "ExpiringMultiParty")
                   (fst (startUp (mkConfig true 60 3 1 None None None false)
                           (Fixtures.liquidatorEnv true) (mkState tt [])))))
           (Some "ExpiringMultiParty") false).
  - reflexivity.
  - cbn. lia.
  - vm_compute. reflexivity.
  - vm_compute. reflexivity.
  - intros [[] tr]. exists (Rejected "network"). reflexivity.
Defined.

(** The whole of that run: the start-up, the check, four attempts with
    three timers between them, and the exit. *)
Example retry_run :
  main (mkConfig true 60 3 1 None None None false) (Fixtures.liquidatorEnv true) 1
       (mkState tt [])
  = (mkState tt
       [EvLog Info "Liquidator started";
        EvCall FindContractVersion; EvCall GetAccounts; EvCall GetNetworkId;
        EvCall (Construct "financialContract");
        EvCall (ContractRead "collateralRequirement");
        EvCall (ContractRead "priceIdentifier");
        EvCall (ContractRead "minSponsorTokens");
        EvCall (ContractRead "collateralCurrency");
        EvCall (ContractRead "tokenCurrency");
        EvCall (ContractRead "withdrawalLiveness");
        EvCall (Construct "collateralToken"); EvCall (Construct "syntheticToken");
        EvCall (TokenDecimals Collateral); EvCall (TokenDecimals Synthetic);
        EvCall CreatePriceFeed;
        EvCall (Construct "FinancialContractClient");
        EvCall (Construct "GasEstimator"); EvCall GasEstimatorUpdate;
        EvCall (Construct "ProxyTransactionWrapper"); EvCall (Construct "Liquidator");
        EvLog Debug "Liquidator initialized";
        EvCall (SetAllowance Collateral); EvCall (SetAllowance Synthetic);
        EvCall (ContractRead "expirationTimestamp"); EvCall (ContractRead "getCurrentTime");
        EvCall LiquidatorUpdate;
        EvTimer 1000;
        EvLog Debug "An error was thrown in the execution loop - retrying";
        EvCall LiquidatorUpdate;
        EvTimer 2000;
        EvLog Debug "An error was thrown in the execution loop - retrying";
        EvCall LiquidatorUpdate;
        EvTimer 4000;
        EvLog Debug "An error was thrown in the execution loop - retrying";
        EvCall LiquidatorUpdate;
        EvLog Error_ "Liquidator execution error"; EvWaitForLogger; EvConsoleError],
     Exit 1).
Proof. vm_compute. reflexivity. Qed.


End LiquidatorFacts.

(** ** The proposer: a target without a price is skipped *)
Module ProposerFacts.
Import Proposer.

Section WithCollaborators.
Context {World Feed Receipt : Type} (env : Collaborators World Feed Receipt).

Local Abbreviation priceUnavailable := (Proposer.priceUnavailable env).

Lemma ask_frame {A} (c : Ext World A) (st st' : state World Feed) (r : result A) :
  ask c st = (st', r) ->
  logs st' = logs st /\ priceFeedCache st' = priceFeedCache st
  /\ submitted st' = submitted st.
Proof. unfold ask. destruct (c (world st)). by intros [= <- _]. Qed.

Lemma createOrGet_frame (id : string) (st st' : state World Feed) r :
  _createOrGetCachedPriceFeed env id st = (st', r) ->
  submitted st' = submitted st /\ exists pre, logs st' = logs st ++ pre.
Proof.
  unfold _createOrGetCachedPriceFeed, bind, get, logger, modify, ret.
  destruct (priceFeedCache st !! id) as [feed|].
  - intros [= <- _]. split; [done|]. exists []. by rewrite app_nil_r.
  - destruct (ask _ _) as [st1 r1] eqn:Hask.
    apply ask_frame in Hask as (Hlogs & _ & Hsub). simpl in Hlogs, Hsub.
    destruct r1 as [[feed|]| | |]; intros [= <- _]; simpl; eauto.
Qed.

Lemma shouldIgnore_frame (priceRequest : PriceRequest) (st st' : state World Feed) r :
  _shouldIgnorePriceRequest env priceRequest st = (st', r) ->
  submitted st' = submitted st.
Proof.
  unfold _shouldIgnorePriceRequest, bind, try_catch, logger, modify, ret.
  destruct (includes _ _); [by intros [= <- _]|].
  destruct (includes _ _); [|by intros [= <- _]].
  destruct (ask _ _) as [st1 r1] eqn:Hask.
  apply ask_frame in Hask as (_ & _ & Hsub).
  destruct r1 as [expiration| | |]; try (by intros [= <- _]).
  destruct (expiration <=? _); by intros [= <- _].
Qed.

Ltac skip_unavailable H :=
  destruct H as (feed & st1 & st2 & st3 & e & Hfeed & Hupdate & Hlookup);
  pose proof (createOrGet_frame _ _ _ _ Hfeed) as (Hsub1 & pre & Hlogs1);
  pose proof (ask_frame _ _ _ _ Hupdate) as (Hlogs2 & _ & Hsub2);
  pose proof (ask_frame _ _ _ _ Hlookup) as (Hlogs3 & _ & Hsub3);
  eexists _, pre; split; [|split];
  [ unfold bind at 1; rewrite Hfeed;
    unfold bind at 1; rewrite Hupdate;
    unfold bind at 1; unfold try_catch at 1; unfold bind at 1; rewrite Hlookup;
    unfold bind at 1; reflexivity
  | simpl; congruence
  | simpl; rewrite Hlogs3, Hlogs2, Hlogs1; by rewrite <- app_assoc ].

Lemma sendProposal_price_unavailable (priceRequest : PriceRequest) (st : state World Feed) :
  priceUnavailable priceRequest st ->
  exists st' pre,
    _sendProposal env priceRequest st = (st', Ok tt)
    /\ submitted st' = submitted st
    /\ logs st'
       = logs st ++ pre
         ++ [priceFailureLog "OptimisticOracleProposer#sendProposals" priceRequest].
Proof. intros H. unfold _sendProposal. skip_unavailable H. Qed.

Lemma sendDispute_price_unavailable (priceRequest : PriceRequest) (st : state World Feed) :
  priceUnavailable priceRequest st ->
  exists st' pre,
    _sendDispute env priceRequest st = (st', Ok tt)
    /\ submitted st' = submitted st
    /\ logs st'
       = logs st ++ pre
         ++ [priceFailureLog "OptimisticOracleProposer#sendDisputes" priceRequest].
Proof. intros H. unfold _sendDispute. skip_unavailable H. Qed.

Lemma forRequests_cons (send : PriceRequest -> M (state World Feed) unit)
    (priceRequest : PriceRequest) (rest : list PriceRequest) (st0 st st' : state World Feed) :
  _shouldIgnorePriceRequest env priceRequest st0 = (st, Ok false) ->
  send priceRequest st = (st', Ok tt) ->
  forRequests env send (priceRequest :: rest) st0 = forRequests env send rest st'.
Proof.
  intros Hignore Hsend. cbn [forRequests].
  unfold bind at 1. rewrite Hignore. unfold bind at 1. by rewrite Hsend.
Qed.

(** C8: a request that is not ignored and whose historical price lookup
    throws is skipped by either loop.  The sender returns normally, having
    handed no transaction to [runTransaction] and having logged the failure
    as its last entry; the loop then goes on with the remaining requests. *)
Theorem price_unavailable_is_skipped
    (priceRequest : PriceRequest) (rest : list PriceRequest) (st0 st : state World Feed) :
  _shouldIgnorePriceRequest env priceRequest st0 = (st, Ok false) ->
  priceUnavailable priceRequest st ->
  (exists st' pre,
      _sendProposal env priceRequest st = (st', Ok tt)
      /\ submitted st' = submitted st0
      /\ logs st'
         = logs st ++ pre
           ++ [priceFailureLog "OptimisticOracleProposer#sendProposals" priceRequest]
      /\ forRequests env (_sendProposal env) (priceRequest :: rest) st0
         = forRequests env (_sendProposal env) rest st')
  /\ (exists st' pre,
        _sendDispute env priceRequest st = (st', Ok tt)
        /\ submitted st' = submitted st0
        /\ logs st'
           = logs st ++ pre
             ++ [priceFailureLog "OptimisticOracleProposer#sendDisputes" priceRequest]
        /\ forRequests env (_sendDispute env) (priceRequest :: rest) st0
           = forRequests env (_sendDispute env) rest st').
Proof.
  intros Hignore Hprice.
  pose proof (shouldIgnore_frame _ _ _ _ Hignore) as Hsub0.
  split.
  - destruct (sendProposal_price_unavailable _ _ Hprice) as (st' & pre & Hsend & Hsub & Hlogs).
    exists st', pre. repeat split; [done|congruence|done|].
    by apply (forRequests_cons _ _ _ st0 st st').
  - destruct (sendDispute_price_unavailable _ _ Hprice) as (st' & pre & Hsend & Hsub & Hlogs).
    exists st', pre. repeat split; [done|congruence|done|].
    by apply (forRequests_cons _ _ _ st0 st st').
Qed.

End WithCollaborators.

(** C8 on a feed without a price at the timestamp of the first request: no
    transaction for it, and the second request is proposed for. *)
Lemma price_unavailable_is_skipped_witness :
  (exists st' pre,
      _sendProposal Fixtures.proposerEnv Fixtures.earlyRequest (mkState tt [] ∅ [])
      = (st', Ok tt)
      /\ submitted st' = []
      /\ logs st'
         = [] ++ pre
           ++ [priceFailureLog "OptimisticOracleProposer#sendProposals"
                               Fixtures.earlyRequest]
      /\ forRequests Fixtures.proposerEnv (_sendProposal Fixtures.proposerEnv)
           [Fixtures.earlyRequest; Fixtures.lateRequest] (mkState tt [] ∅ [])
         = forRequests Fixtures.proposerEnv (_sendProposal Fixtures.proposerEnv)
             [Fixtures.lateRequest] st')
  /\ (exists st' pre,
        _sendDispute Fixtures.proposerEnv Fixtures.earlyRequest (mkState tt [] ∅ [])
        = (st', Ok tt)
        /\ submitted st' = []
        /\ logs st'
           = [] ++ pre
             ++ [priceFailureLog "OptimisticOracleProposer#sendDisputes"
                                 Fixtures.earlyRequest]
        /\ forRequests Fixtures.proposerEnv (_sendDispute Fixtures.proposerEnv)
             [Fixtures.earlyRequest; Fixtures.lateRequest] (mkState tt [] ∅ [])
           = forRequests Fixtures.proposerEnv (_sendDispute Fixtures.proposerEnv)
               [Fixtures.lateRequest] st').
Proof.
  apply (price_unavailable_is_skipped Fixtures.proposerEnv Fixtures.earlyRequest
           [Fixtures.lateRequest] (mkState tt [] ∅ []) (mkState tt [] ∅ [])).
  - reflexivity.
  - unfold priceUnavailable. eexists tt, _, _, _, _. split; [|split].
    + vm_compute. reflexivity.
    + reflexivity.
    + reflexivity.
Defined.

(** The same two requests through the loop: one transaction, for the
    request that has a price. *)
Example proposals_after_a_skipped_request :
  submitted (fst (forRequests Fixtures.proposerEnv (_sendProposal Fixtures.proposerEnv)
                    [Fixtures.earlyRequest; Fixtures.lateRequest] (mkState tt [] ∅ [])))
  = [ProposePrice "0xEMP" "ETHUSD" 2000 "0x" 5].
Proof. vm_compute. reflexivity. Qed.

End ProposerFacts.

(** ** BlockHistory: the queries, failed updates, and what is never removed *)
Module BlockHistoryQueries.

Lemma js_index_pred {A} (l : list A) (r : nat) :
  js_index l (Z.of_nat r - 1) = match r with O => None | S r' => l !! r' end.
Proof.
  unfold js_index. destruct r as [|r'].
  - reflexivity.
  - destruct (Z.ltb_spec (Z.of_nat (S r') - 1) 0); [lia|].
    by replace (Z.to_nat (Z.of_nat (S r') - 1)) with r' by lia.
Qed.

(** X1: on a cache sorted by timestamp, [getClosestBefore] returns a cached
    block not later than the query that no cached block not later than the
    query exceeds; it returns [undefined] exactly when every cached block is
    later than the query (an empty cache included). *)
Theorem getClosestBefore_floor (cache : list Block) (ts : Z) :
  sorted_by timestamp cache ->
  match BlockHistory.getClosestBefore cache ts with
  | Some b =>
      b ∈ cache /\ timestamp b <= ts
      /\ forall c, c ∈ cache -> timestamp c <= ts -> timestamp c <= timestamp b
  | None => forall c, c ∈ cache -> ts < timestamp c
  end.
Proof.
  intros Hs. unfold BlockHistory.getClosestBefore.
  destruct (LodashFacts.sortedIndexBy_spec timestamp cache ts Hs) as (Hlen & Hlo & Hhi).
  set (r := Lodash.sortedIndexBy cache ts timestamp) in *.
  rewrite LodashFacts.js_index_of_nat, js_index_pred.
  assert (forall b, cache !! r = Some b -> timestamp b <> ts ->
                    forall c, c ∈ cache -> timestamp c <= ts ->
                              exists j, (j < r)%nat /\ cache !! j = Some c) as Hbelow.
  { intros b Hb Hne c Hc Hle. apply list_elem_of_lookup in Hc as [j Hj].
    exists j. split; [|done].
    destruct (Nat.lt_ge_cases j r) as [|Hge]; [done|].
    pose proof (Hhi _ _ Hb (Nat.le_refl r)).
    pose proof (LodashFacts.sorted_by_lookup timestamp cache r j b c Hs Hge Hb Hj). lia. }
  assert (cache !! r = None ->
          forall c, c ∈ cache -> exists j, (j < r)%nat /\ cache !! j = Some c) as Hall.
  { intros Hnone c Hc. apply list_elem_of_lookup in Hc as [j Hj].
    exists j. split; [|done]. apply lookup_ge_None in Hnone.
    apply lookup_lt_Some in Hj. lia. }
  destruct (cache !! r) as [b|] eqn:Hb.
  - destruct (Z.eqb_spec (timestamp b) ts) as [Heq|Hne].
    + split; [by eapply list_elem_of_lookup_2|]. split; [lia|]. intros c _ Hc. lia.
    + destruct r as [|r'].
      * intros c Hc. destruct (Z.le_gt_cases (timestamp c) ts) as [Hle|]; [|lia].
        destruct (Hbelow b eq_refl Hne c Hc Hle) as (j & Hj & _). lia.
      * destruct (lookup_lt_is_Some_2 cache r') as [p Hp]; [lia|]. rewrite Hp.
        split; [by eapply list_elem_of_lookup_2|].
        split; [pose proof (Hlo _ _ Hp); lia|].
        intros c Hc Hle. destruct (Hbelow b eq_refl Hne c Hc Hle) as (j & Hj & Hjc).
        apply (LodashFacts.sorted_by_lookup timestamp cache j r' c p Hs); [lia|done|done].
  - destruct r as [|r'].
    + intros c Hc. destruct (Hall eq_refl c Hc) as (j & Hj & _). lia.
    + destruct (lookup_lt_is_Some_2 cache r') as [p Hp]; [lia|]. rewrite Hp.
      split; [by eapply list_elem_of_lookup_2|].
      split; [pose proof (Hlo _ _ Hp); lia|].
      intros c Hc _. destruct (Hall eq_refl c Hc) as (j & Hj & Hjc).
      apply (LodashFacts.sorted_by_lookup timestamp cache j r' c p Hs); [lia|done|done].
Qed.

(** X1 on a cache of three blocks, between two of them. *)
Lemma getClosestBefore_floor_witness :
  match BlockHistory.getClosestBefore [mkBlock 1 10; mkBlock 2 20; mkBlock 3 30] 25 with
  | Some b =>
      b ∈ [mkBlock 1 10; mkBlock 2 20; mkBlock 3 30] /\ timestamp b <= 25
      /\ forall c, c ∈ [mkBlock 1 10; mkBlock 2 20; mkBlock 3 30] ->
                   timestamp c <= 25 -> timestamp c <= timestamp b
  | None => forall c, c ∈ [mkBlock 1 10; mkBlock 2 20; mkBlock 3 30] -> 25 < timestamp c
  end.
Proof.
  apply (getClosestBefore_floor [mkBlock 1 10; mkBlock 2 20; mkBlock 3 30] 25).
  unfold sorted_by. repeat constructor; simpl; lia.
Defined.

(** X2: on a cache sorted by timestamp, [getClosestAfter] returns a cached
    block not earlier than the query that is not later than any cached block
    not earlier than the query; it returns [undefined] exactly when every
    cached block is earlier than the query. *)
Theorem getClosestAfter_ceiling (cache : list Block) (ts : Z) :
  sorted_by timestamp cache ->
  match BlockHistory.getClosestAfter cache ts with
  | Some b =>
      b ∈ cache /\ ts <= timestamp b
      /\ forall c, c ∈ cache -> ts <= timestamp c -> timestamp b <= timestamp c
  | None => forall c, c ∈ cache -> timestamp c < ts
  end.
Proof.
  intros Hs. unfold BlockHistory.getClosestAfter.
  destruct (LodashFacts.sortedIndexBy_spec timestamp cache ts Hs) as (Hlen & Hlo & Hhi).
  set (r := Lodash.sortedIndexBy cache ts timestamp) in *.
  rewrite LodashFacts.js_index_of_nat.
  destruct (cache !! r) as [b|] eqn:Hb.
  - split; [by eapply list_elem_of_lookup_2|].
    split; [by apply (Hhi r)|].
    intros c Hc Hle. apply list_elem_of_lookup in Hc as [j Hj].
    destruct (Nat.lt_ge_cases j r) as [Hlt|Hge].
    + pose proof (Hlo _ _ Hj Hlt). lia.
    + by apply (LodashFacts.sorted_by_lookup timestamp cache r j b c Hs).
  - intros c Hc. apply list_elem_of_lookup in Hc as [j Hj].
    apply (Hlo j c Hj). apply lookup_ge_None in Hb. apply lookup_lt_Some in Hj. lia.
Qed.

(** X2 on a cache of three blocks, between two of them. *)
Lemma getClosestAfter_ceiling_witness :
  match BlockHistory.getClosestAfter [mkBlock 1 10; mkBlock 2 20; mkBlock 3 30] 25 with
  | Some b =>
      b ∈ [mkBlock 1 10; mkBlock 2 20; mkBlock 3 30] /\ 25 <= timestamp b
      /\ forall c, c ∈ [mkBlock 1 10; mkBlock 2 20; mkBlock 3 30] ->
                   25 <= timestamp c -> timestamp b <= timestamp c
  | None => forall c, c ∈ [mkBlock 1 10; mkBlock 2 20; mkBlock 3 30] -> timestamp c < 25
  end.
Proof.
  apply (getClosestAfter_ceiling [mkBlock 1 10; mkBlock 2 20; mkBlock 3 30] 25).
  unfold sorted_by. repeat constructor; simpl; lia.
Defined.

(** X3: on a cache sorted by timestamp, [latest] returns a cached block that
    no cached block is later than, and [undefined] exactly for the empty
    cache. *)
Theorem latest_is_greatest (cache : list Block) :
  sorted_by timestamp cache ->
  match BlockHistory.latest cache with
  | Some b => b ∈ cache /\ forall c, c ∈ cache -> timestamp c <= timestamp b
  | None => cache = []
  end.
Proof.
  intros Hs. unfold BlockHistory.latest. destruct cache as [|b0 rest]; [done|].
  destruct (LodashFacts.latest_of_lookup (b0 :: rest) 0 b0 eq_refl)
    as (b & -> & Hlast & _).
  split; [by eapply list_elem_of_lookup_2|].
  intros c Hc. apply list_elem_of_lookup in Hc as [j Hj].
  apply (LodashFacts.sorted_by_lookup timestamp (b0 :: rest) j
           (length (b0 :: rest) - 1) c b Hs); [|done|done].
  apply lookup_lt_Some in Hj. lia.
Qed.

(** X3 on a cache of two blocks. *)
Lemma latest_is_greatest_witness :
  match BlockHistory.latest [mkBlock 1 10; mkBlock 2 20] with
  | Some b => b ∈ [mkBlock 1 10; mkBlock 2 20]
              /\ forall c, c ∈ [mkBlock 1 10; mkBlock 2 20] -> timestamp c <= timestamp b
  | None => [mkBlock 1 10; mkBlock 2 20] = []
  end.
Proof.
  apply (latest_is_greatest [mkBlock 1 10; mkBlock 2 20]).
  unfold sorted_by. repeat constructor; simpl; lia.
Defined.

Lemma has_true (cache : list Block) (n : Z) :
  BlockHistory.has cache n = true <-> exists b, b ∈ cache /\ number b = n.
Proof.
  unfold BlockHistory.has. induction cache as [|b cache IH]; simpl.
  - split; [done|]. intros (b & Hb & _). by apply elem_of_nil in Hb.
  - destruct (Z.eqb_spec (number b) n) as [Heq|Hne].
    + split; [|done]. intros _. exists b. split; [by left|done].
    + rewrite IH. split.
      * intros (c & Hc & Hn). exists c. split; [by right|done].
      * intros (c & Hc & Hn). apply elem_of_cons in Hc as [->|Hc]; [done|]. eauto.
Qed.

(** X4: after [insert(block)] the cache [has] the number of the block, and a
    number is there afterwards exactly if it is the block's or was there
    before; this holds for any cache, sorted or not. *)
Theorem has_after_insert (cache : list Block) (block : Block) (n : Z) :
  BlockHistory.has (BlockHistory.insert cache block) n
  = BlockHistory.has cache n || (number block =? n).
Proof.
  apply eq_true_iff_eq. rewrite orb_true_iff, !has_true, Z.eqb_eq. split.
  - intros (b & Hb & Hn). rewrite BlockHistoryFacts.insert_perm in Hb.
    apply elem_of_cons in Hb as [->|Hb]; [by right|]. left. eauto.
  - intros [(b & Hb & Hn)|Hn].
    + exists b. split; [|done]. rewrite BlockHistoryFacts.insert_perm. by right.
    + exists block. split; [|done]. rewrite BlockHistoryFacts.insert_perm. by left.
Qed.

Section WithChain.
Variable getBlock : option Z -> reply Block.
Variable bufferedBlocks : Q -> Z -> Z.

Local Abbreviation update := (BlockHistory.update getBlock bufferedBlocks).
Local Abbreviation run := (BlockHistory.run getBlock bufferedBlocks).
Local Abbreviation step := (BlockHistory.step getBlock bufferedBlocks).


(** X6: no call removes a block: the cache before any sequence of calls is
    contained, with multiplicity, in the cache after it.  Nothing is pruned
    and nothing is deduplicated. *)
Theorem nothing_is_pruned (blocks : list Block) (ops : list BlockHistory.op) :
  blocks ⊆+ run blocks ops.
Proof.
  unfold BlockHistory.run. revert blocks.
  induction ops as [|o ops IH]; intros blocks; simpl; [done|].
  etrans; [|apply IH].
  destruct o as [b|lookback now buffer| | | | |]; simpl; try done.
  - rewrite BlockHistoryFacts.insert_perm. by apply submseteq_cons.
  - pose proof (BlockHistoryFacts.update_cases getBlock bufferedBlocks
                  lookback now buffer blocks) as Hc.
    destruct (update lookback now buffer blocks) as [blocks' r]. simpl.
    destruct r; subst; try done.
    rewrite BlockHistoryFacts.insertRecent_perm. apply submseteq_inserts_l. done.
Qed.

End WithChain.


End BlockHistoryQueries.

(** ** computeTWAP: the average it computes *)
Module TwapAverage.
Import Twap.

(** When the loop starts from a sample later than [endTime], with the events
    in order of time, nothing is left to add. *)
Lemma weightedSumsFrom_late (prev : Z) (price : option Z) (later : list TwapEvent) (s e : Z) :
  e < prev -> sorted_by fst ((prev, price) :: later) ->
  weightedSumsFrom prev price later s e = (0, 0).
Proof.
  revert prev price. induction later as [|event rest IH]; intros prev price He Hs; [done|].
  cbn [weightedSumsFrom].
  apply StronglySorted_inv in Hs as [Hs Hall].
  pose proof (Forall_inv Hall) as Hle. simpl in Hle.
  rewrite (IH (fst event) (snd event)); [|lia|by destruct event].
  replace (Z.max (Z.min (fst event) e - Z.max prev s) 0) with 0 by lia.
  destruct price; simpl; f_equal; lia.
Qed.

Lemma weightedSumsFrom_nonneg (prev : Z) (price : option Z) (later : list TwapEvent)
    (s e : Z) :
  0 <= snd (weightedSumsFrom prev price later s e).
Proof.
  revert prev price. induction later as [|event rest IH]; intros prev price;
    cbn [weightedSumsFrom]; [done|].
  specialize (IH (fst event) (snd event)).
  destruct price; cbn [snd]; lia.
Qed.

(** What the loop does when it starts from a sample with a non-zero
    timestamp: it adds the weighted sums, or a [BN.muln] fails on an
    overlap of 2^26 seconds or more. *)
Lemma loop_sums (s e : Z) (later : list TwapEvent) :
  forall (prev : Z) (price : option Z) (ps tsum : Z),
    prev <> 0 -> Forall (fun ev => fst ev <> 0) later ->
    sorted_by fst ((prev, price) :: later) ->
    let sums := weightedSumsFrom prev price later s e in
    (exists v,
        loop s e later (mkVars price (Some prev) ps tsum) = (v, Ok tt)
        /\ priceSum v = ps + fst sums /\ timeSum v = tsum + snd sums)
    \/ (67108864 <= snd sums
        /\ exists v,
             loop s e later (mkVars price (Some prev) ps tsum)
             = (v, Throw (JsError "Assertion failed"))).
Proof.
  induction later as [|event rest IH]; intros prev price ps tsum Hprev Hnz Hs.
  - left. eexists. split; [reflexivity|]. cbn. lia.
  - cbv zeta. rewrite TwapFacts.loop_cons, TwapFacts.accumulate_cases.
    cbn [weightedSumsFrom].
    apply StronglySorted_inv in Hs as [Hs Hall].
    apply Forall_cons in Hnz as [Hev Hnz].
    assert (sorted_by fst ((fst event, snd event) :: rest)) as Hs' by (by destruct event).
    pose proof (weightedSumsFrom_nonneg (fst event) (snd event) rest s e) as Hrest.
    set (w := Z.max (Z.min (fst event) e - Z.max prev s) 0).
    assert (0 <= w) as Hw by (subst w; lia).
    unfold both_truthy. cbn [lastTime lastPrice priceSum timeSum].
    destruct price as [p|].
    + assert ((prev =? 0) = false) as -> by lia.
      cbv zeta. fold w.
      destruct (Z.ltb_spec w 67108864) as [Hsmall|Hbig]; cycle 1.
      { right. cbn [snd]. split; [lia|]. by eexists. }
      cbn [priceSum timeSum].
      destruct (Z.ltb_spec e (fst event)) as [Hlate|Hin].
      * rewrite (weightedSumsFrom_late (fst event) (snd event) rest s e Hlate Hs').
        left. eexists. split; [reflexivity|]. cbn. lia.
      * destruct (IH (fst event) (snd event) (ps + p * w) (tsum + w) Hev Hnz Hs')
          as [(v & Hloop & Hp & Ht)|(Hbig & v & Hloop)].
        -- left. exists v. split; [exact Hloop|]. cbn [fst snd]. lia.
        -- right. cbn [snd]. split; [lia|]. by exists v.
    + destruct (Z.ltb_spec e (fst event)) as [Hlate|Hin].
      * rewrite (weightedSumsFrom_late (fst event) (snd event) rest s e Hlate Hs').
        left. eexists. split; [reflexivity|]. cbn. lia.
      * cbn [priceSum timeSum]. apply IH; done.
Qed.

(** X7: for events in order of time up to the sentinel, none at timestamp
    0, with the samples in force for less than 2^26 seconds of the window in
    all, the result is the carry-in sum plus the sum of price times overlap,
    divided (towards zero) by the sum of the overlaps, each sample with a
    price counted over the part of [[startTime, endTime]] in which it is in
    force; it is [null] when the sum of the overlaps is 0; and from 2^26
    seconds of overlap on the call throws the error of a [BN] operation. *)
Theorem twap_is_weighted_average (events : list TwapEvent)
    (startTime endTime startingPriceSum : Z) :
  sorted_by fst (events ++ [(MAX_SAFE_JS_INT, None)]) ->
  Forall (fun ev => fst ev <> 0) events ->
  snd (computeTWAP events startTime endTime startingPriceSum)
  = let sums := weightedSums events startTime endTime in
    if snd sums =? 0 then Ok None
    else if snd sums <? 67108864
         then Ok (Some (Z.quot (startingPriceSum + fst sums) (snd sums)))
         else Throw (JsError "Assertion failed").
Proof.
  intros Hs Hnz. rewrite TwapFacts.computeTWAP_cases. unfold weightedSums.
  assert (Forall (fun ev : TwapEvent => fst ev <> 0) (events ++ [(MAX_SAFE_JS_INT, None)]))
    as Hnz'.
  { apply Forall_app. split; [done|]. by repeat constructor. }
  destruct (events ++ [(MAX_SAFE_JS_INT, None)]) as [|event rest]; [done|].
  apply Forall_cons in Hnz' as [Hev Hrest].
  rewrite TwapFacts.loop_cons, TwapFacts.accumulate_cases.
  cbn [both_truthy lastTime lastPrice priceSum timeSum].
  destruct (Z.ltb_spec endTime (fst event)) as [Hlate|Hin].
  - rewrite (weightedSumsFrom_late (fst event) (snd event) rest startTime endTime Hlate);
      [done|by destruct event].
  - cbv zeta.
    pose proof (weightedSumsFrom_nonneg (fst event) (snd event) rest startTime endTime)
      as Hnonneg.
    destruct (loop_sums startTime endTime rest (fst event) (snd event)
                startingPriceSum 0 Hev Hrest)
      as [(v & -> & Hp & Ht)|(Hbig & v & ->)]; [by destruct event| |].
    + rewrite Hp, Ht, Z.add_0_l. reflexivity.
    + destruct (Z.eqb_spec (snd (weightedSumsFrom (fst event) (snd event) rest
                                   startTime endTime)) 0); [lia|].
      destruct (Z.ltb_spec (snd (weightedSumsFrom (fst event) (snd event) rest
                                   startTime endTime)) 67108864); [lia|reflexivity].
Qed.

(** X7 on two samples: 7 over [[10, 15]] and 9 over [[15, 20]]. *)
Lemma twap_is_weighted_average_witness :
  snd (computeTWAP [(5, Some 7); (15, Some 9)] 10 20 0)
  = let sums := weightedSums [(5, Some 7); (15, Some 9)] 10 20 in
    if snd sums =? 0 then Ok None
    else if snd sums <? 67108864 then Ok (Some (Z.quot (0 + fst sums) (snd sums)))
         else Throw (JsError "Assertion failed").
Proof.
  apply (twap_is_weighted_average [(5, Some 7); (15, Some 9)] 10 20 0).
  - unfold sorted_by, MAX_SAFE_JS_INT. repeat constructor; simpl; lia.
  - repeat constructor; simpl; lia.
Defined.

(** The sums stay within the bounds of the prices. *)
Lemma loop_bounds (s e lo hi : Z) (events : list TwapEvent) :
  forall v v' : vars,
    Forall (fun ev => forall p, snd ev = Some p -> lo <= p <= hi) events ->
    (forall p, lastPrice v = Some p -> lo <= p <= hi) ->
    0 <= timeSum v -> lo * timeSum v <= priceSum v <= hi * timeSum v ->
    loop s e events v = (v', Ok tt) ->
    0 <= timeSum v' /\ lo * timeSum v' <= priceSum v' <= hi * timeSum v'.
Proof.
  induction events as [|event rest IH]; intros v v' Hall Hlast Ht Hp;
    [by intros [= <-]|].
  rewrite TwapFacts.loop_cons, TwapFacts.accumulate_cases.
  apply Forall_cons in Hall as [Hev Hall].
  assert (forall v1 : vars,
            0 <= timeSum v1 -> lo * timeSum v1 <= priceSum v1 <= hi * timeSum v1 ->
            (if e <? fst event then (v1, Ok tt)
             else loop s e rest (mkVars (snd event) (Some (fst event))
                                        (priceSum v1) (timeSum v1))) = (v', Ok tt) ->
            0 <= timeSum v' /\ lo * timeSum v' <= priceSum v' <= hi * timeSum v')
    as Hnext.
  { intros v1 Ht1 Hp1. destruct (e <? fst event); [by intros [= <-]|].
    apply IH; [done| |done|done]. exact Hev. }
  unfold both_truthy.
  destruct (lastTime v) as [t|]; [|by apply Hnext].
  destruct (lastPrice v) as [p|] eqn:Hprice; [|by apply Hnext].
  destruct (t =? 0); [by apply Hnext|]. cbv zeta.
  set (w := Z.max (Z.min (fst event) e - Z.max t s) 0).
  assert (0 <= w) by (subst w; lia).
  destruct (w <? 67108864); [|discriminate].
  specialize (Hlast p eq_refl).
  apply Hnext; cbn [priceSum timeSum]; nia.
Qed.

(** X8: with carry-in sum zero the result lies between the least and the
    greatest price of the events; in particular it is [p] when every price
    is [p]. *)
Theorem twap_between_prices (events : list TwapEvent) (startTime endTime lo hi r : Z) :
  Forall (fun ev => forall p, snd ev = Some p -> lo <= p <= hi) events ->
  snd (computeTWAP events startTime endTime 0) = Ok (Some r) ->
  lo <= r <= hi.
Proof.
  intros Hall. rewrite TwapFacts.computeTWAP_cases.
  destruct (loop startTime endTime (events ++ [(MAX_SAFE_JS_INT, None)])
              (mkVars None None 0 0)) as [v [[]|err|code|]] eqn:Hloop; try discriminate.
  destruct (loop_bounds startTime endTime lo hi (events ++ [(MAX_SAFE_JS_INT, None)])
              (mkVars None None 0 0) v) as [Ht Hp]; simpl; try lia; try done.
  { apply Forall_app. split; [done|]. by repeat constructor. }
  destruct (Z.eqb_spec (timeSum v) 0) as [|Hne]; [done|].
  destruct (timeSum v <? 67108864); [|discriminate]. intros [= <-].
  assert (0 < timeSum v) as Hpos by lia.
  pose proof (Z.quot_mul lo (timeSum v) Hne) as Hlo.
  pose proof (Z.quot_mul hi (timeSum v) Hne) as Hhi.
  pose proof (Z.quot_le_mono (lo * timeSum v) (priceSum v) (timeSum v) Hpos (proj1 Hp)).
  pose proof (Z.quot_le_mono (priceSum v) (hi * timeSum v) (timeSum v) Hpos (proj2 Hp)).
  lia.
Qed.

(** X8 on two samples with prices 7 and 9. *)
Lemma twap_between_prices_witness :
  snd (computeTWAP [(5, Some 7); (15, Some 9)] 10 20 0) = Ok (Some 8) /\ 7 <= 8 <= 9.
Proof.
  split; [reflexivity|].
  apply (twap_between_prices [(5, Some 7); (15, Some 9)] 10 20 7 9 8).
  - apply Forall_cons_2; [intros p [= <-]; lia|].
    apply Forall_cons_2; [intros p [= <-]; lia|].
    apply Forall_nil_2.
  - reflexivity.
Defined.

Lemma loop_after_break (s e t : Z) (p : option Z) (before rest rest' : list TwapEvent) :
  e < t ->
  forall v, loop s e (before ++ (t, p) :: rest) v = loop s e (before ++ (t, p) :: rest') v.
Proof.
  intros Ht. induction before as [|event before IH]; intros v; cbn [app].
  - rewrite !TwapFacts.loop_cons. cbn [fst].
    by assert ((e <? t) = true) as -> by lia.
  - rewrite !TwapFacts.loop_cons.
    destruct (accumulate s e event v) as [v1 [[]|err|code|]]; try reflexivity.
    destruct (e <? fst event); [done|]. apply IH.
Qed.

(** X9: what follows the first event later than [endTime] has no influence
    on how the call ends, in order of time or not. *)
Theorem twap_ignores_events_after_end (before rest rest' : list TwapEvent)
    (t : Z) (p : option Z) (startTime endTime startingPriceSum : Z) :
  endTime < t ->
  snd (computeTWAP (before ++ (t, p) :: rest) startTime endTime startingPriceSum)
  = snd (computeTWAP (before ++ (t, p) :: rest') startTime endTime startingPriceSum).
Proof.
  intros Ht. rewrite !TwapFacts.computeTWAP_cases.
  rewrite <- !app_assoc. cbn [app].
  by rewrite (loop_after_break startTime endTime t p before
                (rest ++ [(MAX_SAFE_JS_INT, None)]) (rest' ++ [(MAX_SAFE_JS_INT, None)]) Ht).
Qed.

(** X9 with one event after the end of the window, followed by others or not. *)
Lemma twap_ignores_events_after_end_witness :
  snd (computeTWAP ([(5, Some 7)] ++ (25, Some 9) :: [(30, Some 100); (26, None)]) 10 20 0)
  = snd (computeTWAP ([(5, Some 7)] ++ (25, Some 9) :: []) 10 20 0).
Proof.
  apply (twap_ignores_events_after_end [(5, Some 7)] [(30, Some 100); (26, None)] []
           25 (Some 9) 10 20 0).
  lia.
Defined.

End TwapAverage.

(** ** BlockFinder: the cache it keeps and the block it returns *)
Module BlockFinderCorrect.
Import BlockFinder.

Section WithChain.
Variable requestBlock : requested -> reply Block.
Variable estimateBlocksElapsed : Z -> Q -> Z.
Variable roundedShare : Z -> Z -> Z -> Z.

Local Abbreviation getBlock := (BlockFinder.getBlock requestBlock).
Local Abbreviation getLatestBlock := (BlockFinder.getLatestBlock requestBlock).
Local Abbreviation findBlock := (BlockFinder.findBlock requestBlock roundedShare).
Local Abbreviation probedBlock := (BlockFinder.probedBlock roundedShare).
Local Abbreviation searchBackwards := (BlockFinder.searchBackwards requestBlock).
Local Abbreviation getBlockForTimestamp :=
  (BlockFinder.getBlockForTimestamp requestBlock estimateBlocksElapsed roundedShare).
Local Abbreviation answers_by_number := (BlockFinder.answers_by_number requestBlock).
Local Abbreviation from_ledger := (BlockFinder.from_ledger requestBlock).
Local Abbreviation cache_ok := (BlockFinder.cache_ok requestBlock).
Local Abbreviation ledger_monotone := (BlockFinder.ledger_monotone requestBlock).
Local Abbreviation latest_on_ledger := (BlockFinder.latest_on_ledger requestBlock).
Local Abbreviation answer_ok := (BlockFinder.answer_ok requestBlock).

Lemma strictly_numbered_sorted (cache : list Block) :
  strictly_numbered cache -> sorted_by number cache.
Proof.
  unfold strictly_numbered, sorted_by. induction 1 as [|b cache Hs IH Hall];
    constructor; [done|].
  eapply Forall_impl; [exact Hall|]. simpl. lia.
Qed.

Lemma strictly_numbered_lookup (cache : list Block) (i j : nat) (a b : Block) :
  strictly_numbered cache -> (i < j)%nat -> cache !! i = Some a -> cache !! j = Some b ->
  number a < number b.
Proof.
  intros Hs. revert i j. induction Hs as [|c cache Hs IH Hall]; intros i j Hij Hi Hj.
  - by rewrite lookup_nil in Hi.
  - destruct i as [|i], j as [|j]; simpl in *; try lia.
    + simplify_eq. apply (Forall_lookup_1 _ _ _ _ Hall Hj).
    + apply (IH i j); [lia|done|done].
Qed.

(** Splicing a block of a new number in at the search index keeps the strict
    order. *)
Lemma splice_insert_strict (cache : list Block) (x : Block) :
  strictly_numbered cache ->
  let index := Lodash.sortedIndexBy cache (number x) number in
  BlockFinder.number_is (cache !! index) (number x) = false ->
  strictly_numbered (splice_insert cache index x).
Proof.
  intros Hs index Hnew.
  destruct (LodashFacts.sortedIndexBy_spec number cache (number x)
              (strictly_numbered_sorted _ Hs)) as (Hlen & Hlo & Hhi).
  fold index in Hlen, Hlo, Hhi.
  assert (forall j b, cache !! j = Some b -> (index <= j)%nat -> number x < number b) as Hhi'.
  { intros j b Hj Hle. destruct (cache !! index) as [c|] eqn:Hc.
    - simpl in Hnew. apply Z.eqb_neq in Hnew.
      pose proof (Hhi _ _ Hc (Nat.le_refl _)).
      destruct (decide (j = index)) as [->|Hne]; [simplify_eq; lia|].
      pose proof (strictly_numbered_lookup cache index j c b Hs ltac:(lia) Hc Hj). lia.
    - apply lookup_ge_None in Hc. apply lookup_lt_Some in Hj. lia. }
  unfold splice_insert, strictly_numbered in *.
  rewrite <- (take_drop index cache) in Hs.
  apply StronglySorted_app in Hs as (Hcross & Hs1 & Hs2).
  apply StronglySorted_app. split; [|split; [done|]].
  - intros y z Hy Hz.
    apply list_elem_of_lookup in Hy as [i Hi].
    apply lookup_take_Some in Hi as [Hi Hir].
    pose proof (Hlo _ _ Hi Hir) as Hyx.
    apply elem_of_cons in Hz as [->|Hz]; [lia|].
    apply list_elem_of_lookup in Hz as [j Hj]. rewrite lookup_drop in Hj.
    pose proof (Hhi' _ _ Hj ltac:(lia)). lia.
  - apply StronglySorted_cons. split; [|done].
    apply Forall_lookup. intros j z Hj. rewrite lookup_drop in Hj.
    apply (Hhi' _ _ Hj). lia.
Qed.

(** What one [getBlock(n)] does to a well-formed cache. *)
Lemma getBlock_keeps (n lo hi : Z) (st : state) :
  answers_by_number -> cache_ok (blocks st) -> within lo hi (blocks st) -> lo <= n <= hi ->
  let st' := fst (getBlock n st) in
  cache_ok (blocks st') /\ within lo hi (blocks st') /\ blocks st ⊆+ blocks st'
  /\ match snd (getBlock n st) with
     | Ok b => b ∈ blocks st' /\ number b = n /\ requestBlock (Number n) = Reply b
     | Throw e => requestBlock (Number n) = Fail e
     | Exit _ | OutOfFuel => False
     end.
Proof.
  intros Hreq [Hs Hl] Hw Hn.
  unfold BlockFinder.getBlock, bind, modify, get, ret, await, call.
  cbn [blocks note_probe fst snd].
  set (index := Lodash.sortedIndexBy (blocks st) n number).
  assert (forall b, requestBlock (Number n) = Reply b ->
                    BlockFinder.number_is (blocks st !! index) n = false ->
                    cache_ok (splice_insert (blocks st) index b)
                    /\ within lo hi (splice_insert (blocks st) index b)
                    /\ blocks st ⊆+ splice_insert (blocks st) index b
                    /\ b ∈ splice_insert (blocks st) index b /\ number b = n) as Hfetch.
  { intros b Hb Hnew. pose proof (Hreq n b Hb) as Hnum.
    split; [split|split; [|split; [|split]]].
    - subst index. rewrite <- Hnum in *. by apply splice_insert_strict.
    - unfold BlockFinder.from_ledger. rewrite LodashFacts.splice_insert_perm.
      constructor; [by rewrite Hnum|done].
    - unfold within. rewrite LodashFacts.splice_insert_perm. constructor; [lia|done].
    - rewrite LodashFacts.splice_insert_perm. by apply submseteq_cons.
    - rewrite LodashFacts.splice_insert_perm. by left.
    - done. }
  destruct (blocks st !! index) as [c|] eqn:Hc.
  - destruct (Z.eqb_spec (number c) n) as [Heq|Hne]; cbn [fst snd blocks].
    + repeat split; try done.
      * by eapply list_elem_of_lookup_2.
      * rewrite <- Heq. apply (Forall_lookup_1 _ _ _ _ Hl Hc).
    + destruct (requestBlock (Number n)) as [b|e] eqn:Hb; cbn [result_of fst snd blocks].
      * destruct (Hfetch b eq_refl) as (H1 & H2 & H3 & H4 & H5);
          [simpl; by apply Z.eqb_neq|done].
      * done.
  - destruct (requestBlock (Number n)) as [b|e] eqn:Hb; cbn [result_of fst snd blocks].
    + destruct (Hfetch b eq_refl) as (H1 & H2 & H3 & H4 & H5); done.
    + done.
Qed.

Lemma findBlock_correct (lo hi : Z) (fuel : nat) :
  answers_by_number ->
  forall (s e : Block) (ts : Z) (st : state),
    cache_ok (blocks st) -> within lo hi (blocks st) ->
    s ∈ blocks st -> e ∈ blocks st ->
    timestamp s < ts <= timestamp e -> number s < number e ->
    (Z.to_nat (number e - number s) <= fuel)%nat ->
    let res := findBlock fuel (Some s) (Some e) ts st in
    cache_ok (blocks (fst res)) /\ within lo hi (blocks (fst res))
    /\ blocks st ⊆+ blocks (fst res)
    /\ answer_ok ts (blocks (fst res)) (snd res).
Proof.
  intros Hreq. induction fuel as [|fuel IH];
    intros s e ts st Hok Hw Hs He Hts Hn Hfuel; [lia|].
  cbn [BlockFinder.findBlock].
  destruct (Z.eqb_spec (timestamp e) ts) as [Heq|Hne].
  { cbn. do 3 (split; [done|]). split; [done|]. split; [lia|by left]. }
  destruct (Z.eqb_spec (number e) (number s + 1)) as [Hadj|Hnadj].
  { cbn. do 3 (split; [done|]). split; [done|]. split; [lia|].
    right. left. exists e. split; [done|]. split; lia. }
  unfold assert, bind, ret, throw.
  destruct (Z.eqb_spec (number e) (number s)) as [?|_]; [lia|].
  assert ((ts <? timestamp e) = true) as -> by lia.
  assert ((timestamp s <? ts) = true) as -> by lia. cbn [negb andb].
  pose proof (BlockFinderFacts.probedBlock_inside roundedShare s e ts ltac:(lia)) as Hin.
  assert (lo <= number s /\ number e <= hi) as [Hslo Hehi].
  { pose proof (proj1 (list.Forall_forall _ _) Hw s Hs) as Hs'.
    pose proof (proj1 (list.Forall_forall _ _) Hw e He) as He'.
    simpl in Hs', He'. lia. }
  pose proof (getBlock_keeps (probedBlock s e ts) lo hi st Hreq Hok Hw ltac:(lia))
    as (Hok1 & Hw1 & Hsub1 & Hres1).
  destruct (getBlock (probedBlock s e ts) st) as [st1 [newBlock|err|c|]];
    cbn [fst snd] in *; try done.
  - destruct Hres1 as (Hnew & Hnum & _).
    assert (s ∈ blocks st1) as Hs1 by (by eapply elem_of_submseteq).
    assert (e ∈ blocks st1) as He1 by (by eapply elem_of_submseteq).
    destruct (Z.ltb_spec (timestamp newBlock) ts) as [Hlt|Hge].
    + destruct (IH newBlock e ts st1 Hok1 Hw1 Hnew He1 ltac:(lia) ltac:(lia) ltac:(lia))
        as (H1 & H2 & H3 & H4).
      do 2 (split; [done|]). split; [by etrans|done].
    + destruct (IH s newBlock ts st1 Hok1 Hw1 Hs1 Hnew ltac:(lia) ltac:(lia) ltac:(lia))
        as (H1 & H2 & H3 & H4).
      do 2 (split; [done|]). split; [by etrans|done].
  - do 3 (split; [done|]). left. eauto.
Qed.

Lemma searchBackwards_correct (lo hi : Z) (initialBlock : Block) (inc ts : Z) (fuel : nat) :
  answers_by_number -> 1 <= inc -> lo <= 0 <= hi -> number initialBlock <= hi ->
  forall (m : Z) (st : state),
    0 <= m -> cache_ok (blocks st) -> within lo hi (blocks st) ->
    (Z.to_nat (number initialBlock - m * inc) < fuel)%nat ->
    let res := searchBackwards fuel initialBlock inc ts m st in
    cache_ok (blocks (fst res)) /\ within lo hi (blocks (fst res))
    /\ blocks st ⊆+ blocks (fst res)
    /\ match snd res with
       | Ok _ => exists b, b ∈ blocks (fst res) /\ timestamp b <= ts
       | Throw e =>
           (exists q, requestBlock q = Fail e)
           \/ e = AssertionError "timestamp is before block 0"
       | Exit _ | OutOfFuel => False
       end.
Proof.
  intros Hreq Hinc Hlo Hhi. induction fuel as [|fuel IH];
    intros m st Hm Hok Hw Hfuel; [lia|].
  cbn [BlockFinder.searchBackwards]. unfold assert, bind, ret, throw.
  set (n := Z.max 0 (number initialBlock - m * inc)).
  pose proof (getBlock_keeps n lo hi st Hreq Hok Hw ltac:(subst n; nia))
    as (Hok1 & Hw1 & Hsub1 & Hres1).
  destruct (getBlock n st) as [st1 [block|err|c|]]; cbn [fst snd] in *; try done.
  - destruct Hres1 as (Hblock & _ & _).
    destruct (Z.leb_spec (timestamp block) ts) as [Hle|Hgt].
    + cbn. do 3 (split; [done|]). eauto.
    + destruct (Z.ltb_spec 0 n) as [Hpos|Hzero].
      * destruct (IH (m + 1) st1 ltac:(lia) Hok1 Hw1 ltac:(subst n; nia))
          as (H1 & H2 & H3 & H4).
        do 2 (split; [done|]). split; [by etrans|done].
      * cbn. do 3 (split; [done|]). by right.
  - do 3 (split; [done|]). left. eauto.
Qed.

Lemma getLatestBlock_keeps (lo hi : Z) (st : state) :
  latest_on_ledger -> cache_ok (blocks st) -> within lo hi (blocks st) ->
  (forall b, requestBlock Latest = Reply b -> lo <= number b <= hi) ->
  let res := getLatestBlock st in
  cache_ok (blocks (fst res)) /\ within lo hi (blocks (fst res))
  /\ blocks st ⊆+ blocks (fst res)
  /\ match snd res with
     | Ok b => requestBlock Latest = Reply b /\ b ∈ blocks (fst res)
     | Throw e => requestBlock Latest = Fail e
     | Exit _ | OutOfFuel => False
     end.
Proof.
  intros Hlatest [Hs Hl] Hw Hbound.
  unfold BlockFinder.getLatestBlock, bind, await, call, get, modify, ret, throw.
  destruct (requestBlock Latest) as [block|e] eqn:Hb; cbn [result_of]; [|done].
  specialize (Hbound block eq_refl). specialize (Hlatest block Hb).
  set (index := Lodash.sortedIndexBy (blocks st) (number block) number).
  destruct (LodashFacts.sortedIndexBy_spec number (blocks st) (number block)
              (strictly_numbered_sorted _ Hs)) as (Hlen & _). fold index in Hlen.
  destruct (BlockFinder.number_is (blocks st !! index) (number block)) eqn:Hcached.
  - destruct (blocks st !! index) as [c|] eqn:Hc; [|done].
    simpl in Hcached. apply Z.eqb_eq in Hcached.
    pose proof (Forall_lookup_1 _ _ _ _ Hl Hc) as Hc'. simpl in Hc'.
    rewrite Hcached, Hlatest in Hc'. injection Hc' as <-.
    cbn [fst snd blocks].
    do 3 (split; [done|]). split; [done|]. by eapply list_elem_of_lookup_2.
  - cbn [fst snd blocks set_blocks].
    assert (splice_insert (blocks st) index block !! index = Some block) as ->.
    { unfold splice_insert. rewrite lookup_app_r by (rewrite length_take; lia).
      rewrite length_take. by replace (index - index `min` length (blocks st))%nat
                                with 0%nat by lia. }
    cbn [fst snd blocks set_blocks].
    split; [split|split; [|split; [|split]]]; try done.
    + by apply splice_insert_strict.
    + unfold BlockFinder.from_ledger. rewrite LodashFacts.splice_insert_perm.
      by constructor.
    + unfold BlockFinder.within. rewrite LodashFacts.splice_insert_perm. by constructor.
    + rewrite LodashFacts.splice_insert_perm. by apply submseteq_cons.
    + rewrite LodashFacts.splice_insert_perm. by left.
Qed.

(** A well-formed cache of a ledger whose timestamps do not decrease is in
    order of timestamp. *)
Lemma cache_sorted_by_timestamp (cache : list Block) :
  ledger_monotone -> cache_ok cache -> sorted_by timestamp cache.
Proof.
  intros Hmono [Hs Hl]. unfold sorted_by. induction Hs as [|b cache Hs IH Hall].
  - constructor.
  - apply Forall_cons in Hl as [Hb Hl]. constructor; [by apply IH|].
    rewrite list.Forall_forall in Hall, Hl. apply list.Forall_forall. intros c Hc.
    apply (Hmono (number b) (number c) b c); [|done|by apply Hl].
    specialize (Hall c Hc). simpl in Hall. lia.
Qed.

Lemma bounds_exist (cache : list Block) (extra : Z) :
  exists lo hi, lo <= 0 <= hi /\ lo <= extra <= hi /\ within lo hi cache.
Proof.
  induction cache as [|b cache (lo & hi & H0 & He & Hw)].
  - exists (Z.min 0 extra), (Z.max 0 extra). repeat split; try lia. constructor.
  - exists (Z.min lo (number b)), (Z.max hi (number b)). repeat split; try lia.
    constructor; [lia|]. eapply Forall_impl; [exact Hw|]. simpl. lia.
Qed.

(** The last step of the query: the search between the two cached blocks
    around the timestamp. *)
Lemma bracket_correct (lo hi : Z) (fuel : nat) (ts : Z) (st : state) (low top : Block) :
  answers_by_number -> ledger_monotone ->
  cache_ok (blocks st) -> within lo hi (blocks st) ->
  low ∈ blocks st -> timestamp low <= ts ->
  top ∈ blocks st -> ts <= timestamp top ->
  (Z.to_nat (hi - lo) < fuel)%nat ->
  let index := Lodash.sortedIndexBy (blocks st) ts timestamp in
  let res := findBlock fuel (js_index (blocks st) (Z.of_nat index - 1))
                       (js_index (blocks st) (Z.of_nat index)) ts st in
  cache_ok (blocks (fst res)) /\ within lo hi (blocks (fst res))
  /\ blocks st ⊆+ blocks (fst res)
  /\ answer_ok ts (blocks (fst res)) (snd res).
Proof.
  intros Hreq Hmono Hok Hw Hlow Hlow_ts Htop Htop_ts Hfuel index.
  pose proof (cache_sorted_by_timestamp _ Hmono Hok) as Hsorted.
  destruct (LodashFacts.sortedIndexBy_spec timestamp (blocks st) ts Hsorted)
    as (Hlen & Hlo & Hhi). fold index in Hlen, Hlo, Hhi.
  rewrite LodashFacts.js_index_of_nat, BlockHistoryQueries.js_index_pred.
  apply list_elem_of_lookup in Htop as [j Hj].
  assert (index <= j)%nat as Hij.
  { destruct (Nat.lt_ge_cases j index) as [Hlt|]; [|done].
    pose proof (Hlo _ _ Hj Hlt). lia. }
  destruct (lookup_lt_is_Some_2 (blocks st) index) as [e He];
    [apply lookup_lt_Some in Hj; lia|].
  rewrite He. pose proof (Hhi _ _ He (Nat.le_refl _)) as He_ts.
  destruct fuel as [|fuel]; [lia|].
  destruct (Z.eq_dec (timestamp e) ts) as [Heq|Hne].
  { cbn [BlockFinder.findBlock]. rewrite (proj2 (Z.eqb_eq _ _) Heq). cbn.
    do 3 (split; [done|]). split; [by eapply list_elem_of_lookup_2|].
    split; [lia|by left]. }
  apply list_elem_of_lookup in Hlow as [i Hi].
  assert (i < index)%nat as Hi_lt.
  { destruct (Nat.lt_ge_cases i index) as [|Hge]; [done|].
    pose proof (LodashFacts.sorted_by_lookup timestamp _ index i e low Hsorted Hge He Hi).
    lia. }
  destruct index as [|index']; [lia|].
  destruct (lookup_lt_is_Some_2 (blocks st) index') as [s Hs]; [lia|].
  rewrite Hs. pose proof (Hlo _ _ Hs ltac:(lia)) as Hs_ts.
  pose proof (strictly_numbered_lookup (blocks st) index' (S index') s e
                (proj1 Hok) ltac:(lia) Hs He) as Hnum.
  pose proof (Forall_lookup_1 _ _ _ _ Hw Hs) as Hs_w.
  pose proof (Forall_lookup_1 _ _ _ _ Hw He) as He_w. simpl in Hs_w, He_w.
  apply (findBlock_correct lo hi (S fuel) Hreq s e ts st Hok Hw);
    [by eapply list_elem_of_lookup_2|by eapply list_elem_of_lookup_2|lia|done|lia].
Qed.

(** X10: on a ledger whose timestamps do not decrease with the number, and
    whose client answers by number, a query on a well-formed cache ends,
    given enough fuel, in one of three ways: with a cached block [b] not
    later than the query such that [b] has the timestamp of the query, or
    block [b.number + 1] is cached and later than the query, or [b] is the
    latest block; with the rejection of a request; or with the assertion
    "timestamp is before block 0".  The cache it leaves is well-formed (in
    strict order of number, each block the ledger's) and holds every block
    it held before. *)
Theorem getBlockForTimestamp_correct (ts : Z) (st : state) :
  answers_by_number -> ledger_monotone -> latest_on_ledger ->
  cache_ok (blocks st) ->
  exists fuel0 : nat,
    forall fuel : nat, (fuel0 <= fuel)%nat ->
      let res := getBlockForTimestamp fuel ts st in
      cache_ok (blocks (fst res))
      /\ blocks st ⊆+ blocks (fst res)
      /\ answer_ok ts (blocks (fst res)) (snd res).
Proof.
  intros Hreq Hmono Hlatest Hok.
  destruct (bounds_exist (blocks st)
              (match requestBlock Latest with Reply b => number b | Fail _ => 0 end))
    as (lo & hi & Hzero & Hextra & Hw).
  exists (S (Z.to_nat (hi - lo))). intros fuel Hfuel.
  (* from the first cached block on: the backward loop, then the bracket *)
  assert (forall st1 top,
             cache_ok (blocks st1) -> within lo hi (blocks st1) ->
             top ∈ blocks st1 -> ts <= timestamp top ->
             let res :=
               bind get (fun st2 =>
                 match blocks st2 !! 0%nat with
                 | None => throw TypeError
                 | Some initialBlock =>
                     bind (if ts <? timestamp initialBlock
                           then searchBackwards fuel initialBlock
                                  (incrementDistanceFor estimateBlocksElapsed initialBlock ts)
                                  ts 1
                           else ret tt)
                          (fun _ => bind get (fun st3 =>
                             findBlock fuel
                               (js_index (blocks st3)
                                  (Z.of_nat (Lodash.sortedIndexBy (blocks st3) ts timestamp) - 1))
                               (js_index (blocks st3)
                                  (Z.of_nat (Lodash.sortedIndexBy (blocks st3) ts timestamp)))
                               ts))
                 end) st1 in
             cache_ok (blocks (fst res)) /\ blocks st1 ⊆+ blocks (fst res)
             /\ answer_ok ts (blocks (fst res)) (snd res)) as Hrest.
  { intros st1 top Hok1 Hw1 Htop Htop_ts. unfold bind, get, ret.
    destruct (blocks st1 !! 0%nat) as [initialBlock|] eqn:H0.
    2:{ apply lookup_ge_None in H0. destruct (blocks st1); [|simpl in H0; lia].
        by apply elem_of_nil in Htop. }
    pose proof (Forall_lookup_1 _ _ _ _ Hw1 H0) as Hinit_w. simpl in Hinit_w.
    destruct (Z.ltb_spec ts (timestamp initialBlock)) as [Hbefore|Hafter].
    - set (inc := incrementDistanceFor estimateBlocksElapsed initialBlock ts).
      assert (1 <= inc) as Hinc by (subst inc; unfold incrementDistanceFor; lia).
      pose proof (searchBackwards_correct lo hi initialBlock inc ts fuel Hreq Hinc Hzero
                    ltac:(lia) 1 st1 ltac:(lia) Hok1 Hw1 ltac:(nia))
        as (Hok2 & Hw2 & Hsub2 & Hres2).
      destruct (searchBackwards fuel initialBlock inc ts 1 st1) as [st2 [[]|err|c|]];
        cbn [fst snd] in *; try done.
      destruct Hres2 as (low & Hlow & Hlow_ts).
      destruct (bracket_correct lo hi fuel ts st2 low top Hreq Hmono Hok2 Hw2 Hlow Hlow_ts
                  ltac:(by eapply elem_of_submseteq) Htop_ts ltac:(lia))
        as (H1 & H2 & H3 & H4).
      split; [done|]. split; [by etrans|done].
    - destruct (bracket_correct lo hi fuel ts st1 initialBlock top Hreq Hmono Hok1 Hw1
                  ltac:(by eapply list_elem_of_lookup_2) Hafter Htop Htop_ts ltac:(lia))
        as (H1 & H2 & H3 & H4).
      done. }
  cbv zeta. remember (getBlockForTimestamp fuel ts st) as res eqn:Hres.
  unfold BlockFinder.getBlockForTimestamp in Hres.
  unfold bind at 1 in Hres. unfold get at 1 in Hres. unfold bind at 1 in Hres.
  destruct ((length (blocks st) =? 0)%nat
            || match latest_of (blocks st) with
               | Some b => timestamp b <? ts
               | None => false
               end) eqn:Hfetch.
  - (* the latest block is asked for *)
    unfold bind at 1 in Hres.
    pose proof (getLatestBlock_keeps lo hi st Hlatest Hok Hw) as Hl.
    destruct Hl as (Hok1 & Hw1 & Hsub1 & Hres1).
    { intros b Hb. by rewrite Hb in Hextra. }
    destruct (getLatestBlock st) as [st1 [block|err|c|]]; cbn [fst snd] in *; try done.
    + destruct Hres1 as (Hblock & Hin).
      destruct (Z.leb_spec (timestamp block) ts) as [Hle|Hgt].
      * subst res. cbn. do 2 (split; [done|]). split; [done|]. split; [done|].
        by right; right.
      * unfold ret at 1 in Hres.
        destruct (Hrest st1 block Hok1 Hw1 Hin ltac:(lia)) as (H1 & H2 & H3).
        subst res. split; [exact H1|]. split; [|exact H3].
        exact (transitivity Hsub1 H2).
    + subst res. do 2 (split; [done|]). left. eauto.
  - (* the cache reaches the query already *)
    apply orb_false_iff in Hfetch as [Hlen Hlast].
    unfold ret at 1 in Hres.
    apply Nat.eqb_neq in Hlen.
    destruct (lookup_lt_is_Some_2 (blocks st) 0) as [b0 Hb0]; [lia|].
    destruct (LodashFacts.latest_of_lookup (blocks st) 0 b0 Hb0)
      as (top & Htop & Htop_in & _).
    rewrite Htop in Hlast. apply Z.ltb_ge in Hlast.
    assert (top ∈ blocks st) as Htop_el by (by eapply list_elem_of_lookup_2).
    destruct (Hrest st top Hok Hw Htop_el Hlast) as (H1 & H2 & H3).
    subst res. split; [exact H1|]. split; [exact H2|exact H3].
Qed.

(** X11: a block that [getBlock] has returned is not asked for again: a
    second [getBlock] of the same number on the cache the first one left
    returns the same block and leaves the cache as it is, whatever the
    ledger client would answer by then. *)
Theorem getBlock_does_not_refetch (n : Z) (st st1 : state) (b : Block)
    (requestBlock' : requested -> reply Block) :
  answers_by_number -> cache_ok (blocks st) ->
  getBlock n st = (st1, Ok b) ->
  BlockFinder.getBlock requestBlock' n st1 = (note_probe n st1, Ok b).
Proof.
  intros Hreq Hok Hget.
  destruct (bounds_exist (blocks st) n) as (lo & hi & _ & Hn & Hw).
  pose proof (getBlock_keeps n lo hi st Hreq Hok Hw Hn) as (Hok1 & _ & _ & Hres).
  rewrite Hget in Hok1, Hres. cbn [fst snd] in *. destruct Hres as (Hin & Hnum & _).
  destruct Hok1 as [Hs1 _].
  apply list_elem_of_lookup in Hin as [i Hi].
  assert (Lodash.sortedIndexBy (blocks st1) n number = i) as Hindex.
  { rewrite <- Hnum.
    apply (LodashFacts.sortedIndexBy_first number (blocks st1) i b
             (strictly_numbered_sorted _ Hs1) Hi).
    intros j y Hj Hy. by apply (strictly_numbered_lookup (blocks st1) j i y b). }
  unfold BlockFinder.getBlock, bind, modify, get, ret. cbn [blocks note_probe].
  rewrite Hindex, Hi. by rewrite (proj2 (Z.eqb_eq _ _) Hnum).
Qed.

End WithChain.

Lemma getBlockForTimestamp_correct_witness :
  exists fuel0 : nat,
    forall fuel : nat, (fuel0 <= fuel)%nat ->
      let res := BlockFinder.getBlockForTimestamp Fixtures.ledger1 Fixtures.estimate13 Fixtures.exactShare
                   fuel 1010 (BlockFinder.mkState [mkBlock 100 1100] []) in
      BlockFinder.cache_ok Fixtures.ledger1 (BlockFinder.blocks (fst res))
      /\ [mkBlock 100 1100] ⊆+ BlockFinder.blocks (fst res)
      /\ BlockFinder.answer_ok Fixtures.ledger1 1010
           (BlockFinder.blocks (fst res)) (snd res).
Proof.
  apply (getBlockForTimestamp_correct Fixtures.ledger1 Fixtures.estimate13 Fixtures.exactShare 1010
           (BlockFinder.mkState [mkBlock 100 1100] [])).
  - intros n b [= <-]. reflexivity.
  - intros m n b c Hmn [= <-] [= <-]. cbn. lia.
  - intros b [= <-]. reflexivity.
  - split.
    + apply SSorted_cons; [apply SSorted_nil|apply Forall_nil_2].
    + apply Forall_cons_2; [reflexivity|apply Forall_nil_2].
Defined.

Lemma getBlock_does_not_refetch_witness :
  BlockFinder.getBlock (fun _ => Fail (Rejected "offline")) 50
    (BlockFinder.mkState [mkBlock 50 1050; mkBlock 100 1100] [50])
  = (BlockFinder.note_probe 50
       (BlockFinder.mkState [mkBlock 50 1050; mkBlock 100 1100] [50]),
     Ok (mkBlock 50 1050)).
Proof.
  apply (getBlock_does_not_refetch Fixtures.ledger1 50
           (BlockFinder.mkState [mkBlock 100 1100] [])
           (BlockFinder.mkState [mkBlock 50 1050; mkBlock 100 1100] [50])
           (mkBlock 50 1050) (fun _ => Fail (Rejected "offline"))).
  - intros n b [= <-]. reflexivity.
  - split.
    + apply SSorted_cons; [apply SSorted_nil|apply Forall_nil_2].
    + apply Forall_cons_2; [reflexivity|apply Forall_nil_2].
  - vm_compute. reflexivity.
Defined.

End BlockFinderCorrect.

(** * The price cache *)
Module PriceHistoryFacts.

Section WithPrices.

Context {T : Type}.

Local Abbreviation lookup := (@PriceHistory.lookup T).
Local Abbreviation assign := (@PriceHistory.assign T).

Lemma lookup_overwrite (prices : list (Z * T)) (ts ts' : Z) (price : T) :
  lookup (PriceHistory.overwrite prices ts price) ts'
  = if ts' =? ts then
      match lookup prices ts with Some _ => Some price | None => None end
    else lookup prices ts'.
Proof.
  induction prices as [|[k v] rest IH]; cbn [PriceHistory.overwrite PriceHistory.lookup].
  - by destruct (ts' =? ts).
  - rewrite IH.
    destruct (Z.eqb_spec k ts'), (Z.eqb_spec k ts), (Z.eqb_spec ts' ts);
      try reflexivity; lia.
Qed.

Lemma lookup_add_index (prices : list (Z * T)) (ts ts' : Z) (price : T) :
  lookup (PriceHistory.add_index prices ts price) ts'
  = if ts' =? ts then Some price else lookup prices ts'.
Proof.
  induction prices as [|[k v] rest IH]; cbn [PriceHistory.add_index PriceHistory.lookup].
  - rewrite (Z.eqb_sym ts ts'). reflexivity.
  - destruct (PriceHistory.is_array_index k && (k <? ts)) eqn:Hc;
      cbn [PriceHistory.lookup].
    + apply andb_prop in Hc as [_ Hlt]. apply Z.ltb_lt in Hlt.
      rewrite IH.
      destruct (Z.eqb_spec k ts'), (Z.eqb_spec ts' ts); try reflexivity; lia.
    + rewrite (Z.eqb_sym ts ts'). reflexivity.
Qed.

Lemma lookup_app_new (prices : list (Z * T)) (ts ts' : Z) (price : T) :
  lookup prices ts = None ->
  lookup (prices ++ [(ts, price)]) ts'
  = if ts' =? ts then Some price else lookup prices ts'.
Proof.
  induction prices as [|[k v] rest IH]; cbn [app PriceHistory.lookup]; intros Hnone.
  - rewrite (Z.eqb_sym ts ts'). reflexivity.
  - destruct (Z.eqb_spec k ts); [discriminate|].
    destruct (Z.eqb_spec k ts').
    + destruct (Z.eqb_spec ts' ts); [lia|reflexivity].
    + by apply IH.
Qed.

(** [prices[ts] = price] is read back at [ts] and changes no other
    property. *)
Lemma lookup_assign (prices : list (Z * T)) (ts ts' : Z) (price : T) :
  lookup (assign prices ts price) ts'
  = if ts' =? ts then Some price else lookup prices ts'.
Proof.
  unfold PriceHistory.assign.
  destruct (lookup prices ts) eqn:Hl.
  - rewrite lookup_overwrite, Hl. reflexivity.
  - destruct (PriceHistory.is_array_index ts).
    + apply lookup_add_index.
    + by apply lookup_app_new.
Qed.

Lemma keys_overwrite (prices : list (Z * T)) (ts : Z) (price : T) :
  map fst (PriceHistory.overwrite prices ts price) = map fst prices.
Proof.
  induction prices as [|[k v] rest IH]; cbn; [reflexivity|]. by rewrite IH.
Qed.

Lemma keys_add_index (prices : list (Z * T)) (ts : Z) (price : T) :
  map fst (PriceHistory.add_index prices ts price) ≡ₚ ts :: map fst prices.
Proof.
  induction prices as [|[k v] rest IH]; cbn [PriceHistory.add_index]; [reflexivity|].
  destruct (PriceHistory.is_array_index k && (k <? ts)); [|reflexivity].
  cbn [map fst]. rewrite IH. apply Permutation_swap.
Qed.

Lemma lookup_None_keys (prices : list (Z * T)) (ts : Z) :
  lookup prices ts = None -> ts ∉ map fst prices.
Proof.
  induction prices as [|[k v] rest IH]; cbn [PriceHistory.lookup map fst]; intros Hl.
  - apply not_elem_of_nil.
  - destruct (Z.eqb_spec k ts); [discriminate|].
    apply not_elem_of_cons. split; [congruence|by apply IH].
Qed.

Lemma get_cases (ts : Z) (prices : list (Z * T)) :
  PriceHistory.get ts prices
  = if 0 <=? ts then
      match lookup prices ts with
      | Some price => (prices, Ok price)
      | None =>
          (prices,
           Throw (AssertionError "no price for that timestamp, use block timestamp"))
      end
    else (prices, Throw (AssertionError "requires timestamp in seconds")).
Proof.
  unfold PriceHistory.get, assert, read, get, bind, ret, throw.
  destruct (0 <=? ts); [|reflexivity].
  by destruct (lookup prices ts).
Qed.

Lemma set_cases (ts : Z) (price : T) (prices : list (Z * T)) :
  PriceHistory.set ts price prices
  = if 0 <=? ts then (assign prices ts price, Ok price)
    else (prices, Throw (AssertionError "requires timestamp in seconds")).
Proof.
  unfold PriceHistory.set, assert, modify, bind, ret, throw.
  by destruct (0 <=? ts).
Qed.

Lemma price_update_cases (getPrice : Z -> reply (option T)) (block : Block)
    (prices : list (Z * T)) :
  0 <= timestamp block -> 0 <= number block ->
  PriceHistory.update getPrice block prices
  = match lookup prices (timestamp block) with
    | Some price => (prices, Ok (Some price))
    | None =>
        match getPrice (number block) with
        | Reply (Some price) =>
            (assign prices (timestamp block) price, Ok (Some price))
        | Reply None => (prices, Ok None)
        | Fail e => (prices, Throw e)
        end
    end.
Proof.
  intros Hts Hnum.
  unfold PriceHistory.update, PriceHistory.has.
  unfold assert, read, get.
  rewrite (proj2 (Z.leb_le _ _) Hts), (proj2 (Z.leb_le _ _) Hnum).
  unfold bind at 1 2 3. unfold ret at 1 2.
  destruct (lookup prices (timestamp block)) as [price|] eqn:Hl.
  - unfold bind. rewrite get_cases, (proj2 (Z.leb_le _ _) Hts), Hl. reflexivity.
  - unfold bind, await.
    destruct (getPrice (number block)) as [[price|]|e]; try reflexivity.
    cbn [call result_of]. rewrite set_cases, (proj2 (Z.leb_le _ _) Hts).
    reflexivity.
Qed.

(** X12: a price set at a timestamp that is not negative is returned,
    is read back by [get] at that timestamp, and no other timestamp's price
    changes. *)
Theorem set_then_get (ts : Z) (price : T) (prices : list (Z * T)) :
  0 <= ts ->
  let after := fst (PriceHistory.set ts price prices) in
  snd (PriceHistory.set ts price prices) = Ok price
  /\ PriceHistory.get ts after = (after, Ok price)
  /\ PriceHistory.has after ts = true
  /\ forall ts', ts' <> ts -> lookup after ts' = lookup prices ts'.
Proof.
  intros Hts. cbv zeta.
  rewrite set_cases, (proj2 (Z.leb_le _ _) Hts). cbn [fst snd].
  split; [reflexivity|].
  split.
  { rewrite get_cases, (proj2 (Z.leb_le _ _) Hts), lookup_assign, Z.eqb_refl.
    reflexivity. }
  split.
  { unfold PriceHistory.has. rewrite lookup_assign, Z.eqb_refl. reflexivity. }
  intros ts' Hne. rewrite lookup_assign.
  by rewrite (proj2 (Z.eqb_neq _ _) Hne).
Qed.

(** X13: [get] at a timestamp that has no price throws an assertion error
    and leaves the prices as they are. *)
Theorem get_requires_known_timestamp (ts : Z) (prices : list (Z * T)) :
  PriceHistory.has prices ts = false ->
  exists msg, PriceHistory.get ts prices = (prices, Throw (AssertionError msg)).
Proof.
  unfold PriceHistory.has. intros Hhas.
  rewrite get_cases.
  destruct (0 <=? ts); [|by eexists].
  destruct (lookup prices ts); [discriminate|by eexists].
Qed.

(** X14: [update] for a block whose timestamp has a price returns that
    price and leaves the prices as they are, whatever [getPrice] would
    answer: [getPrice] is not asked. *)
Theorem update_uses_stored_price (block : Block) (prices : list (Z * T)) (price : T)
    (getPrice : Z -> reply (option T)) :
  0 <= timestamp block -> 0 <= number block ->
  lookup prices (timestamp block) = Some price ->
  PriceHistory.update getPrice block prices = (prices, Ok (Some price)).
Proof.
  intros Hts Hnum Hl. rewrite price_update_cases by done. by rewrite Hl.
Qed.

(** X15: [update] changes the price of a timestamp only by storing, at the
    block's timestamp, which had no price, the price that [getPrice] gives
    for the block's number: a stored price is never overwritten, and a
    [null] price or a rejection stores nothing. *)
Theorem update_only_adds (getPrice : Z -> reply (option T)) (block : Block)
    (prices : list (Z * T)) (ts : Z) :
  lookup (fst (PriceHistory.update getPrice block prices)) ts <> lookup prices ts ->
  ts = timestamp block
  /\ lookup prices ts = None
  /\ exists price,
       getPrice (number block) = Reply (Some price)
       /\ lookup (fst (PriceHistory.update getPrice block prices)) ts = Some price.
Proof.
  destruct (Z.leb_spec 0 (timestamp block)) as [Hts|Hts]; cycle 1.
  { unfold PriceHistory.update, assert, bind, throw.
    rewrite (proj2 (Z.leb_gt _ _) Hts). cbn [fst]. congruence. }
  destruct (Z.leb_spec 0 (number block)) as [Hnum|Hnum]; cycle 1.
  { unfold PriceHistory.update, assert, bind, throw, ret.
    rewrite (proj2 (Z.leb_le _ _) Hts), (proj2 (Z.leb_gt _ _) Hnum).
    cbn [fst]. congruence. }
  rewrite price_update_cases by done.
  destruct (lookup prices (timestamp block)) as [stored|] eqn:Hl;
    [cbn [fst]; congruence|].
  destruct (getPrice (number block)) as [[price|]|e]; cbn [fst]; try congruence.
  rewrite lookup_assign.
  destruct (ts =? timestamp block) eqn:Heq; [|congruence].
  apply Z.eqb_eq in Heq. subst ts. intros _.
  split; [reflexivity|]. split; [exact Hl|]. by exists price.
Qed.

(** X16: a price that [update] fetched and stored is not fetched again: a
    second [update] for the block returns it whatever [getPrice] would
    answer then. *)
Theorem update_fetches_once (getPrice getPrice' : Z -> reply (option T))
    (block : Block) (prices : list (Z * T)) (price : T) :
  0 <= timestamp block -> 0 <= number block ->
  PriceHistory.has prices (timestamp block) = false ->
  getPrice (number block) = Reply (Some price) ->
  let after := fst (PriceHistory.update getPrice block prices) in
  snd (PriceHistory.update getPrice block prices) = Ok (Some price)
  /\ PriceHistory.update getPrice' block after = (after, Ok (Some price)).
Proof.
  intros Hts Hnum Hhas Hprice. cbv zeta.
  unfold PriceHistory.has in Hhas.
  rewrite price_update_cases by done.
  destruct (lookup prices (timestamp block)) eqn:Hl; [discriminate|].
  rewrite Hprice. cbn [fst snd]. split; [reflexivity|].
  rewrite price_update_cases by done.
  rewrite lookup_assign, Z.eqb_refl. reflexivity.
Qed.

Lemma latest_fold (entries : list (Z * T)) (t : Z) (q : T) :
  exists t' q',
    fold_left
      (fun (result : Z * option T) (entry : Z * T) =>
         match snd result with
         | None => (fst entry, Some (snd entry))
         | Some _ =>
             if fst result <? fst entry then (fst entry, Some (snd entry))
             else result
         end) entries (t, Some q) = (t', Some q')
    /\ ((t', q') = (t, q) \/ (t', q') ∈ entries)
    /\ t <= t'
    /\ forall e, e ∈ entries -> fst e <= t'.
Proof.
  revert t q. induction entries as [|[k v] rest IH]; intros t q; cbn [fold_left fst snd].
  - exists t, q. split; [reflexivity|]. split; [by left|]. split; [lia|].
    intros e He. by apply elem_of_nil in He.
  - destruct (Z.ltb_spec t k) as [Hlt|Hge].
    + destruct (IH k v) as (t' & q' & Hf & Hin & Hle & Hall).
      exists t', q'. split; [exact Hf|].
      split.
      { right. destruct Hin as [Heq|Hin]; [rewrite Heq; apply list_elem_of_here|].
        by apply list_elem_of_further. }
      split; [lia|].
      intros e He. apply elem_of_cons in He as [->|He]; [cbn; lia|by apply Hall].
    + destruct (IH t q) as (t' & q' & Hf & Hin & Hle & Hall).
      exists t', q'. split; [exact Hf|].
      split.
      { destruct Hin as [Heq|Hin]; [by left|right; by apply list_elem_of_further]. }
      split; [lia|].
      intros e He. apply elem_of_cons in He as [->|He]; [cbn; lia|by apply Hall].
Qed.

Lemma list_in_decimal (leadingDigit : Z -> Z) (prices : list (Z * T)) :
  Forall (fun entry => Z.abs (fst entry) < 1000000000000000000000) prices ->
  PriceHistory.list_ leadingDigit prices = prices.
Proof.
  unfold PriceHistory.list_, PriceHistory.parseInt_key.
  induction 1 as [|[k v] rest Hk _ IH]; cbn [map fst snd]; [reflexivity|].
  rewrite IH. cbn [fst] in Hk.
  by rewrite (proj2 (Z.ltb_lt _ _) Hk).
Qed.

(** X17: on a history whose timestamps are below 10^21, which [list]
    reads back as they are, [currentPrice] is [null] on an empty history
    only; otherwise it is the price of an entry whose timestamp no entry
    exceeds. *)
Theorem currentPrice_is_latest (leadingDigit : Z -> Z) (prices : list (Z * T)) :
  Forall (fun entry => Z.abs (fst entry) < 1000000000000000000000) prices ->
  match PriceHistory.currentPrice leadingDigit prices with
  | Some price =>
      exists ts, (ts, price) ∈ prices /\ forall e, e ∈ prices -> fst e <= ts
  | None => prices = []
  end.
Proof.
  intros Hdecimal.
  unfold PriceHistory.currentPrice. rewrite (list_in_decimal _ _ Hdecimal).
  destruct prices as [|[k v] rest]; [reflexivity|].
  cbn [fold_left fst snd].
  destruct (latest_fold rest k v) as (t' & q' & Hf & Hin & Hle & Hall).
  rewrite Hf. cbn [snd]. exists t'.
  split.
  - destruct Hin as [Heq|Hin]; [rewrite Heq; apply list_elem_of_here|].
    by apply list_elem_of_further.
  - intros e He. apply elem_of_cons in He as [->|He]; [cbn; lia|by apply Hall].
Qed.

(** X18: [set] keeps one entry per timestamp: on a history that lists no
    timestamp twice, the history after [set] lists none twice. *)
Theorem set_keeps_timestamps_distinct (ts : Z) (price : T) (prices : list (Z * T)) :
  NoDup (map fst prices) ->
  NoDup (map fst (fst (PriceHistory.set ts price prices))).
Proof.
  intros Hnd. rewrite set_cases.
  destruct (0 <=? ts); cbn [fst]; [|exact Hnd].
  unfold PriceHistory.assign.
  destruct (lookup prices ts) eqn:Hl.
  - by rewrite keys_overwrite.
  - apply lookup_None_keys in Hl.
    destruct (PriceHistory.is_array_index ts).
    + rewrite keys_add_index. by apply NoDup_cons.
    + rewrite map_app. cbn [map fst].
      apply NoDup_app. split; [exact Hnd|].
      split; [|apply NoDup_singleton].
      intros x Hx Hx'. apply list_elem_of_singleton in Hx'. by subst x.
Qed.

End WithPrices.

Lemma set_then_get_witness :
  let after := fst (PriceHistory.set 20 7 [(10, 5)]) in
  snd (PriceHistory.set 20 7 [(10, 5)]) = Ok 7
  /\ PriceHistory.get 20 after = (after, Ok 7)
  /\ PriceHistory.has after 20 = true
  /\ forall ts', ts' <> 20 ->
       PriceHistory.lookup after ts' = PriceHistory.lookup [(10, 5)] ts'.
Proof.
  apply (set_then_get 20 7 [(10, 5)]). lia.
Defined.

Lemma get_requires_known_timestamp_witness :
  exists msg,
    PriceHistory.get 30 [(10, 5)] = ([(10, 5)], Throw (AssertionError msg)).
Proof.
  apply (get_requires_known_timestamp 30 [(10, 5)]). reflexivity.
Defined.

Lemma update_uses_stored_price_witness :
  PriceHistory.update (fun _ => Fail (Rejected "offline")) (mkBlock 3 10) [(10, 5)]
  = ([(10, 5)], Ok (Some 5)).
Proof.
  apply (update_uses_stored_price (mkBlock 3 10) [(10, 5)] 5
           (fun _ => Fail (Rejected "offline"))); [cbn; lia|cbn; lia|reflexivity].
Defined.

Lemma update_only_adds_witness :
  20 = timestamp (mkBlock 3 20)
  /\ PriceHistory.lookup [(10, 5)] 20 = None
  /\ exists price,
       (fun _ : Z => Reply (Some 7)) (number (mkBlock 3 20)) = Reply (Some price)
       /\ PriceHistory.lookup
            (fst (PriceHistory.update (fun _ => Reply (Some 7)) (mkBlock 3 20) [(10, 5)]))
            20 = Some price.
Proof.
  apply (update_only_adds (fun _ => Reply (Some 7)) (mkBlock 3 20) [(10, 5)] 20).
  vm_compute. discriminate.
Defined.

Lemma update_fetches_once_witness :
  let after :=
    fst (PriceHistory.update (fun _ => Reply (Some 7)) (mkBlock 3 20) [(10, 5)]) in
  snd (PriceHistory.update (fun _ => Reply (Some 7)) (mkBlock 3 20) [(10, 5)])
  = Ok (Some 7)
  /\ PriceHistory.update (fun _ => Fail (Rejected "offline")) (mkBlock 3 20) after
     = (after, Ok (Some 7)).
Proof.
  apply (update_fetches_once (fun _ => Reply (Some 7))
           (fun _ => Fail (Rejected "offline")) (mkBlock 3 20) [(10, 5)] 7);
    [cbn; lia|cbn; lia|reflexivity|reflexivity].
Defined.

Lemma set_keeps_timestamps_distinct_witness :
  NoDup (map fst (fst (PriceHistory.set 15 6 [(10, 5); (20, 7)]))).
Proof.
  apply (set_keeps_timestamps_distinct 15 6 [(10, 5); (20, 7)]).
  cbn. apply NoDup_cons. split; [|apply NoDup_singleton].
  intros Hin. apply list_elem_of_singleton in Hin. lia.
Defined.

Lemma currentPrice_is_latest_witness :
  match PriceHistory.currentPrice Fixtures.firstDigit [(10, 5); (30, 6); (20, 7)] with
  | Some price =>
      exists ts, (ts, price) ∈ [(10, 5); (30, 6); (20, 7)]
                 /\ forall e, e ∈ [(10, 5); (30, 6); (20, 7)] -> fst e <= ts
  | None => [(10, 5); (30, 6); (20, 7)] = []
  end.
Proof.
  apply (currentPrice_is_latest Fixtures.firstDigit [(10, 5); (30, 6); (20, 7)]).
  apply Forall_cons_2; [cbn; lia|].
  apply Forall_cons_2; [cbn; lia|].
  apply Forall_cons_2; [cbn; lia|apply Forall_nil_2].
Defined.

(** From 10^21 on the timestamps are not read back as they are: after
    [set(1e21, 1)] and [set(5, 3)], [list] gives the first timestamp as 1,
    and the current price is the price at timestamp 5. *)
Example currentPrice_reads_parsed_keys :
  PriceHistory.currentPrice Fixtures.firstDigit
    (fst (PriceHistory.set 5 3
            (fst (PriceHistory.set 1000000000000000000000 1 []))))
  = Some 3.
Proof. vm_compute. reflexivity. Qed.

End PriceHistoryFacts.

(** * What the proposer ignores, caches and submits *)
Module ProposerSending.
Import Proposer.

Section WithCollaborators.
Context {World Feed Receipt : Type} (env : Collaborators World Feed Receipt).

Local Abbreviation blacklistLog :=
  (mkLog Debug "OptimisticOracleProposer#Proposer" "Identifier is blacklisted" None).

Lemma shouldIgnore_decides_aux (priceRequest : PriceRequest) (st : state World Feed) :
  exists st' ignore,
    _shouldIgnorePriceRequest env priceRequest st = (st', Ok ignore)
    /\ submitted st' = submitted st.
Proof.
  unfold _shouldIgnorePriceRequest.
  destruct (includes (OPTIMISTIC_ORACLE_IGNORE env) _).
  { unfold logger, modify, bind, ret. by eexists _, true. }
  destruct (includes (OPTIMISTIC_ORACLE_IGNORE_POST_EXPIRY env) _);
    [|by exists st, false].
  unfold try_catch, bind, ask, logger, modify, ret.
  destruct (expirationTimestamp env (requester priceRequest) (world st))
    as [w [expiration|e]]; cbn [result_of].
  - destruct (expiration <=? request_timestamp priceRequest); by eexists _, _.
  - by eexists _, false.
Qed.

(** X19: [_shouldIgnorePriceRequest] never throws, also when the call of
    the requester's contract is rejected; it submits nothing and leaves the
    feed cache alone; and it answers [true] exactly for an identifier on
    the blacklist, or on the post-expiry list when the contract answers an
    expiration that is not after the timestamp of the request. *)
Theorem shouldIgnore_decides (priceRequest : PriceRequest) (st : state World Feed) :
  exists st' ignore,
    _shouldIgnorePriceRequest env priceRequest st = (st', Ok ignore)
    /\ submitted st' = submitted st
    /\ priceFeedCache st' = priceFeedCache st
    /\ (ignore = true
        <-> blacklisted env priceRequest
            \/ expiredPostExpiry env priceRequest (world st)).
Proof.
  unfold _shouldIgnorePriceRequest, blacklisted, expiredPostExpiry.
  destruct (includes (OPTIMISTIC_ORACLE_IGNORE env) _) eqn:Hb.
  { unfold logger, modify, bind, ret. eexists _, true.
    split; [reflexivity|]. cbn. do 2 (split; [reflexivity|]).
    split; [by left|done]. }
  destruct (includes (OPTIMISTIC_ORACLE_IGNORE_POST_EXPIRY env) _) eqn:Hp; cycle 1.
  { unfold ret. exists st, false. do 3 (split; [reflexivity|]).
    split; [done|]. intros [?|[? _]]; done. }
  unfold try_catch, bind, ask, logger, modify, ret.
  destruct (expirationTimestamp env (requester priceRequest) (world st))
    as [w [expiration|e]] eqn:He; cbn [result_of snd].
  - destruct (Z.leb_spec expiration (request_timestamp priceRequest)) as [Hle|Hgt].
    + eexists _, true. split; [reflexivity|]. cbn. do 2 (split; [reflexivity|]).
      split; [|done]. intros _. right. split; [done|]. by exists expiration.
    + eexists _, false. split; [reflexivity|]. cbn. do 2 (split; [reflexivity|]).
      split; [done|]. intros [?|[_ (t & [= <-] & Hle)]]; [done|lia].
  - eexists _, false. split; [reflexivity|]. cbn. do 2 (split; [reflexivity|]).
    split; [done|]. intros [?|[_ (t & Ht & _)]]; done.
Qed.

Lemma shouldIgnore_blacklisted (priceRequest : PriceRequest) (st : state World Feed) :
  blacklisted env priceRequest ->
  _shouldIgnorePriceRequest env priceRequest st
  = (mkState (world st) (logs st ++ [blacklistLog]) (priceFeedCache st) (submitted st),
     Ok true).
Proof.
  unfold _shouldIgnorePriceRequest, blacklisted. intros ->. reflexivity.
Qed.

(** X20: requests whose identifiers are on the blacklist pass through
    either loop without a call to any collaborator: whatever the sender, the
    loop returns with the world, the feed cache and the submitted
    transactions as they were, and one log entry a request. *)
Theorem blacklisted_requests_are_skipped
    (send : PriceRequest -> M (state World Feed) unit)
    (requests : list PriceRequest) (st : state World Feed) :
  Forall (blacklisted env) requests ->
  forRequests env send requests st
  = (mkState (world st) (logs st ++ replicate (length requests) blacklistLog)
             (priceFeedCache st) (submitted st),
     Ok tt).
Proof.
  intros Hall. revert st.
  induction Hall as [|priceRequest rest Hb _ IH]; intros st; cbn [forRequests].
  - unfold ret. cbn. rewrite app_nil_r. by destruct st.
  - unfold bind at 1. rewrite (shouldIgnore_blacklisted _ _ Hb).
    unfold bind at 1. unfold ret at 1. rewrite IH. cbn.
    by rewrite <- app_assoc.
Qed.

(** X21: a price feed that was built is cached under its identifier, and
    the next call for the identifier returns it without building one,
    whatever the collaborators would answer; a feed that could not be built
    ([null]) is not cached. *)
Theorem price_feed_is_cached (id : string) (st st1 : state World Feed)
    (found : option Feed) (env' : Collaborators World Feed Receipt) :
  _createOrGetCachedPriceFeed env id st = (st1, Ok found) ->
  priceFeedCache st1 !! id = found
  /\ match found with
     | Some feed => _createOrGetCachedPriceFeed env' id st1 = (st1, Ok (Some feed))
     | None => priceFeedCache st1 = priceFeedCache st
     end.
Proof.
  unfold _createOrGetCachedPriceFeed at 1.
  unfold bind at 1. unfold get at 1.
  destruct (priceFeedCache st !! id) as [feed|] eqn:Hcache.
  - intros [= <- <-]. split; [exact Hcache|].
    unfold _createOrGetCachedPriceFeed, bind, get. by rewrite Hcache.
  - unfold logger, modify, bind, ask, ret. cbn.
    destruct (createReferencePriceFeed env id (world st)) as [w [[feed|]|e]];
      cbn; intros [= <- <-]; cbn.
    + split; [apply lookup_insert_eq|].
      unfold _createOrGetCachedPriceFeed, bind, get. cbn.
      by rewrite lookup_insert_eq.
    + split; [exact Hcache|reflexivity].
Qed.

Lemma createOrGet_submitted (id : string) (st st' : state World Feed) r :
  _createOrGetCachedPriceFeed env id st = (st', r) ->
  submitted st' = submitted st.
Proof.
  unfold _createOrGetCachedPriceFeed, bind, get, logger, modify, ask, ret.
  destruct (priceFeedCache st !! id) as [feed|]; [by intros [= <- _]|].
  cbn. destruct (createReferencePriceFeed env id (world st)) as [w [[feed|]|e]];
    cbn; by intros [= <- _].
Qed.

Lemma ask_submitted {A} (c : Ext World A) (st st' : state World Feed) (r : result A) :
  ask c st = (st', r) -> submitted st' = submitted st.
Proof. unfold ask. destruct (c (world st)). by intros [= <- _]. Qed.

Lemma priceAvailable_submitted (priceRequest : PriceRequest)
    (st st3 : state World Feed) (price : Z) :
  priceAvailable env priceRequest st st3 price -> submitted st3 = submitted st.
Proof.
  intros (feed & st1 & st2 & Hfeed & Hupdate & Hlookup).
  apply createOrGet_submitted in Hfeed. apply ask_submitted in Hupdate, Hlookup.
  congruence.
Qed.

(** X22: when the historical price is there, [_sendProposal] hands one
    transaction to [runTransaction], the proposal of that price for the
    request, and returns normally whether or not the transaction goes
    through: a rejection is caught, and the last log entry tells the
    outcome. *)
Theorem proposal_is_sent_once (priceRequest : PriceRequest)
    (st st3 : state World Feed) (price : Z) :
  priceAvailable env priceRequest st st3 price ->
  exists st',
    _sendProposal env priceRequest st = (st', Ok tt)
    /\ submitted st' = submitted st ++ [proposalOf priceRequest price]
    /\ last (logs st')
       = Some (outcomeLog "OptimisticOracleProposer#sendProposals" "Proposed price!"
                 "Cannot propose price: not enough collateral (or large enough approval)"
                 "Failed to propose price" priceRequest
                 (snd (runTransaction env (proposalOf priceRequest price) (world st3)))).
Proof.
  intros Hprice.
  pose proof (priceAvailable_submitted _ _ _ _ Hprice) as Hsub.
  destruct Hprice as (feed & st1 & st2 & Hfeed & Hupdate & Hlookup).
  unfold _sendProposal.
  unfold bind at 1. rewrite Hfeed.
  unfold bind at 1. rewrite Hupdate.
  unfold bind at 1. unfold try_catch at 1. unfold bind at 1. rewrite Hlookup.
  unfold ret at 1.
  fold (proposalOf priceRequest price).
  unfold submit, logger, modify, try_catch, bind, ret, ask. cbn.
  destruct (runTransaction env (proposalOf priceRequest price) (world st3))
    as [w [receipt|e]]; cbn.
  - eexists. split; [reflexivity|]. cbn. rewrite Hsub.
    split; [reflexivity|]. apply last_snoc.
  - eexists. split; [reflexivity|]. cbn. rewrite Hsub.
    split; [reflexivity|]. apply last_snoc.
Qed.

(** X23: when the historical price is there, [_sendDispute] disputes
    exactly when the proposed price deviates from it beyond the margin: it
    then hands the dispute of the request to [runTransaction], once, and
    otherwise hands over nothing; either way it returns normally. *)
Theorem dispute_only_outside_margin (priceRequest : PriceRequest)
    (st st3 : state World Feed) (price : Z) :
  priceAvailable env priceRequest st st3 price ->
  exists st',
    _sendDispute env priceRequest st = (st', Ok tt)
    /\ submitted st'
       = submitted st
         ++ (if isDeviationOutsideErrorMargin env (proposedPrice priceRequest) price
             then [disputeOf priceRequest] else [])
    /\ last (logs st')
       = Some
           (if isDeviationOutsideErrorMargin env (proposedPrice priceRequest) price
            then
              outcomeLog "OptimisticOracleProposer#sendDisputes" "Disputed proposal!"
                "Cannot dispute price: not enough collateral (or large enough approval)"
                "Failed to dispute proposal" priceRequest
                (snd (runTransaction env (disputeOf priceRequest) (world st3)))
            else
              mkLog Debug "OptimisticOracleProposer#sendDisputes"
                "Skipping dispute because proposal price is within allowed margin of error"
                (Some priceRequest)).
Proof.
  intros Hprice.
  pose proof (priceAvailable_submitted _ _ _ _ Hprice) as Hsub.
  destruct Hprice as (feed & st1 & st2 & Hfeed & Hupdate & Hlookup).
  unfold _sendDispute. cbv zeta.
  unfold bind at 1. rewrite Hfeed.
  unfold bind at 1. rewrite Hupdate.
  unfold bind at 1. unfold try_catch at 1. unfold bind at 1. rewrite Hlookup.
  unfold ret at 1.
  fold (disputeOf priceRequest).
  destruct (isDeviationOutsideErrorMargin env (proposedPrice priceRequest) price).
  - unfold submit, logger, modify, try_catch, bind, ret, ask. cbn.
    destruct (runTransaction env (disputeOf priceRequest) (world st3))
      as [w [receipt|e]]; cbn.
    + eexists. split; [reflexivity|]. cbn. rewrite Hsub.
      split; [reflexivity|]. apply last_snoc.
    + eexists. split; [reflexivity|]. cbn. rewrite Hsub.
      split; [reflexivity|]. apply last_snoc.
  - unfold logger, modify. eexists. split; [reflexivity|]. cbn.
    rewrite Hsub, app_nil_r. split; [reflexivity|]. apply last_snoc.
Qed.

Lemma sendProposal_submits (priceRequest : PriceRequest)
    (st st' : state World Feed) (r : result unit) :
  _sendProposal env priceRequest st = (st', r) ->
  exists txs,
    submitted st' = submitted st ++ txs
    /\ (length txs <= 1)%nat
    /\ Forall (fun tx => exists price, tx = proposalOf priceRequest price) txs.
Proof.
  unfold _sendProposal.
  unfold bind at 1.
  destruct (_createOrGetCachedPriceFeed env _ st) as [st1 r1] eqn:Hfeed.
  apply createOrGet_submitted in Hfeed.
  assert (forall st'' : state World Feed, submitted st'' = submitted st1 ->
            exists txs, submitted st'' = submitted st ++ txs /\ (length txs <= 1)%nat
              /\ Forall (fun tx => exists price, tx = proposalOf priceRequest price) txs)
    as Hnone.
  { intros st'' Heq. exists []. rewrite app_nil_r. split; [congruence|].
    split; [cbn; lia|apply Forall_nil_2]. }
  destruct r1 as [[feed|]| | |]; try (intros [= <- _]; by apply Hnone).
  unfold bind at 1.
  destruct (ask (feed_update env feed) st1) as [st2 r2] eqn:Hupdate.
  apply ask_submitted in Hupdate.
  destruct r2 as [[]| | |]; try (intros [= <- _]; apply Hnone; congruence).
  unfold bind at 1. unfold try_catch at 1. unfold bind at 1.
  destruct (ask (getHistoricalPrice env feed _) st2) as [st3 r3] eqn:Hlookup.
  apply ask_submitted in Hlookup.
  destruct r3 as [price| | |]; try (intros [= <- _]; apply Hnone; cbn; congruence).
  unfold ret at 1.
  fold (proposalOf priceRequest price).
  unfold submit, logger, modify, try_catch, bind, ret, ask. cbn.
  destruct (runTransaction env (proposalOf priceRequest price) (world st3))
    as [w [receipt|e]]; cbn; intros [= <- _]; cbn;
    (exists [proposalOf priceRequest price]; split; [congruence|];
     split; [cbn; lia|]; apply Forall_cons_2; [by exists price|apply Forall_nil_2]).
Qed.

Lemma sendDispute_submits (priceRequest : PriceRequest)
    (st st' : state World Feed) (r : result unit) :
  _sendDispute env priceRequest st = (st', r) ->
  exists txs,
    submitted st' = submitted st ++ txs
    /\ (length txs <= 1)%nat
    /\ Forall (fun tx => tx = disputeOf priceRequest) txs.
Proof.
  unfold _sendDispute. cbv zeta.
  unfold bind at 1.
  destruct (_createOrGetCachedPriceFeed env _ st) as [st1 r1] eqn:Hfeed.
  apply createOrGet_submitted in Hfeed.
  assert (forall st'' : state World Feed, submitted st'' = submitted st1 ->
            exists txs, submitted st'' = submitted st ++ txs /\ (length txs <= 1)%nat
              /\ Forall (fun tx => tx = disputeOf priceRequest) txs)
    as Hnone.
  { intros st'' Heq. exists []. rewrite app_nil_r. split; [congruence|].
    split; [cbn; lia|apply Forall_nil_2]. }
  destruct r1 as [[feed|]| | |]; try (intros [= <- _]; by apply Hnone).
  unfold bind at 1.
  destruct (ask (feed_update env feed) st1) as [st2 r2] eqn:Hupdate.
  apply ask_submitted in Hupdate.
  destruct r2 as [[]| | |]; try (intros [= <- _]; apply Hnone; congruence).
  unfold bind at 1. unfold try_catch at 1. unfold bind at 1.
  destruct (ask (getHistoricalPrice env feed _) st2) as [st3 r3] eqn:Hlookup.
  apply ask_submitted in Hlookup.
  destruct r3 as [price| | |]; try (intros [= <- _]; apply Hnone; cbn; congruence).
  unfold ret at 1.
  fold (disputeOf priceRequest).
  destruct (isDeviationOutsideErrorMargin env (proposedPrice priceRequest) price);
    [|intros [= <- _]; apply Hnone; cbn; congruence].
  unfold submit, logger, modify, try_catch, bind, ret, ask. cbn.
  destruct (runTransaction env (disputeOf priceRequest) (world st3))
    as [w [receipt|e]]; cbn; intros [= <- _]; cbn;
    (exists [disputeOf priceRequest]; split; [congruence|];
     split; [cbn; lia|]; apply Forall_cons_2; [reflexivity|apply Forall_nil_2]).
Qed.

Lemma forRequests_submits (send : PriceRequest -> M (state World Feed) unit)
    (sent : PriceRequest -> Transaction -> Prop) :
  (forall priceRequest st st' r,
      send priceRequest st = (st', r) ->
      exists txs, submitted st' = submitted st ++ txs /\ (length txs <= 1)%nat
                  /\ Forall (sent priceRequest) txs) ->
  forall (requests : list PriceRequest) (st st' : state World Feed) (r : result unit),
    forRequests env send requests st = (st', r) ->
    exists txs,
      submitted st' = submitted st ++ txs
      /\ (length txs <= length requests)%nat
      /\ Forall (fun tx => exists priceRequest,
                            priceRequest ∈ requests /\ sent priceRequest tx) txs.
Proof.
  intros Hsend requests.
  induction requests as [|priceRequest rest IH]; intros st st' r; cbn [forRequests].
  - intros [= <- _]. exists []. rewrite app_nil_r. split; [reflexivity|].
    split; [cbn; lia|apply Forall_nil_2].
  - unfold bind at 1.
    destruct (shouldIgnore_decides_aux priceRequest st) as (st1 & ignore & Hi & Hsub1).
    rewrite Hi.
    unfold bind at 1.
    destruct ((if ignore then ret tt else send priceRequest) st1) as [st2 r2] eqn:Hstep.
    assert (exists txs, submitted st2 = submitted st ++ txs /\ (length txs <= 1)%nat
                        /\ Forall (sent priceRequest) txs)
      as (txs1 & Hsub2 & Hlen1 & Hall1).
    { destruct ignore.
      - injection Hstep as <- _. exists []. rewrite app_nil_r.
        split; [exact Hsub1|]. split; [cbn; lia|apply Forall_nil_2].
      - destruct (Hsend _ _ _ _ Hstep) as (txs & Hsub & Hlen & Hall).
        exists txs. split; [congruence|done]. }
    assert (Forall (fun tx => exists pr, pr ∈ priceRequest :: rest /\ sent pr tx) txs1)
      as Hall1'.
    { eapply Forall_impl; [exact Hall1|]. intros tx Htx. exists priceRequest.
      split; [apply list_elem_of_here|exact Htx]. }
    destruct r2 as [[]| | |].
    + intros Hrest. destruct (IH _ _ _ Hrest) as (txs2 & Hsub3 & Hlen2 & Hall2).
      exists (txs1 ++ txs2). split; [rewrite Hsub3, Hsub2; by rewrite <- app_assoc|].
      split; [rewrite length_app; cbn; lia|].
      apply Forall_app. split; [exact Hall1'|].
      eapply Forall_impl; [exact Hall2|]. intros tx (pr & Hin & Htx).
      exists pr. split; [by apply list_elem_of_further|exact Htx].
    + intros [= <- _]. exists txs1. split; [exact Hsub2|]. split; [cbn; lia|exact Hall1'].
    + intros [= <- _]. exists txs1. split; [exact Hsub2|]. split; [cbn; lia|exact Hall1'].
    + intros [= <- _]. exists txs1. split; [exact Hsub2|]. split; [cbn; lia|exact Hall1'].
Qed.


End WithCollaborators.

Lemma blacklisted_requests_are_skipped_witness :
  forRequests Fixtures.proposerEnvStrict (_sendProposal Fixtures.proposerEnvStrict)
    [Fixtures.blacklistedRequest; Fixtures.blacklistedRequest] (mkState tt [] ∅ [])
  = (mkState tt
       ([] ++ replicate 2
                (mkLog Debug "OptimisticOracleProposer#Proposer"
                       "Identifier is blacklisted" None))
       ∅ [],
     Ok tt).
Proof.
  apply (blacklisted_requests_are_skipped Fixtures.proposerEnvStrict
           (_sendProposal Fixtures.proposerEnvStrict)
           [Fixtures.blacklistedRequest; Fixtures.blacklistedRequest]
           (mkState tt [] ∅ [])).
  apply Forall_cons_2; [reflexivity|].
  apply Forall_cons_2; [reflexivity|apply Forall_nil_2].
Defined.

Lemma price_feed_is_cached_witness :
  priceFeedCache (mkState tt
                    [mkLog Debug "OptimisticOracleProposer"
                           "Created pricefeed configuration for identifier" None]
                    (<["ETHUSD" := tt]> ∅) [])
    !! "ETHUSD" = Some tt
  /\ _createOrGetCachedPriceFeed Fixtures.proposerEnvStrict "ETHUSD"
       (mkState tt
          [mkLog Debug "OptimisticOracleProposer"
                 "Created pricefeed configuration for identifier" None]
          (<["ETHUSD" := tt]> ∅) [])
     = (mkState tt
          [mkLog Debug "OptimisticOracleProposer"
                 "Created pricefeed configuration for identifier" None]
          (<["ETHUSD" := tt]> ∅) [],
        Ok (Some tt)).
Proof.
  apply (price_feed_is_cached Fixtures.proposerEnv "ETHUSD" (mkState tt [] ∅ []) _
           (Some tt) Fixtures.proposerEnvStrict).
  reflexivity.
Defined.

Lemma proposal_is_sent_once_witness :
  exists st',
    _sendProposal Fixtures.proposerEnvStrict Fixtures.lateRequest (mkState tt [] ∅ [])
    = (st', Ok tt)
    /\ submitted st' = [] ++ [proposalOf Fixtures.lateRequest 5]
    /\ last (logs st')
       = Some (outcomeLog "OptimisticOracleProposer#sendProposals" "Proposed price!"
                 "Cannot propose price: not enough collateral (or large enough approval)"
                 "Failed to propose price" Fixtures.lateRequest
                 (snd (runTransaction Fixtures.proposerEnvStrict
                         (proposalOf Fixtures.lateRequest 5) tt))).
Proof.
  apply (proposal_is_sent_once Fixtures.proposerEnvStrict Fixtures.lateRequest
           (mkState tt [] ∅ [])
           (mkState tt
              [mkLog Debug "OptimisticOracleProposer"
                     "Created pricefeed configuration for identifier" None]
              (<["ETHUSD" := tt]> ∅) [])
           5).
  exists tt. eexists _, _. split; [|split]; reflexivity.
Defined.

Lemma dispute_only_outside_margin_witness :
  exists st',
    _sendDispute Fixtures.proposerEnv Fixtures.lateRequest (mkState tt [] ∅ [])
    = (st', Ok tt)
    /\ submitted st'
       = [] ++ (if isDeviationOutsideErrorMargin Fixtures.proposerEnv
                     (proposedPrice Fixtures.lateRequest) 5
                then [disputeOf Fixtures.lateRequest] else [])
    /\ last (logs st')
       = Some
           (if isDeviationOutsideErrorMargin Fixtures.proposerEnv
                 (proposedPrice Fixtures.lateRequest) 5
            then
              outcomeLog "OptimisticOracleProposer#sendDisputes" "Disputed proposal!"
                "Cannot dispute price: not enough collateral (or large enough approval)"
                "Failed to dispute proposal" Fixtures.lateRequest
                (snd (runTransaction Fixtures.proposerEnv
                        (disputeOf Fixtures.lateRequest) tt))
            else
              mkLog Debug "OptimisticOracleProposer#sendDisputes"
                "Skipping dispute because proposal price is within allowed margin of error"
                (Some Fixtures.lateRequest)).
Proof.
  apply (dispute_only_outside_margin Fixtures.proposerEnv Fixtures.lateRequest
           (mkState tt [] ∅ [])
           (mkState tt
              [mkLog Debug "OptimisticOracleProposer"
                     "Created pricefeed configuration for identifier" None]
              (<["ETHUSD" := tt]> ∅) [])
           5).
  exists tt. eexists _, _. split; [|split]; reflexivity.
Defined.

End ProposerSending.

(** * How the liquidator process ends *)
Module LiquidatorExits.
Import Liquidator.

Section WithCollaborators.
Context {World : Type} (cfg : Config) (env : Collaborators World).

(** A call that returns or throws: it neither ends the process nor is cut
    short by the fuel. *)
Local Abbreviation settles c :=
  (forall st : state World,
      (exists a, snd (c st) = Ok a) \/ (exists e, snd (c st) = Throw e)).

Lemma ret_settles {A} (a : A) : settles (ret a).
Proof. intros st. left. by exists a. Qed.

Lemma throw_settles {A} (e : error) : settles (throw (A:=A) e).
Proof. intros st. right. by exists e. Qed.

Lemma logger_settles (lvl : level) (message : string) : settles (logger lvl message).
Proof. intros st. left. by exists tt. Qed.

Lemma start_settles {A} (op : operation) (c : Ext World A) : settles (start op c).
Proof. intros st. unfold start. destruct (c (world st)) as [w p]. left. by exists p. Qed.

Lemma await_settles {A} (p : reply A) : settles (await p).
Proof. intros st. destruct p as [a|e]; [left|right]; by eexists. Qed.

Lemma bind_settles {A B} (c : M (state World) A) (k : A -> M (state World) B) :
  settles c -> (forall a, settles (k a)) -> settles (bind c k).
Proof.
  intros Hc Hk st. unfold bind.
  destruct (Hc st) as [[a Ha]|[e He]]; destruct (c st) as [st1 r]; cbn in *; subst r.
  - apply Hk.
  - right. by exists e.
Qed.

Lemma perform_settles {A} (op : operation) (c : Ext World A) : settles (perform op c).
Proof.
  unfold perform. apply bind_settles; [apply start_settles|]. intros p. apply await_settles.
Qed.

Ltac settle :=
  repeat first
    [ apply ret_settles | apply throw_settles | apply logger_settles
    | apply start_settles | apply await_settles | apply perform_settles
    | apply bind_settles; [|intros ?]
    | match goal with
      | |- forall st, (exists a, snd ((if ?b then _ else _) st) = Ok a) \/ _ =>
          destruct b
      | |- forall st, (exists a, snd ((match ?o with Some _ => _ | None => _ end) st) = Ok a)
                      \/ _ =>
          destruct o
      end ].

Lemma startUp_settles : settles (startUp cfg env).
Proof. unfold startUp. settle. Qed.

Lemma check_settles (type : option string) :
  settles (checkIsExpiredOrShutdownPromise env type).
Proof. unfold checkIsExpiredOrShutdownPromise. settle. Qed.

Lemma cycleBody_settles (b : bool) : settles (cycleBody cfg env b).
Proof. unfold cycleBody. settle. Qed.

(** X25: a cycle calls [liquidator.update()], the first call of every
    attempt, at least once and at most one time more than the configured
    retries, whatever the collaborators answer; between two attempts one
    timer is set, and the timers are the first of the retry package's
    timeouts, in their order; the cycle neither exits nor hangs; and a
    cycle that stops short of the last attempt has succeeded. *)
Theorem cycle_attempts_bounded (isExpiredOrShutdown : bool) (st : state World) :
  exists tr,
    trace (fst (cycle cfg env isExpiredOrShutdown st)) = trace st ++ tr
    /\ (1 <= count is_update tr <= S (errorRetries cfg))%nat
    /\ S (length (timers tr)) = count is_update tr
    /\ timers tr `prefix_of` timeouts (errorRetries cfg) (errorRetriesTimeout cfg * 1000)
    /\ ((snd (cycle cfg env isExpiredOrShutdown st) = Ok tt)
        \/ (count is_update tr = S (errorRetries cfg)
            /\ exists e, snd (cycle cfg env isExpiredOrShutdown st) = Throw e)).
Proof.
  unfold cycle, retry.
  enough (forall (left : list Z) (num : nat) (errors : list error) (st : state World),
            exists tr,
              trace (fst (attempts env left errors num onRetry
                            (cycleBody cfg env isExpiredOrShutdown) st))
              = trace st ++ tr
              /\ (1 <= count is_update tr <= S (length left))%nat
              /\ S (length (timers tr)) = count is_update tr
              /\ timers tr `prefix_of` left
              /\ ((snd (attempts env left errors num onRetry
                          (cycleBody cfg env isExpiredOrShutdown) st) = Ok tt)
                  \/ (count is_update tr = S (length left)
                      /\ exists e,
                           snd (attempts env left errors num onRetry
                                  (cycleBody cfg env isExpiredOrShutdown) st)
                           = Throw e))) as Hattempts.
  { destruct (Hattempts (timeouts (errorRetries cfg) (errorRetriesTimeout cfg * 1000))
                1%nat [] st) as (tr & Htr & Hcount & Hwait & Hprefix & Hend).
    rewrite LiquidatorFacts.timeouts_length in Hcount, Hend.
    by exists tr. }
  clear st. intros left.
  induction left as [|timeout left IH]; intros num errors st;
    rewrite LiquidatorFacts.attempts_unfold;
    destruct (LiquidatorFacts.cycleBody_trace cfg env isExpiredOrShutdown st)
      as (tr1 & Htr1 & Hcount1 & Htimers1 & Hend1);
    destruct (cycleBody cfg env isExpiredOrShutdown st) as [st1 r1];
    cbn [fst snd] in *;
    destruct Hend1 as [->|[e ->]]; cbn [fst snd].
  - exists tr1. rewrite Hcount1, Htimers1. cbn.
    split; [exact Htr1|]. split; [lia|]. split; [lia|].
    split; [apply prefix_nil|by left].
  - exists tr1. rewrite Hcount1, Htimers1. cbn.
    split; [exact Htr1|]. split; [lia|]. split; [lia|].
    split; [apply prefix_nil|]. right. split; [reflexivity|by eexists].
  - exists tr1. rewrite Hcount1, Htimers1. cbn.
    split; [exact Htr1|]. split; [lia|]. split; [lia|].
    split; [apply prefix_nil|by left].
  - destruct (IH (S num) (errors ++ [e])
                (mkState (world st1)
                   ((trace st1 ++ [EvTimer timeout])
                    ++ [EvLog Debug "An error was thrown in the execution loop - retrying"])))
      as (tr & Htr & Hcount & Hwait & Hprefix & Hend).
    exists (tr1 ++ [EvTimer timeout;
                    EvLog Debug "An error was thrown in the execution loop - retrying"]
                ++ tr).
    split.
    { rewrite Htr. cbn [trace]. rewrite Htr1. by rewrite <- !app_assoc. }
    rewrite !LiquidatorFacts.count_app, !LiquidatorFacts.timers_app, Hcount1, Htimers1.
    cbn. split; [lia|]. split; [lia|].
    split; [by apply prefix_cons|].
    destruct Hend as [Hok|[Hn Hthrow]]; [by left|right]. split; [lia|exact Hthrow].
Qed.

Lemma cycle_settles (b : bool) : settles (cycle cfg env b).
Proof.
  unfold cycle, retry.
  enough (forall (left : list Z) (num : nat) (errors : list error),
            settles (attempts env left errors num onRetry (cycleBody cfg env b)))
    as Hattempts by apply Hattempts.
  intros left.
  induction left as [|timeout left IH]; intros num errors st;
    rewrite LiquidatorFacts.attempts_unfold;
    destruct (cycleBody_settles b st) as [[[] Hr]|[e Hr]];
    destruct (cycleBody cfg env b st) as [st1 r]; cbn [snd] in Hr; subst r; cbn [snd];
    try (left; by exists tt); try (right; by eexists).
  apply IH.
Qed.

Lemma executionLoop_outcome (fuel : nat) (type : option string)
    (st st' : state World) (r : result unit) :
  executionLoop cfg env fuel type st = (st', r) ->
  (r = Ok tt /\ pollingDelay cfg = 0)
  \/ (exists e, r = Throw e)
  \/ (r = OutOfFuel /\ (pollingDelay cfg <> 0 \/ fuel = 0%nat)).
Proof.
  revert st. induction fuel as [|fuel IH]; intros st; cbn [executionLoop].
  { intros [= _ <-]. right. right. split; [reflexivity|by right]. }
  unfold bind at 1.
  destruct (check_settles type st) as [[b Hb]|[e He]];
    destruct (checkIsExpiredOrShutdownPromise env type st) as [st1 r1];
    cbn [snd] in *; subst r1; [|intros [= _ <-]; right; left; by exists e].
  unfold bind at 1.
  destruct (cycle_settles b st1) as [[[] Hc]|[e He]];
    destruct (cycle cfg env b st1) as [st2 r2];
    cbn [snd] in *; subst r2; [|intros [= _ <-]; right; left; by exists e].
  destruct (Z.eqb_spec (pollingDelay cfg) 0) as [Hzero|Hpos].
  - unfold logger, emit, modify, bind, ret. cbn. intros [= _ <-].
    left. split; [reflexivity|exact Hzero].
  - unfold logger, emit, modify, bind. cbn. intros Hloop.
    destruct (IH _ Hloop) as [[Hok Hz]|[[e He]|[Hfuel _]]].
    + by left.
    + right. left. by exists e.
    + right. right. split; [exact Hfuel|by left].
Qed.

Lemma run_outcome (fuel : nat) (st st' : state World) (r : result unit) :
  run cfg env fuel st = (st', r) ->
  (r = Ok tt /\ pollingDelay cfg = 0)
  \/ (exists e, r = Throw e)
  \/ (r = OutOfFuel /\ (pollingDelay cfg <> 0 \/ fuel = 0%nat)).
Proof.
  unfold run, try_catch, throw. unfold bind at 1.
  destruct (startUp_settles st) as [[type Ha]|[e Ha]];
    destruct (startUp cfg env st) as [st1 r1]; cbn [snd] in Ha; subst r1;
    [|intros [= _ <-]; right; left; by exists e].
  destruct (executionLoop cfg env fuel type st1) as [st2 r2] eqn:Hloop.
  destruct (executionLoop_outcome _ _ _ _ _ Hloop) as [[-> Hz]|[[e ->]|[-> Hwhy]]];
    intros [= _ <-].
  - by left.
  - right. left. by exists e.
  - right. right. by split.
Qed.

(** X26: whatever the collaborators answer, the process ends with exit
    code 0 or 1 unless its loop goes on: it never returns without an exit
    and no error escapes.  It exits with code 0 only when the polling delay
    is 0, and with a polling delay of 0 it exits within the first iteration
    of the loop. *)
Theorem main_exit_code (fuel : nat) (st : state World) :
  (snd (main cfg env fuel st) = Exit 0 /\ pollingDelay cfg = 0)
  \/ snd (main cfg env fuel st) = Exit 1
  \/ (snd (main cfg env fuel st) = OutOfFuel
      /\ (pollingDelay cfg <> 0 \/ fuel = 0%nat)).
Proof.
  destruct (main cfg env fuel st) as [st' r] eqn:Hmain. cbn [snd].
  revert Hmain. unfold main, Poll, nodeCallback.
  unfold try_catch at 1. unfold bind at 1. unfold try_catch at 1.
  unfold bind at 1.
  destruct (contractAddressSet cfg).
  - unfold ret at 1.
    destruct (run cfg env fuel st) as [st1 r1] eqn:Hrun.
    destruct (run_outcome _ _ _ _ Hrun) as [[-> Hz]|[[e ->]|[-> Hwhy]]].
    + intros [= _ <-]. left. split; [reflexivity|exact Hz].
    + unfold logger, emit, modify, bind, call. cbn. intros [= _ <-]. right. by left.
    + intros [= _ <-]. right. right. by split.
  - unfold throw, logger, emit, modify, bind, call. cbn. intros [= _ <-].
    right. by left.
Qed.

(** X27: without the address of the financial contract the process logs
    the error, waits for the logger, prints the error and exits with code
    1: nothing starts, and no collaborator is called. *)
Theorem missing_address_is_fatal (fuel : nat) (st : state World) :
  contractAddressSet cfg = false ->
  main cfg env fuel st
  = (mkState (world st)
       (trace st ++ [EvLog Error_ "Liquidator execution error"; EvWaitForLogger;
                     EvConsoleError]),
     Exit 1).
Proof.
  intros Hset. unfold main, Poll, nodeCallback. rewrite Hset.
  unfold try_catch, bind, throw, logger, emit, modify, call. cbn.
  by rewrite <- !app_assoc.
Qed.

End WithCollaborators.

Lemma missing_address_is_fatal_witness :
  main (mkConfig false 60 3 1 None None None false) (Fixtures.liquidatorEnv false) 5
       (mkState tt [])
  = (mkState tt
       ([] ++ [EvLog Error_ "Liquidator execution error"; EvWaitForLogger;
               EvConsoleError]),
     Exit 1).
Proof.
  apply (missing_address_is_fatal (mkConfig false 60 3 1 None None None false)
           (Fixtures.liquidatorEnv false) 5 (mkState tt [])).
  reflexivity.
Defined.

End LiquidatorExits.
